(** * The Halite match manager (manager.py): a shallow embedding

    The model follows [manager.py] function by function.  Python integers
    are [Z], Python floats and SQLite reals are IEEE binary64 values
    ([float], Rocq's primitive floats), a str is the [string] of its
    characters, all below 256 (the engine's output is decoded as ASCII),
    exceptions are an inductive type carried by [result], and Python's
    in-place mutation of an object is modelled by returning the mutated
    object next to the outcome, so that what an aborted call leaves behind
    stays visible.

    The library calls are those of CPython 3.11: [int] reads underscores
    between digits and refuses more than 4300 digits, and
    [random.randint] still takes a float that equals its integer part.
    What lies outside the file (the game engine, the [skills] package,
    the file system, the clock, the random generator) is an argument of
    the model.  Of the console output only the refusal notices are kept. *)

From Stdlib Require Import ZArith List String Ascii Lia Floats Permutation Sorted DecimalString.
From stdpp Require Import base list strings.

Open Scope string_scope.
Open Scope Z_scope.

(** ** Exceptions and outcomes *)

(** The Python exceptions that the modelled code can raise. *)
Inductive exn : Type :=
| ValueError (msg : string)
| IndexError
| UnicodeDecodeError
| TimeoutExpired
| OverflowError
| ZeroDivisionError
| IntegrityError
| ExternalError (msg : string)
| OSError (msg : string).

(** A call either returns a value or raises. *)
Inductive result (A : Type) : Type :=
| Ok (a : A)
| Raise (e : exn).
Arguments Ok {A} a.
Arguments Raise {A} e.

Definition is_ok {A} (r : result A) : bool :=
  match r with Ok _ => true | Raise _ => false end.

Definition rbind {A B} (r : result A) (k : A -> result B) : result B :=
  match r with
  | Ok a => k a
  | Raise e => Raise e
  end.

Notation "'let?' x ':=' r 'in' k" := (rbind r (fun x => k))
  (at level 10, x name, r at level 100, k at level 200).

(** ** Python lists: indexing with negative indices *)

Module PyList.

(** The position that index [i] denotes in a list of length [len]:
    [0 <= i < len] is itself, [-len <= i < 0] counts from the end,
    anything else is out of range. *)
Definition norm_index (len : nat) (i : Z) : option nat :=
  if (0 <=? i) && (i <? Z.of_nat len) then Some (Z.to_nat i)
  else if (- Z.of_nat len <=? i) && (i <? 0) then Some (Z.to_nat (Z.of_nat len + i))
  else None.

(** [l[i]] *)
Definition getitem {A} (l : list A) (i : Z) : result A :=
  match norm_index (length l) i with
  | Some k => match l !! k with Some x => Ok x | None => Raise IndexError end
  | None => Raise IndexError
  end.

(** [l[i] = x] *)
Definition setitem {A} (l : list A) (i : Z) (x : A) : result (list A) :=
  match norm_index (length l) i with
  | Some k => Ok (<[k := x]> l)
  | None => Raise IndexError
  end.

(** [l.remove(x)]: drops the first occurrence; [ValueError] when absent. *)
Fixpoint remove (x : Z) (l : list Z) : result (list Z) :=
  match l with
  | [] => Raise (ValueError "list.remove(x): x not in list")
  | y :: l' =>
      if x =? y then Ok l'
      else match remove x l' with
           | Ok r => Ok (y :: r)
           | Raise e => Raise e
           end
  end.

End PyList.

(** [str(n)] for an integer.  (CPython 3.11 makes [str] raise
    [ValueError] on an integer of more than 4300 digits; the model is
    exact below [10^4300] in magnitude.) *)
Definition str_of_int (n : Z) : string :=
  DecimalString.NilZero.string_of_int (Z.to_int n).

(** ** Python strings: [split] and [int] *)

Module PyStr.

Definition newline : ascii := ascii_of_nat 10.
Definition space : ascii := " "%char.

(** [s.split(sep)] for a one-character separator: [k] separators give
    [k + 1] pieces, empty pieces are kept. *)
Fixpoint split (sep : ascii) (s : string) : list string :=
  match s with
  | EmptyString => [EmptyString]
  | String c s' =>
      if Ascii.eqb c sep then EmptyString :: split sep s'
      else match split sep s' with
           | [] => [String c EmptyString]
           | w :: ws => String c w :: ws
           end
  end.

(** [sep.join(pieces)] *)
Fixpoint join (sep : ascii) (pieces : list string) : string :=
  match pieces with
  | [] => EmptyString
  | [p] => p
  | p :: ps => p ++ String sep (join sep ps)
  end.

(** Whitespace for [int]: tab, LF, VT, FF, CR and the space, and beyond
    ASCII the next-line character 0x85 and the no-break space 0xa0.  The
    separators 28..31, which [str.strip] removes, are no whitespace for
    [int]. *)
Definition is_space (c : ascii) : bool :=
  let n := N_of_ascii c in
  ((9 <=? n) && (n <=? 13) || (n =? 32) || (n =? 133) || (n =? 160))%N.

Definition is_digit (c : ascii) : bool :=
  let n := N_of_ascii c in ((48 <=? n) && (n <=? 57))%N.

Definition digit_value (c : ascii) : Z := Z.of_N (N_of_ascii c) - 48.

Fixpoint lstrip (s : string) : string :=
  match s with
  | String c s' => if is_space c then lstrip s' else s
  | EmptyString => EmptyString
  end.

(** [c in s] *)
Fixpoint contains (c : ascii) (s : string) : bool :=
  match s with
  | EmptyString => false
  | String d s' => Ascii.eqb d c || contains c s'
  end.

Definition quote1 : ascii := "'"%char.
Definition quote2 : ascii := ascii_of_nat 34.
Definition backslash : ascii := ascii_of_nat 92.

Definition hex_digit (n : N) : ascii :=
  if (n <? 10)%N then ascii_of_N (48 + n) else ascii_of_N (87 + n).

(** A character that [repr] writes as it is. *)
Definition is_printable (c : ascii) : bool :=
  let n := N_of_ascii c in
  ((32 <=? n) && (n <? 127) || (161 <=? n) && negb (n =? 173))%N.

(** One character of [repr(s)] within the quote [q]. *)
Definition repr_char (q c : ascii) : string :=
  let n := N_of_ascii c in
  if Ascii.eqb c q || Ascii.eqb c backslash then String backslash (String c "")
  else if (n =? 9)%N then String backslash "t"
  else if (n =? 10)%N then String backslash "n"
  else if (n =? 13)%N then String backslash "r"
  else if is_printable c then String c ""
  else String backslash (String "x" (String (hex_digit (n / 16)) (String (hex_digit (n mod 16)) ""))).

Fixpoint repr_body (q : ascii) (s : string) : string :=
  match s with
  | EmptyString => String q ""
  | String c s' => repr_char q c ++ repr_body q s'
  end.

(** [repr(s)]: in single quotes, or in double quotes when [s] has a single
    quote and no double quote. *)
Definition repr (s : string) : string :=
  let q := if contains quote1 s && negb (contains quote2 s) then quote2 else quote1 in
  String q (repr_body q s).

(** The message of the [ValueError] of [int] on [s]: the [repr] is cut
    after 200 characters. *)
Definition invalid_literal (s : string) : string :=
  "invalid literal for int() with base 10: " ++ substring 0 200 (repr s).

Definition too_many_digits (n : Z) : string :=
  "Exceeds the limit (4300 digits) for integer string conversion: value has "
    ++ str_of_int n
    ++ " digits; use sys.set_int_max_str_digits() to increase the limit".

(** The run of digits and underscores at the head of [s]: its value, the
    number of its digits and what follows it.  An underscore stands
    between two digits only; [after_underscore] is set at the start and
    after an underscore. *)
Fixpoint scan (acc ndigits : Z) (after_underscore : bool) (s : string)
    : option (Z * Z * string) :=
  match s with
  | String c s' =>
      if is_digit c then scan (10 * acc + digit_value c) (ndigits + 1) false s'
      else if Ascii.eqb c "_"%char then
        (if after_underscore then None else scan acc ndigits true s')
      else if after_underscore then None else Some (acc, ndigits, s)
  | EmptyString => if after_underscore then None else Some (acc, ndigits, EmptyString)
  end.

(** [int(s)] in base 10: whitespace, an optional sign, the digits, and
    whitespace again; more than 4300 digits are refused. *)
Definition int (s : string) : result Z :=
  let t := lstrip s in
  let signed :=
    match t with
    | String "+"%char r => (false, r)
    | String "-"%char r => (true, r)
    | _ => (false, t)
    end in
  match scan 0 0 true (snd signed) with
  | None => Raise (ValueError (invalid_literal s))
  | Some (value, ndigits, rest) =>
      if 4300 <? ndigits then Raise (ValueError (too_many_digits ndigits))
      else
        match lstrip rest with
        | EmptyString => Ok (if fst signed then - value else value)
        | String _ _ => Raise (ValueError (invalid_literal s))
        end
  end.

(** [int(s)] when it returns. *)
Definition parse_int (s : string) : option Z :=
  match int s with
  | Ok z => Some z
  | Raise _ => None
  end.

(** [bytes.decode('ascii')]: every byte must be below 128. *)
Fixpoint is_ascii (s : string) : bool :=
  match s with
  | EmptyString => true
  | String c s' => (N_of_ascii c <? 128)%N && is_ascii s'
  end.

Definition decode_ascii (raw : string) : result string :=
  if is_ascii raw then Ok raw else Raise UnicodeDecodeError.

End PyStr.

(** ** Numbers *)

(** [float(n)]: the binary64 value nearest to the integer [n] (ties to
    even).  Python raises [OverflowError] from 2^1024 on, where this
    conversion gives infinity; no modelled call comes near. *)
Definition float_of_int (n : Z) : float :=
  SF2Prim (binary_normalize prec emax n 0 false).

(** [max_match_rounds(width, height)]: [math.sqrt(width * height) * 10.0],
    exact for [0 <= width * height < 2^1023].  The rounds of [run_rounds]
    have [height = width], so the product is never negative (where
    [math.sqrt] raises [ValueError] and [sqrt] gives NaN). *)
Definition max_match_rounds (width height : Z) : float :=
  (sqrt (float_of_int (width * height)) * 10)%float.

(** ** Players *)

Module Player.

Record t : Type := mk {
  name : string;
  path : string;
  last_seen : string;
  rank : Z;
  skill : float;
  mu : float;
  sigma : float;
  ngames : Z;
  active : Z
}.

(** [Player(name, path)] with the constructor's defaults. *)
Definition init (name path : string) : t :=
  mk name path "" 1000 0%float 50%float (50 / 3)%float 0 1.

Definition set_rating (self : t) (mean stdev : float) : t :=
  mk (name self) (path self) (last_seen self) (rank self) (skill self)
     mean stdev (ngames self) (active self).

(** [update_skill]: [self.skill = self.mu - (self.sigma * 3)] *)
Definition update_skill (self : t) : t :=
  mk (name self) (path self) (last_seen self) (rank self)
     (mu self - sigma self * 3)%float
     (mu self) (sigma self) (ngames self) (active self).

End Player.

(** A posterior rating of the rating engine: [mean] and [stdev]. *)
Record GaussianRating : Type := { mean : float; stdev : float }.

(** A team of the rating engine: a dictionary from player name to rating. *)
Definition Team : Type := list (string * GaussianRating).

(** What became of the engine process: it ran to its end within the time
    limit, or outlived it ([communicate] raises [TimeoutExpired]), or
    could not be started ([Popen] raises, an [OSError] for a missing
    binary), or the wait failed otherwise ([communicate] raises something
    else, as [OverflowError] for a timeout that is too large). *)
Inductive engine_outcome : Type :=
| Completed (stdout : string) (returncode : Z)
| Expired
| SpawnFailed (e : exn)
| WaitFailed (e : exn).

(** What the manager asks of the operating system about the engine
    process.  [Kill] is what [Popen.kill] would record. *)
Inductive os_event : Type :=
| Spawn (command : list string)
| Communicate (timeout : float)
| Kill.

(** The collaborators outside the file: the game engine behind [Popen] and
    [communicate], the [skills] package, and the file system operations
    that archive or delete a replay. *)
Record Env : Type := {
  halite : list string -> float -> engine_outcome;
  new_ratings : list Team -> list Z -> result (list Team);
  dispose_replay : bool -> string -> result unit
}.

(** Player objects live in the manager's [players] list; a match holds
    references to them, which are positions in that list. *)
Definition heap : Type := list Player.t.

(** [update_player_skill(players, player_name, skill_data)]: the first
    referenced player of that name gets the new rating and skill. *)
Fixpoint update_player_skill (h : heap) (players : list nat)
    (player_name : string) (skill_data : GaussianRating) : heap :=
  match players with
  | [] => h
  | r :: rest =>
      match h !! r with
      | Some player =>
          if String.eqb (Player.name player) player_name then
            <[r := Player.update_skill
                     (Player.set_rating player (mean skill_data) (stdev skill_data))]> h
          else update_player_skill h rest player_name skill_data
      | None => update_player_skill h rest player_name skill_data
      end
  end.

Definition team_of (h : heap) (r : nat) : Team :=
  match h !! r with
  | Some player =>
      [(Player.name player,
        {| mean := Player.mu player; stdev := Player.sigma player |})]
  | None => []
  end.

(** The two nested loops at the end of [update_ranks]. *)
Definition apply_updated (players : list nat) (updated : list Team) (h : heap) : heap :=
  fold_left
    (fun h0 team =>
       fold_left (fun h1 entry => update_player_skill h1 players (fst entry) (snd entry))
                 team h0)
    updated h.

(** [update_ranks(players, ranks)] *)
Definition update_ranks (env : Env) (h : heap) (players : list nat) (ranks : list Z)
    : result heap :=
  let teams := map (team_of h) players in
  let? updated := new_ratings env teams ranks in
  Ok (apply_updated players updated h).

(** ** Matches *)

Module Match.

Record t : Type := mk {
  map_seed : Z;
  width : Z;
  height : Z;
  players : list nat;
  paths : list string;
  finished : bool;
  results : list Z;
  return_code : option Z;
  results_string : string;
  replay_file : string;
  total_time_limit : float;
  timeouts : list string;
  num_players : Z;
  keep_replay : bool
}.

Definition path_of (h : heap) (r : nat) : string :=
  match h !! r with Some player => Player.path player | None => "" end.

(** [Match(players, width, height, seed, time_limit, keep_replays)] *)
Definition init (h : heap) (players : list nat) (width height seed : Z)
    (time_limit : float) (keep_replays : bool) : t :=
  mk seed width height players (map (path_of h) players) false
     (map (fun _ => 0) players) None "" "" time_limit []
     (Z.of_nat (length players)) keep_replays.

Definition set_results (self : t) (v : list Z) : t :=
  mk (map_seed self) (width self) (height self) (players self) (paths self)
     (finished self) v (return_code self) (results_string self)
     (replay_file self) (total_time_limit self) (timeouts self)
     (num_players self) (keep_replay self).

Definition set_replay_file (self : t) (v : string) : t :=
  mk (map_seed self) (width self) (height self) (players self) (paths self)
     (finished self) (results self) (return_code self) (results_string self)
     v (total_time_limit self) (timeouts self)
     (num_players self) (keep_replay self).

Definition set_timeouts (self : t) (v : list string) : t :=
  mk (map_seed self) (width self) (height self) (players self) (paths self)
     (finished self) (results self) (return_code self) (results_string self)
     (replay_file self) (total_time_limit self) v
     (num_players self) (keep_replay self).

Definition set_results_string (self : t) (v : string) : t :=
  mk (map_seed self) (width self) (height self) (players self) (paths self)
     (finished self) (results self) (return_code self) v
     (replay_file self) (total_time_limit self) (timeouts self)
     (num_players self) (keep_replay self).

Definition set_return_code (self : t) (v : option Z) : t :=
  mk (map_seed self) (width self) (height self) (players self) (paths self)
     (finished self) (results self) v (results_string self)
     (replay_file self) (total_time_limit self) (timeouts self)
     (num_players self) (keep_replay self).

(** [get_command] *)
Definition get_command (self : t) (halite_binary : string) : list string :=
  let dims := "-d " ++ str_of_int (width self) ++ " " ++ str_of_int (height self) in
  let quiet := "-q" in
  let seed := "-s " ++ str_of_int (map_seed self) in
  [halite_binary; dims; quiet; seed] ++ paths self.

(** The branch of [parse_results_string] for a rank line:
    [token = line.split(" ")], [rank = int(token[0])],
    [player = int(token[1]) - 1], [self.results[player] = rank]. *)
Definition parse_rank_line (results : list Z) (line : string) : result (list Z) :=
  let token := PyStr.split PyStr.space line in
  let? t0 := PyList.getitem token 0 in
  let? rank := PyStr.int t0 in
  let? t1 := PyList.getitem token 1 in
  let? index := PyStr.int t1 in
  let player := index - 1 in
  PyList.setitem results player rank.

(** The body of the loop of [parse_results_string] at line number [count]. *)
Definition parse_line (self : t) (count : Z) (line : string) : result t :=
  if count =? num_players self then
    let? file := PyList.getitem (PyStr.split PyStr.space line) 0 in
    Ok (set_replay_file self file)
  else if count =? num_players self * 2 + 1 then
    Ok (set_timeouts self (PyStr.split PyStr.space line))
  else if count <? num_players self then
    Ok self
  else if count <? num_players self * 2 + 1 then
    let? results' := parse_rank_line (results self) line in
    Ok (set_results self results')
  else Ok self.

(** The [for line in lines] loop.  The match object is mutated in place,
    so an exception leaves it as the lines before had made it. *)
Fixpoint parse_lines (self : t) (count : Z) (lines : list string) : result unit * t :=
  match lines with
  | [] => (Ok tt, self)
  | line :: rest =>
      match parse_line self count line with
      | Ok self' => parse_lines self' (count + 1) rest
      | Raise e => (Raise e, self)
      end
  end.

(** [parse_results_string] *)
Definition parse_results_string (self : t) : result unit * t :=
  let lines := PyStr.split PyStr.newline (results_string self) in
  if Z.of_nat (length lines) <? 2 + 2 * num_players self then
    (Raise (ValueError "Not enough lines in match output"), self)
  else parse_lines self 0 lines.

(** What a call of [run_match] leaves: its outcome, the match object, the
    player objects and the requests made about the engine process. *)
Record run : Type := {
  outcome : result unit;
  match_after : t;
  players_after : heap;
  events : list os_event
}.

(** [run_match(halite_binary)] *)
Definition run_match (env : Env) (self : t) (halite_binary : string) (h : heap) : run :=
  let command := get_command self halite_binary in
  let evs := [Spawn command; Communicate (total_time_limit self)] in
  match halite env command (total_time_limit self) with
  | SpawnFailed e => Build_run (Raise e) self h [Spawn command]
  | WaitFailed e => Build_run (Raise e) self h evs
  | Expired => Build_run (Raise TimeoutExpired) self h evs
  | Completed raw code =>
      match PyStr.decode_ascii raw with
      | Raise e => Build_run (Raise e) self h evs
      | Ok text =>
          let self1 := set_return_code (set_results_string self text) (Some code) in
          match parse_results_string self1 with
          | (Raise e, self2) => Build_run (Raise e) self2 h evs
          | (Ok _, self2) =>
              match update_ranks env h (players self2) (results self2) with
              | Raise e => Build_run (Raise e) self2 h evs
              | Ok h' =>
                  Build_run (dispose_replay env (keep_replay self2) (replay_file self2))
                            self2 h' evs
              end
          end
      end
  end.

End Match.

(** ** The player table *)

Module Database.

(** A row of [players]: id, name (unique), path, lastseen, rank, skill,
    mu, sigma, ngames, active. *)
Record row : Type := mk_row {
  id : Z;
  name : string;
  path : string;
  lastseen : string;
  rank : Z;
  skill : float;
  mu : float;
  sigma : float;
  ngames : Z;
  active : Z
}.

(** The table in rowid order, and the largest id handed out so far
    ([autoincrement]). *)
Record t : Type := mk {
  rows : list row;
  last_id : Z
}.

Definition has_name (n : string) (r : row) : bool := String.eqb (name r) n.

(** [get_player(names)]: [select * from players where name=? or name=? ...] *)
Definition get_player (self : t) (names : list string) : list row :=
  List.filter (fun r => existsb (fun n => has_name n r) names) (rows self).

(** [add_player(name, path)]: the insert; the [unique] constraint on
    [name] makes SQLite refuse a second row of the same name. *)
Definition add_player (self : t) (now : string) (name path : string) : result t :=
  if existsb (has_name name) (rows self) then Raise IntegrityError
  else
    let new_id := last_id self + 1 in
    Ok (mk (rows self ++
              [mk_row new_id name path now 1000 0%float 50%float (50 / 3)%float 0 1])
           new_id).

(** [delete_player(name)] *)
Definition delete_player (self : t) (n : string) : t :=
  mk (List.filter (fun r => negb (has_name n r)) (rows self)) (last_id self).

(** The row after [set ngames=ngames+1, lastseen=?, skill=?, mu=?, sigma=?].
    The reals are kept as they are bound; SQLite stores a NaN as NULL and
    -0.0 as 0.0, so the row is what a later select returns when the
    three are numbers other than -0.0. *)
Definition set_skill (now : string) (skill mu sigma : float) (r : row) : row :=
  mk_row (id r) (name r) (path r) now (rank r) skill mu sigma (ngames r + 1) (active r).

Definition set_rank (v : Z) (r : row) : row :=
  mk_row (id r) (name r) (path r) (lastseen r) v (skill r) (mu r) (sigma r)
         (ngames r) (active r).

Definition set_active (v : Z) (r : row) : row :=
  mk_row (id r) (name r) (path r) (lastseen r) (rank r) (skill r) (mu r) (sigma r)
         (ngames r) v.

(** [update ... where name=?]: the rows of that name are rewritten. *)
Definition update_where (n : string) (f : row -> row) (self : t) : t :=
  mk (map (fun r => if has_name n r then f r else r) (rows self)) (last_id self).

(** [update_player_skill(name, skill, mu, sigma)]:
    [set ngames=ngames+1, lastseen=?, skill=?, mu=?, sigma=? where name=?] *)
Definition update_player_skill (self : t) (now : string) (n : string)
    (skill mu sigma : float) : t :=
  update_where n (set_skill now skill mu sigma) self.

(** [save_player(player)] *)
Definition save_player (self : t) (now : string) (player : Player.t) : t :=
  update_player_skill self now (Player.name player) (Player.skill player)
                      (Player.mu player) (Player.sigma player).

(** [update_player_rank(name, rank)] *)
Definition update_player_rank (self : t) (n : string) (v : Z) : t :=
  update_where n (set_rank v) self.

(** [activate_player], [deactivate_player] *)
Definition activate_player (self : t) (n : string) : t :=
  update_where n (set_active 1) self.

Definition deactivate_player (self : t) (n : string) : t :=
  update_where n (set_active 0) self.

(** The order of SQLite on a [real] column: a NaN is stored as NULL, which
    sorts below every number; numbers compare as binary64 values. *)
Definition sql_lt (a b : float) : bool :=
  if is_nan a then negb (is_nan b) else (a <? b)%float.

(** [order by skill desc], as a stable insertion sort: a row goes before
    the first row of smaller skill, so rows of equal skill stay in table
    order (SQLite leaves the order among equal keys open). *)
Fixpoint insert_desc (r : row) (sorted : list row) : list row :=
  match sorted with
  | [] => [r]
  | x :: rest =>
      if sql_lt (skill x) (skill r) then r :: sorted
      else x :: insert_desc r rest
  end.

Definition order_by_skill_desc (rs : list row) : list row :=
  fold_left (fun acc r => insert_desc r acc) rs [].

(** [select name from players order by skill desc] *)
Definition names_by_skill_desc (self : t) : list string :=
  map name (order_by_skill_desc (rows self)).

(** [select * from players where active > 0] *)
Definition active_players (self : t) : list row :=
  List.filter (fun r => 0 <? active r) (rows self).

(** The loop of [update_player_ranks] over [enumerate(...)], from index [i]. *)
Fixpoint assign_ranks (self : t) (i : Z) (names : list string) : t :=
  match names with
  | [] => self
  | n :: rest => assign_ranks (update_player_rank self n (i + 1)) (i + 1) rest
  end.

(** [update_player_ranks] *)
Definition update_player_ranks (self : t) : t :=
  assign_ranks self 0 (names_by_skill_desc self).

End Database.

(** [parse_player_record].  (A NULL rating would be loaded as [None];
    the model has the rows whose ratings are numbers.) *)
Definition parse_player_record (r : Database.row) : Player.t :=
  Player.mk (Database.name r) (Database.path r) (Database.lastseen r)
            (Database.rank r) (Database.skill r) (Database.mu r)
            (Database.sigma r) (Database.ngames r) (Database.active r).

(** ** Finite binary64 arithmetic on integers

    [size / 5] divides two Python integers: CPython computes the quotient
    in integer arithmetic, correctly rounded to 53 bits (ties to even), and
    [random.randint] then adds [1] to a float.  Both results are finite,
    and a finite binary64 value is a dyadic number [man * 2^exp]; an
    operation is the exact operation followed by rounding. *)

Module PyFloat.

Record t : Type := mk { man : Z; exp : Z }.

(** [a / b] rounded to the nearest integer, ties to even ([0 <= a], [0 < b]). *)
Definition div_rne (a b : Z) : Z :=
  let q := a / b in
  let r := a mod b in
  if 2 * r <? b then q
  else if b <? 2 * r then q + 1
  else if Z.even q then q else q + 1.

(** The binade of [p / q] for [0 < p], [0 < q]: the [E] with
    [2^E <= p / q < 2^(E+1)]. *)
Definition floor_log2 (p q : Z) : Z :=
  if q <=? p then Z.log2 (p / q)
  else - Z.log2_up ((q + p - 1) / p).

(** [p / q] rounded to binary64 ([0 < q]): 53 significant bits, and no
    exponent below the subnormal one. *)
Definition round (p q : Z) : t :=
  if p =? 0 then mk 0 0
  else
    let a := Z.abs p in
    let e := Z.max (floor_log2 a q - 52) (-1074) in
    let m := if 0 <=? e then div_rne a (q * 2 ^ e) else div_rne (a * 2 ^ (- e)) q in
    mk (Z.sgn p * m) e.

Definition overflows (x : t) : bool :=
  (0 <=? exp x) && (2 ^ 1024 <=? Z.abs (man x) * 2 ^ exp x).

(** [a / b] for integers [a] and [b]. *)
Definition truediv (a b : Z) : result t :=
  if b =? 0 then Raise ZeroDivisionError
  else
    let x := round (a * Z.sgn b) (Z.abs b) in
    if overflows x then Raise OverflowError else Ok x.

(** [x + 1] *)
Definition add_one (x : t) : t :=
  if 0 <=? exp x then round (man x * 2 ^ exp x + 1) 1
  else round (man x + 2 ^ (- exp x)) (2 ^ (- exp x)).

(** [int(x) == x] *)
Definition is_integer (x : t) : bool :=
  (0 <=? exp x) || (man x mod 2 ^ (- exp x) =? 0).

(** [int(x)]: truncation towards zero. *)
Definition to_int (x : t) : Z :=
  if 0 <=? exp x then man x * 2 ^ exp x
  else Z.quot (man x) (2 ^ (- exp x)).

End PyFloat.

(** A Python number as [random.randint] may receive it. *)
Inductive number : Type :=
| Int (z : Z)
| Float (x : PyFloat.t).

(** ** The random module

    The generator is a tape of draws and a read position: the tape
    stands for what [_randbelow] returns, call after call.  A draw below
    [n] is what [_randbelow(n)] returns; the reduction modulo [n] makes
    the function total on any tape (the library draws again instead), so
    every value below [n] can come out and no other, and what is said of
    chances is said of the draws below [n].  The checks are those of
    [randrange] as it stood
    while floats were accepted (Python 3.5 to 3.11): an argument must equal
    its integer part. *)

Module Random.

Record t : Type := mk { tape : nat -> Z; pos : nat }.

Definition randbelow (g : t) (n : Z) : Z * t :=
  (tape g (pos g) mod n, mk (tape g) (S (pos g))).

(** [istart = int(start)] and the test [istart != start]. *)
Definition integral (x : number) : option Z :=
  match x with
  | Int z => Some z
  | Float f => if PyFloat.is_integer f then Some (PyFloat.to_int f) else None
  end.

(** [randrange(start, stop)] *)
Definition randrange (g : t) (start stop : number) : result Z * t :=
  match integral start with
  | None => (Raise (ValueError "non-integer arg 1 for randrange()"), g)
  | Some istart =>
      match integral stop with
      | None => (Raise (ValueError "non-integer stop for randrange()"), g)
      | Some istop =>
          let width := istop - istart in
          if 0 <? width then
            let (r, g') := randbelow g width in (Ok (istart + r), g')
          else (Raise (ValueError "empty range for randrange()"), g)
      end
  end.

Definition plus_one (b : number) : number :=
  match b with
  | Int z => Int (z + 1)
  | Float f => Float (PyFloat.add_one f)
  end.

(** [randint(a, b)]: [randrange(a, b+1)] *)
Definition randint (g : t) (a b : number) : result Z * t :=
  randrange g a (plus_one b).

End Random.

(** ** The manager *)

Module Manager.

Record t : Type := mk {
  halite_binary : string;
  players : heap;
  size_min : Z;
  size_max : Z;
  players_min : Z;
  players_max : Z;
  rounds : Z;
  round_count : Z;
  keep_replays : bool;
  db : Database.t
}.

(** [Manager(halite_binary, players, size_min, size_max, players_min,
    players_max, rounds)] over the table that [Database()] opens;
    [players] is [None] until [run_matches] fills it. *)
Definition init (halite_binary : string) (size_min size_max players_min players_max : Z)
    (rounds : Z) (store : Database.t) : t :=
  mk halite_binary [] size_min size_max players_min players_max rounds 0 true store.

(** [Manager(halite_binary)], as [Commandline] builds it: the defaults
    [size_min=20], [size_max=50], [players_min=2], [players_max=6],
    [rounds=-1]. *)
Definition default (halite_binary : string) (store : Database.t) : t :=
  init halite_binary 20 50 2 6 (-1) store.

(** The state that the manager's methods work on: the manager object, the
    random generator, the requests made about engine processes, the
    refusal notices printed (of the console output only these are kept:
    they are the one signal of a refused command), and the number of
    clock readings made so far. *)
Record world : Type := mk_world {
  mgr : t;
  rng : Random.t;
  log : list os_event;
  notices : list string;
  reads : nat
}.

Definition set_mgr (w : world) (v : t) : world :=
  mk_world v (rng w) (log w) (notices w) (reads w).

Definition set_players (self : t) (v : heap) : t :=
  mk (halite_binary self) v (size_min self) (size_max self) (players_min self)
     (players_max self) (rounds self) (round_count self) (keep_replays self) (db self).

Definition set_db (self : t) (v : Database.t) : t :=
  mk (halite_binary self) (players self) (size_min self) (size_max self)
     (players_min self) (players_max self) (rounds self) (round_count self)
     (keep_replays self) v.

Definition set_rounds (self : t) (v : Z) : t :=
  mk (halite_binary self) (players self) (size_min self) (size_max self)
     (players_min self) (players_max self) v (round_count self)
     (keep_replays self) (db self).

Definition set_round_count (self : t) (v : Z) : t :=
  mk (halite_binary self) (players self) (size_min self) (size_max self)
     (players_min self) (players_max self) (rounds self) v
     (keep_replays self) (db self).

(** A method: it runs on a world and returns or raises, leaving a world. *)
Definition M (A : Type) : Type := world -> result A * world.

Definition ret {A} (a : A) : M A := fun w => (Ok a, w).

Definition raise {A} (e : exn) : M A := fun w => (Raise e, w).

Definition bind {A B} (c : M A) (k : A -> M B) : M B :=
  fun w =>
    match c w with
    | (Ok a, w') => k a w'
    | (Raise e, w') => (Raise e, w')
    end.

Notation "x <- c ;; k" := (bind c (fun x => k))
  (at level 100, c at next level, right associativity).

Definition lift {A} (r : result A) : M A := fun w => (r, w).

(** [random.randint(a, b)] on the world's generator. *)
Definition randint (a b : number) : M Z :=
  fun w =>
    let (r, g) := Random.randint (rng w) a b in
    (r, mk_world (mgr w) g (log w) (notices w) (reads w)).

(** [self.db.now()]: the next reading of the clock. *)
Definition now (clock : nat -> string) : M string :=
  fun w => (Ok (clock (reads w)),
            mk_world (mgr w) (rng w) (log w) (notices w) (S (reads w))).

(** [[self.players[i] for i in players]]: references to player objects. *)
Fixpoint refs_of (len : nat) (indices : list Z) : result (list nat) :=
  match indices with
  | [] => Ok []
  | i :: rest =>
      match PyList.norm_index len i with
      | None => Raise IndexError
      | Some r => let? rs := refs_of len rest in Ok (r :: rs)
      end
  end.

(** [save_players(players)].  Each save is a statement committed on its
    own; the model has the runs in which SQLite executes them (an
    [sqlite3.Error] of a statement is not modelled). *)
Fixpoint save_players (clock : nat -> string) (o_players : list nat) : M unit :=
  match o_players with
  | [] => ret tt
  | r :: rest =>
      fun w =>
        match players (mgr w) !! r with
        | Some player =>
            save_players clock rest
              (mk_world
                 (set_db (mgr w) (Database.save_player (db (mgr w)) (clock (reads w)) player))
                 (rng w) (log w) (notices w) (S (reads w)))
        | None => save_players clock rest w
        end
  end.

(** The match of a round: [Match(o_players, width, height, seed,
    2 * len(players) * max_match_rounds(width, height), self.keep_replays)] *)
Definition new_match (self : t) (o_players : list nat) (indices : list Z)
    (width height seed : Z) : Match.t :=
  let limit :=
    (float_of_int (2 * Z.of_nat (length indices)) * max_match_rounds width height)%float in
  Match.init (players self) o_players width height seed limit (keep_replays self).

(** [run_round(players, width, height, seed)] *)
Definition run_round (env : Env) (clock : nat -> string)
    (indices : list Z) (width height seed : Z) : M unit :=
  fun w =>
    let self := mgr w in
    match refs_of (length (players self)) indices with
    | Raise e => (Raise e, w)
    | Ok o_players =>
        let m := new_match self o_players indices width height seed in
        let r := Match.run_match env m (halite_binary self) (players self) in
        let w1 := mk_world (set_players self (Match.players_after r)) (rng w)
                           (log w ++ Match.events r) (notices w) (reads w) in
        match Match.outcome r with
        | Raise e => (Raise e, w1)
        | Ok _ =>
            match save_players clock o_players w1 with
            | (Raise e, w2) => (Raise e, w2)
            | (Ok _, w2) =>
                (Ok tt, set_mgr w2 (set_db (mgr w2) (Database.update_player_ranks (db (mgr w2)))))
            end
        end
    end.

(** The loop of [pick_players]: [fuel] iterations are left. *)
Fixpoint pick_loop (fuel : nat) (open_set chosen_so_far : list Z) : M (list Z) :=
  match fuel with
  | O => ret chosen_so_far
  | S fuel' =>
      i <- randint (Int 0) (Int (Z.of_nat (length open_set) - 1)) ;;
      chosen <- lift (PyList.getitem open_set i) ;;
      open_set' <- lift (PyList.remove chosen open_set) ;;
      pick_loop fuel' open_set' (chosen_so_far ++ [chosen])
  end.

(** [pick_players(num)]: the loop runs while [count < num], [num] times
    for a positive [num] and not at all otherwise. *)
Definition pick_players (num : Z) : M (list Z) :=
  fun w =>
    let open_set := map Z.of_nat (seq 0 (length (players (mgr w)))) in
    pick_loop (Z.to_nat num) open_set [] w.

(** The number of participants of a round:
    [random.randint(2, min(self.players_max, len(self.players)))] *)
Definition pick_count : M Z :=
  fun w =>
    randint (Int 2)
            (Int (Z.min (players_max (mgr w)) (Z.of_nat (length (players (mgr w)))))) w.

(** The board of a round:
    [size_w = random.randint((self.size_min / 5), (self.size_max / 5)) * 5]
    and [size_h = size_w]. *)
Definition pick_size : M (Z * Z) :=
  fun w =>
    (lo <- lift (PyFloat.truediv (size_min (mgr w)) 5) ;;
     hi <- lift (PyFloat.truediv (size_max (mgr w)) 5) ;;
     k <- randint (Float lo) (Float hi) ;;
     let size_w := k * 5 in
     let size_h := size_w in
     ret (size_w, size_h)) w.

(** One turn of the loop of [run_rounds]. *)
Definition run_rounds_body (env : Env) (clock : nat -> string) : M unit :=
  num_players <- pick_count ;;
  chosen <- pick_players num_players ;;
  size <- pick_size ;;
  seed <- randint (Int 10000) (Int 2073741824) ;;
  _ <- run_round env clock chosen (fst size) (snd size) seed ;;
  fun w => (Ok tt, set_mgr w (set_round_count (mgr w) (round_count (mgr w) + 1))).

(** [run_rounds]: [while (self.rounds < 0) or (self.round_count < self.rounds)].
    With [rounds < 0] the loop has no end of its own; [fuel] bounds the
    turns that are followed. *)
Fixpoint run_rounds (env : Env) (clock : nat -> string) (fuel : nat) : M unit :=
  match fuel with
  | O => ret tt
  | S fuel' =>
      fun w =>
        if (rounds (mgr w) <? 0) || (round_count (mgr w) <? rounds (mgr w)) then
          (_ <- run_rounds_body env clock ;; run_rounds env clock fuel') w
        else (Ok tt, w)
  end.

(** [add_player(name, path)] *)
Definition add_player (clock : nat -> string) (name path : string) : M unit :=
  fun w =>
    let p := Database.get_player (db (mgr w)) [name] in
    if Z.of_nat (length p) =? 0 then
      (stamp <- now clock ;;
       fun w' =>
         match Database.add_player (db (mgr w')) stamp name path with
         | Ok store => (Ok tt, set_mgr w' (set_db (mgr w') store))
         | Raise e => (Raise e, w')
         end) w
    else
      (Ok tt, mk_world (mgr w) (rng w) (log w)
                       (notices w ++ ["Bot name " ++ name ++ " already used, no bot added"])
                       (reads w)).

(** [Commandline.run_matches(rounds)] *)
Definition run_matches (env : Env) (clock : nat -> string) (fuel : nat) (n_rounds : Z)
    : M unit :=
  fun w =>
    let records := Database.active_players (db (mgr w)) in
    let active := map parse_player_record records in
    if Z.of_nat (length active) <? 2 then
      (Ok tt, mk_world (mgr w) (rng w) (log w)
                (notices w ++
                   ["Not enough players for a game. Need at least "
                      ++ str_of_int (players_min (mgr w)) ++ ", only have "
                      ++ str_of_int (Z.of_nat (length active));
                    "use the -h flag to get help"])
                (reads w))
    else
      run_rounds env clock fuel
        (set_mgr w (set_rounds (set_players (mgr w) active) n_rounds)).

End Manager.

(** * Definitions for the statements

    What the statements need besides the code: the failure classes and
    the line protocol in the words of the specification, the order of
    SQLite written out on binary64 values, the closed form of the rank
    loop, and a small store to run the code on. *)

(** ** Texts *)

(** [c in s] *)
Fixpoint has_char (c : ascii) (s : string) : bool :=
  match s with
  | EmptyString => false
  | String d s' => Ascii.eqb d c || has_char c s'
  end.

(** The one-character string of a line feed. *)
Definition nl : string := String PyStr.newline "".

(** The engine output of the specification's example: two header lines,
    the replay line, the two rank lines and the timeout line, then
    [tail]. *)
Definition example_output (header1 header2 tail : string) : string :=
  header1 ++ nl ++ header2 ++ nl ++ "replay123.hlt extra" ++ nl
    ++ "1 1" ++ nl ++ "2 2" ++ nl ++ "0 0" ++ tail.

(** ** Rank lines *)

(** The exception that [int] raises on the rank token of a rank line,
    or on its index token when the rank token is read. *)
Definition token_error (line : string) : option exn :=
  match PyStr.split PyStr.space line with
  | t0 :: rest =>
      match PyStr.int t0 with
      | Raise e => Some e
      | Ok _ =>
          match rest with
          | t1 :: _ => match PyStr.int t1 with Raise e => Some e | Ok _ => None end
          | [] => None
          end
      end
  | [] => None
  end.

(** A rank line that the parser takes, for [len] participants. *)
Definition rank_line_ok (len : nat) (line : string) : bool :=
  is_ok (Match.parse_rank_line (repeat 0 len) line).

(** ** The line protocol, in the words of the specification

    For [n] participants: exactly [n] header lines, one replay line, [n]
    lines [<rank> <participantIndex>] with a 1-based index, each
    participant named once, and one line of [n] timeout markers; a final
    line feed may close the text. *)

(** The participant index of a rank line that follows the protocol. *)
Definition protocol_rank_index (n : Z) (line : string) : option Z :=
  match PyStr.split PyStr.space line with
  | [t0; t1] =>
      match PyStr.parse_int t0, PyStr.parse_int t1 with
      | Some _, Some i => if (1 <=? i) && (i <=? n) then Some i else None
      | _, _ => None
      end
  | _ => None
  end.

Fixpoint distinct (l : list Z) : bool :=
  match l with
  | [] => true
  | x :: l' => negb (existsb (Z.eqb x) l') && distinct l'
  end.

Definition follows_protocol (n : nat) (text : string) : bool :=
  let pieces := PyStr.split PyStr.newline text in
  let lines :=
    match last pieces with
    | Some "" => take (length pieces - 1) pieces
    | _ => pieces
    end in
  let rank_lines := take n (drop (n + 1) lines) in
  let indices := map (protocol_rank_index (Z.of_nat n)) rank_lines in
  (length lines =? 2 * n + 2)%nat
  && forallb (fun i => match i with Some _ => true | None => false end) indices
  && distinct (omap id indices)
  && match lines !! (2 * n + 1)%nat with
     | Some marks => (length (PyStr.split PyStr.space marks) =? n)%nat
     | None => false
     end.

(** ** The failed matches of the specification *)

Inductive failure : Type :=
| TimedOut
| ProcessError
| ParseError.

(** How the specification classes what the engine did for match [m]:
    [TimedOut] when the engine outlives the time limit, [ProcessError]
    when it exits with a nonzero status and no output, [ParseError] when
    its output is not ASCII or [parse_results_string] raises on it, and no
    failure otherwise; a process that could not be started and a wait
    that fails for another reason than the time limit are none of the
    three. *)
Definition match_failure (env : Env) (m : Match.t) (halite_binary : string)
    : option failure :=
  match halite env (Match.get_command m halite_binary) (Match.total_time_limit m) with
  | Expired => Some TimedOut
  | WaitFailed TimeoutExpired => Some TimedOut
  | SpawnFailed _ | WaitFailed _ => None
  | Completed raw code =>
      if String.eqb raw "" && negb (code =? 0) then Some ProcessError
      else
        match PyStr.decode_ascii raw with
        | Raise _ => Some ParseError
        | Ok text =>
            let m1 := Match.set_return_code (Match.set_results_string m text) (Some code) in
            if is_ok (fst (Match.parse_results_string m1)) then None
            else Some ParseError
        end
  end.

(** ** The order of SQLite, through the components of a binary64 value *)

(** Where a value stands in the order: NaN (NULL) first, then minus
    infinity, the negative numbers, zero, the positive numbers, plus
    infinity; numbers of one sign by exponent, then mantissa. *)
Definition sf_key (x : spec_float) : Z * Z * Z :=
  match x with
  | S754_nan => (0, 0, 0)
  | S754_infinity true => (1, 0, 0)
  | S754_finite true m e => (2, - e, - Z.pos m)
  | S754_zero _ => (3, 0, 0)
  | S754_finite false m e => (4, e, Z.pos m)
  | S754_infinity false => (5, 0, 0)
  end.

(** The order of the keys: by first component, then second, then third. *)
Definition key_lt (a b : Z * Z * Z) : Prop :=
  fst (fst a) < fst (fst b)
  \/ (fst (fst a) = fst (fst b)
      /\ (snd (fst a) < snd (fst b)
          \/ (snd (fst a) = snd (fst b) /\ snd a < snd b))).

(** [Database.sql_lt] on the components of its arguments. *)
Definition sf_sql_lt (x y : spec_float) : bool :=
  if negb (SFeqb x x) then negb (negb (SFeqb y y)) else SFltb x y.

(** [a] may stand before [b] in descending order. *)
Definition not_below (a b : Database.row) : Prop :=
  Database.sql_lt (Database.skill a) (Database.skill b) = false.

(** ** The rank loop in closed form *)

(** The first position of a name in the answer of the query. *)
Fixpoint position (n : string) (names : list string) : option nat :=
  match names with
  | [] => None
  | m :: rest => if String.eqb m n then Some 0%nat else option_map S (position n rest)
  end.

(** What the loop of [update_player_ranks] leaves in each row: the row
    whose name stands at position [k] of the answer gets rank [i + k + 1]. *)
Definition ranked (i : Z) (names : list string) (r : Database.row) : Database.row :=
  match position (Database.name r) names with
  | Some k => Database.set_rank (i + Z.of_nat k + 1) r
  | None => r
  end.

(** ** The participants of a round *)

(** The names of the player objects that a list of references names. *)
Fixpoint names_at (h : heap) (refs : list nat) : list string :=
  match refs with
  | [] => []
  | r :: rest =>
      match h !! r with
      | Some player => Player.name player :: names_at h rest
      | None => names_at h rest
      end
  end.

(** How often a name occurs among the participants. *)
Definition times (n : string) (names : list string) : Z :=
  Z.of_nat (count_occ String.string_dec names n).

(** ** A store of five players and an engine, for concrete runs *)

(** A freshly registered player. *)
Definition demo_row (i : Z) (n : string) : Database.row :=
  Database.mk_row i n ("bots/" ++ n) "" 1000 0%float 50%float (50 / 3)%float 0 1.

Definition demo_db : Database.t :=
  Database.mk [demo_row 1 "a"; demo_row 2 "b"; demo_row 3 "c"; demo_row 4 "d";
               demo_row 5 "e"] 5.

Definition demo_clock : nat -> string := fun _ => "03.11.2016 10:00:00".

(** A manager over [demo_db] with its active players loaded and one round
    to run, as [run_matches(1)] leaves it, and a tape of draws. *)
Definition demo_world (size_min size_max players_min players_max : Z)
    (tape : nat -> Z) : Manager.world :=
  Manager.mk_world
    (Manager.set_players
       (Manager.init "./halite" size_min size_max players_min players_max 1 demo_db)
       (map parse_player_record (Database.active_players demo_db)))
    (Random.mk tape 0) [] [] 0.

(** An engine that always does [out], a rating engine that returns the
    priors, and a file system that never fails. *)
Definition demo_env (out : engine_outcome) : Env :=
  {| halite := fun _ _ => out;
     new_ratings := fun teams _ => Ok teams;
     dispose_replay := fun _ _ => Ok tt |}.

(** ** The output of a match, line by line *)

(** The first token of a line, as [line.split(" ")[0]] reads it. *)
Definition first_token (line : string) : string :=
  match PyStr.split PyStr.space line with
  | t :: _ => t
  | [] => ""
  end.

(** The rank and the participant index that a rank line carries, when its
    first two tokens are integer literals; more tokens may follow. *)
Definition rank_line_pair (line : string) : option (Z * Z) :=
  match PyStr.split PyStr.space line with
  | t0 :: t1 :: _ =>
      match PyStr.parse_int t0, PyStr.parse_int t1 with
      | Some rank, Some index => Some (rank, index)
      | _, _ => None
      end
  | _ => None
  end.

(** The rank lines in turn, on the result vector. *)
Fixpoint rank_lines (results : list Z) (lines : list string) : result (list Z) :=
  match lines with
  | [] => Ok results
  | line :: rest =>
      let? results' := Match.parse_rank_line results line in
      rank_lines results' rest
  end.

(** Writing each rank at its index less one, in turn. *)
Definition write_ranks (pairs : list (Z * Z)) (results : list Z) : list Z :=
  fold_left (fun rs p => <[Z.to_nat (snd p - 1) := fst p]> rs) pairs results.

(** ** The constraints of the player table *)

(** What the schema asks of [players]: [name text unique],
    [id integer primary key autoincrement]: no two rows of one name or of
    one id, and no id above the largest one handed out. *)
Definition well_formed (store : Database.t) : Prop :=
  List.NoDup (map Database.name (Database.rows store))
  /\ List.NoDup (map Database.id (Database.rows store))
  /\ Forall (fun r => Database.id r <= Database.last_id store) (Database.rows store).

(** The row that [add_player] inserts. *)
Definition fresh_row (store : Database.t) (now name path : string) : Database.row :=
  Database.mk_row (Database.last_id store + 1) name path now
                  1000 0%float 50%float (50 / 3)%float 0 1.

(** The names of the table. *)
Definition names_of (store : Database.t) : list string :=
  map Database.name (Database.rows store).

(** ** What a round leaves alone *)

(** A world but for its random generator. *)
Definition but_rng (w : Manager.world)
    : Manager.t * list os_event * list string * nat :=
  (Manager.mgr w, Manager.log w, Manager.notices w, Manager.reads w).

(** The settings of a manager: all but its players, its table and its
    round counter. *)
Definition config (m : Manager.t) : string * Z * Z * Z * Z * Z * bool :=
  (Manager.halite_binary m, Manager.size_min m, Manager.size_max m,
   Manager.players_min m, Manager.players_max m, Manager.rounds m,
   Manager.keep_replays m).

(** The loop of [save_players] on the table and the clock alone: the
    table it leaves and the number of clock readings made. *)
Fixpoint saved (clock : nat -> string) (h : heap) (refs : list nat)
    (store : Database.t) (reads : nat) : Database.t * nat :=
  match refs with
  | [] => (store, reads)
  | r :: rest =>
      match h !! r with
      | Some player =>
          saved clock h rest (Database.save_player store (clock reads) player) (S reads)
      | None => saved clock h rest store reads
      end
  end.

(** ** The skill of a rating *)

(** [skill = mu - sigma * 3], on a player object and in a row. *)
Definition player_consistent (p : Player.t) : Prop :=
  Player.skill p = (Player.mu p - Player.sigma p * 3)%float.

Definition row_consistent (r : Database.row) : Prop :=
  Database.skill r = (Database.mu r - Database.sigma r * 3)%float.

Definition consistent (m : Manager.t) : Prop :=
  Forall player_consistent (Manager.players m)
  /\ Forall row_consistent (Database.rows (Manager.db m)).

(** An engine that always does [out], a rating engine that rates player
    "a" at 30.0 with deviation 2.0 and nobody else, and a file system that
    never fails. *)
Definition demo_env_rated (out : engine_outcome) : Env :=
  {| halite := fun _ _ => out;
     new_ratings := fun _ _ => Ok [[("a", {| mean := 30%float; stdev := 2%float |})]];
     dispose_replay := fun _ _ => Ok tt |}.

(** The same with a file system in which the replay cannot be archived or
    deleted. *)
Definition demo_env_no_disposal (out : engine_outcome) : Env :=
  {| halite := halite (demo_env_rated out);
     new_ratings := new_ratings (demo_env_rated out);
     dispose_replay := fun _ _ => Raise (ExternalError "replay") |}.

(** ** What SQLite stores as written *)

(** A binary64 value that a [real] column gives back as it was written:
    every value but NaN, which SQLite stores as NULL, and -0.0, which it
    stores as 0.0. *)
Definition storable (x : float) : bool :=
  negb (is_nan x) && negb (Leibniz.eqb x neg_zero).

Definition player_storable (p : Player.t) : bool :=
  storable (Player.skill p) && storable (Player.mu p) && storable (Player.sigma p).

Definition row_storable (r : Database.row) : bool :=
  storable (Database.skill r) && storable (Database.mu r) && storable (Database.sigma r).

(** A rating whose mean, deviation and skill are stored as written. *)
Definition rating_storable (d : GaussianRating) : bool :=
  storable (mean d) && storable (stdev d) && storable (mean d - stdev d * 3)%float.

(** A rating engine that returns such ratings only. *)
Definition storable_ratings (env : Env) : Prop :=
  forall teams ranks updated,
    new_ratings env teams ranks = Ok updated ->
    Forall (Forall (fun entry => rating_storable (snd entry) = true)) updated.

(** ** Rows and player objects of one name *)

(** The table and the player objects agree: a row and a player object of
    one name carry the same rating. *)
Definition agree (m : Manager.t) : Prop :=
  forall p r,
    In p (Manager.players m) -> In r (Database.rows (Manager.db m)) ->
    Database.name r = Player.name p ->
    Database.skill r = Player.skill p
    /\ Database.mu r = Player.mu p
    /\ Database.sigma r = Player.sigma p.

(** What is compared of a row when the players named in [L] play: its
    name and its [active] flag, and for a row of another name all its
    columns but the rank. *)
Definition frozen (L : list string) (r : Database.row)
    : string * Z * option Database.row :=
  (Database.name r, Database.active r,
   if existsb (String.eqb (Database.name r)) L then None
   else Some (Database.set_rank 0 r)).

(** ** The board by the draw *)

(** The board that [pick_size] chooses with the settings of [m] when the
    next draw of the generator is [t]. *)
Definition board_of_draw (m : Manager.t) (t : Z) : result (Z * Z) :=
  fst (Manager.pick_size (Manager.mk_world m (Random.mk (fun _ => t) 0) [] [] 0)).

(** A board of [s] by [s]. *)
Definition is_board (s : Z) (r : result (Z * Z)) : bool :=
  match r with
  | Ok (sw, sh) => (sw =? s) && (sh =? s)
  | Raise _ => false
  end.

(** ** The time limit of a match *)

(** The integers below [n]. *)
Definition upto (n : nat) : list Z := map Z.of_nat (seq 0 n).

(** The time limit of [k] participants on a board of side [s] is
    [20 * k * s]. *)
Definition limit_ok (k s : Z) : bool :=
  Leibniz.eqb (float_of_int (2 * k) * max_match_rounds s s)%float
              (float_of_int (20 * k * s)).

(** The command line of a match on a square board: the binary,
    ["-d S S"], ["-q"], ["-s seed"] and the paths of the participants. *)
Definition engine_command (binary : string) (S seed : Z) (paths : list string)
    : list string :=
  binary :: ("-d " ++ str_of_int S ++ " " ++ str_of_int S) :: "-q"
    :: ("-s " ++ str_of_int seed) :: paths.

(** The position that an index of Python denotes in a list of length [n]. *)
Definition position_of (n : nat) (i : Z) : nat :=
  Z.to_nat (if i <? 0 then Z.of_nat n + i else i).

(** ** What a rating update leaves of a player object *)

(** All of a player object but its rating. *)
Definition identity_of (p : Player.t) : string * string * string * Z * Z * Z :=
  (Player.name p, Player.path p, Player.last_seen p, Player.rank p,
   Player.ngames p, Player.active p).

(** * Properties *)

(** ** Strings and lists *)

Lemma split_not_nil (sep : ascii) (s : string) : PyStr.split sep s <> [].
Proof.
  destruct s as [|c s]; simpl; [discriminate|].
  destruct (Ascii.eqb c sep); [discriminate|].
  destruct (PyStr.split sep s); discriminate.
Qed.

Lemma split_cons (sep : ascii) (s : string) :
  exists t ts, PyStr.split sep s = t :: ts.
Proof.
  destruct (PyStr.split sep s) as [|t ts] eqn:E.
  - exfalso. exact (split_not_nil sep s E).
  - eauto.
Qed.

(** A piece without the separator, followed by the separator, is the
    first piece of the split. *)
Lemma split_app (sep : ascii) (piece rest : string) :
  has_char sep piece = false ->
  PyStr.split sep (piece ++ String sep rest) = piece :: PyStr.split sep rest.
Proof.
  induction piece as [|c piece IH]; simpl; intros H.
  - rewrite Ascii.eqb_refl. reflexivity.
  - apply orb_false_iff in H as [Hc Hp].
    rewrite Hc, (IH Hp). reflexivity.
Qed.

Lemma getitem_0_cons {A} (x : A) (l : list A) : PyList.getitem (x :: l) 0 = Ok x.
Proof.
  unfold PyList.getitem, PyList.norm_index.
  replace (0 <=? 0) with true by reflexivity.
  replace (0 <? Z.of_nat (length (x :: l))) with true
    by (symmetry; apply Z.ltb_lt; simpl; lia).
  reflexivity.
Qed.

Lemma getitem_1_cons {A} (x y : A) (l : list A) : PyList.getitem (x :: y :: l) 1 = Ok y.
Proof.
  unfold PyList.getitem, PyList.norm_index.
  replace (0 <=? 1) with true by reflexivity.
  replace (1 <? Z.of_nat (length (x :: y :: l))) with true
    by (symmetry; apply Z.ltb_lt; simpl; lia).
  reflexivity.
Qed.

Lemma getitem_1_single {A} (x : A) : PyList.getitem [x] 1 = Raise IndexError.
Proof. reflexivity. Qed.

(** [l[-1] = x] writes the last slot of a non-empty list. *)
Lemma setitem_minus_one {A} (l : list A) (x : A) :
  l <> [] ->
  PyList.setitem l (-1) x = Ok (<[(length l - 1)%nat := x]> l).
Proof.
  intros Hl. unfold PyList.setitem, PyList.norm_index.
  assert (0 < length l)%nat by (destruct l; simpl; [congruence|lia]).
  replace (0 <=? -1) with false by reflexivity. simpl.
  replace (- Z.of_nat (length l) <=? -1) with true by (symmetry; apply Z.leb_le; lia).
  simpl. do 2 f_equal. lia.
Qed.

(** An index from [length l] on is out of range. *)
Lemma setitem_beyond {A} (l : list A) (i : Z) (x : A) :
  Z.of_nat (length l) <= i -> PyList.setitem l i x = Raise IndexError.
Proof.
  intros Hi. unfold PyList.setitem, PyList.norm_index.
  replace (i <? Z.of_nat (length l)) with false by (symmetry; apply Z.ltb_ge; lia).
  replace (i <? 0) with false by (symmetry; apply Z.ltb_ge; lia).
  rewrite !andb_false_r. reflexivity.
Qed.

Lemma setitem_length {A} (l l' : list A) (i : Z) (x : A) :
  PyList.setitem l i x = Ok l' -> length l' = length l.
Proof.
  unfold PyList.setitem. destruct (PyList.norm_index (length l) i); [|discriminate].
  intros [= <-]. apply length_insert.
Qed.

Lemma norm_index_position (len : nat) (i : Z) :
  - Z.of_nat len <= i < Z.of_nat len ->
  PyList.norm_index len i = Some (position_of len i).
Proof.
  intros H. unfold PyList.norm_index, position_of.
  destruct (Z.ltb_spec i 0) as [Hneg|Hpos].
  - replace (0 <=? i) with false by (symmetry; apply Z.leb_gt; lia).
    replace (- Z.of_nat len <=? i) with true by (symmetry; apply Z.leb_le; lia).
    reflexivity.
  - replace (0 <=? i) with true by (symmetry; apply Z.leb_le; lia).
    replace (i <? Z.of_nat len) with true by (symmetry; apply Z.ltb_lt; lia).
    reflexivity.
Qed.

Lemma norm_index_none (len : nat) (i : Z) :
  ~ (- Z.of_nat len <= i < Z.of_nat len) -> PyList.norm_index len i = None.
Proof.
  intros H. unfold PyList.norm_index.
  destruct (Z.leb_spec 0 i), (Z.ltb_spec i (Z.of_nat len)),
    (Z.leb_spec (- Z.of_nat len) i), (Z.ltb_spec i 0); simpl; try reflexivity; lia.
Qed.

(** ** The rank line *)

Lemma int_parse (s : string) (z : Z) :
  PyStr.parse_int s = Some z -> PyStr.int s = Ok z.
Proof.
  unfold PyStr.parse_int. destruct (PyStr.int s); [now intros [= ->] | discriminate].
Qed.

(** [int] raises nothing but [ValueError]. *)
Lemma int_raises_value_error (s : string) (e : exn) :
  PyStr.int s = Raise e -> exists msg, e = ValueError msg.
Proof.
  unfold PyStr.int.
  destruct (PyStr.scan _ _ _ _) as [[[v n] rest]|]; [|intros [= <-]; eauto].
  destruct (4300 <? n); [intros [= <-]; eauto|].
  destruct (PyStr.lstrip rest); [discriminate | intros [= <-]; eauto].
Qed.

(** A rank line with two integer tokens writes the rank at the index
    less one, by Python's indexing. *)
Lemma parse_rank_line_tokens (results : list Z) (line t0 t1 : string)
    (more : list string) (rank index : Z) :
  PyStr.split PyStr.space line = t0 :: t1 :: more ->
  PyStr.parse_int t0 = Some rank ->
  PyStr.parse_int t1 = Some index ->
  Match.parse_rank_line results line = PyList.setitem results (index - 1) rank.
Proof.
  intros Hs H0 H1. unfold Match.parse_rank_line. rewrite Hs.
  rewrite getitem_0_cons. simpl. rewrite (int_parse _ _ H0). simpl.
  rewrite getitem_1_cons. simpl. rewrite (int_parse _ _ H1). reflexivity.
Qed.

Lemma rank_line_pair_spec (results : list Z) (line : string) (rank index : Z) :
  rank_line_pair line = Some (rank, index) ->
  Match.parse_rank_line results line = PyList.setitem results (index - 1) rank.
Proof.
  unfold rank_line_pair.
  destruct (PyStr.split PyStr.space line) as [|t0 [|t1 more]] eqn:Es; try discriminate.
  destruct (PyStr.parse_int t0) as [r|] eqn:E0; [|discriminate].
  destruct (PyStr.parse_int t1) as [i|] eqn:E1; [|discriminate].
  intros [= <- <-]. eapply parse_rank_line_tokens; eauto.
Qed.

Lemma parse_rank_line_length (results results' : list Z) (line : string) :
  Match.parse_rank_line results line = Ok results' -> length results' = length results.
Proof.
  unfold Match.parse_rank_line.
  destruct (PyList.getitem _ 0); simpl; [|discriminate].
  destruct (PyStr.int a); simpl; [|discriminate].
  destruct (PyList.getitem _ 1); simpl; [|discriminate].
  destruct (PyStr.int a1); simpl; [|discriminate].
  apply setitem_length.
Qed.

(** Whether a rank line goes through depends on the result vector only by
    its length. *)
Lemma parse_rank_line_is_ok (r1 r2 : list Z) (line : string) :
  length r1 = length r2 ->
  is_ok (Match.parse_rank_line r1 line) = is_ok (Match.parse_rank_line r2 line).
Proof.
  intros Hlen. unfold Match.parse_rank_line.
  destruct (PyList.getitem _ 0); simpl; [|reflexivity].
  destruct (PyStr.int a); simpl; [|reflexivity].
  destruct (PyList.getitem _ 1); simpl; [|reflexivity].
  destruct (PyStr.int a1); simpl; [|reflexivity].
  unfold PyList.setitem. rewrite Hlen.
  destruct (PyList.norm_index _ _); reflexivity.
Qed.

(** A token that [int] refuses stops the rank line with the exception of
    [int]. *)
Lemma token_error_raises (results : list Z) (line : string) (e : exn) :
  token_error line = Some e -> Match.parse_rank_line results line = Raise e.
Proof.
  unfold token_error, Match.parse_rank_line.
  destruct (PyStr.split PyStr.space line) as [|t0 rest]; [discriminate|].
  rewrite getitem_0_cons. simpl.
  destruct (PyStr.int t0) as [r|e0]; simpl; [|now intros [= ->]].
  destruct rest as [|t1 rest]; [discriminate|].
  rewrite getitem_1_cons. simpl.
  destruct (PyStr.int t1) as [i|e1]; [discriminate | now intros [= ->]].
Qed.

Lemma token_error_value_error (line : string) (e : exn) :
  token_error line = Some e -> exists msg, e = ValueError msg.
Proof.
  unfold token_error.
  destruct (PyStr.split PyStr.space line) as [|t0 rest]; [discriminate|].
  destruct (PyStr.int t0) as [r|e0] eqn:E0.
  - destruct rest as [|t1 rest]; [discriminate|].
    destruct (PyStr.int t1) as [i|e1] eqn:E1; [discriminate|].
    intros [= <-]. eapply int_raises_value_error; eauto.
  - intros [= <-]. eapply int_raises_value_error; eauto.
Qed.

Lemma setitem_in_range {A} (l : list A) (i : Z) (x : A) :
  1 <= i <= Z.of_nat (length l) ->
  PyList.setitem l (i - 1) x = Ok (<[Z.to_nat (i - 1) := x]> l).
Proof.
  intros H. unfold PyList.setitem, PyList.norm_index.
  replace (0 <=? i - 1) with true by (symmetry; apply Z.leb_le; lia).
  replace (i - 1 <? Z.of_nat (length l)) with true by (symmetry; apply Z.ltb_lt; lia).
  reflexivity.
Qed.

(** *** The rank lines in turn *)

Lemma rank_lines_app (a b : list string) :
  forall results,
    rank_lines results (a ++ b) =
      (let? results' := rank_lines results a in rank_lines results' b).
Proof.
  induction a as [|l a IH]; intros results; simpl; [reflexivity|].
  destruct (Match.parse_rank_line results l); simpl; [apply IH | reflexivity].
Qed.

Lemma rank_lines_length (lines : list string) :
  forall results results',
    rank_lines results lines = Ok results' -> length results' = length results.
Proof.
  induction lines as [|l lines IH]; intros results results'; simpl.
  - now intros [= <-].
  - destruct (Match.parse_rank_line results l) as [r1|e] eqn:E; simpl; [|discriminate].
    intros H. rewrite (IH _ _ H). eapply parse_rank_line_length; eauto.
Qed.

(** Rank lines that are each taken are taken in turn. *)
Lemma rank_lines_ok (lines : list string) :
  forall results,
    Forall (fun l => rank_line_ok (length results) l = true) lines ->
    exists results', rank_lines results lines = Ok results'.
Proof.
  induction lines as [|l lines IH]; intros results H; simpl; [eauto|].
  inversion H as [|? ? Hl Hrest]; subst.
  unfold rank_line_ok in Hl.
  rewrite (parse_rank_line_is_ok _ results) in Hl by apply repeat_length.
  destruct (Match.parse_rank_line results l) as [r1|e] eqn:E; [|discriminate].
  simpl. apply IH. now rewrite (parse_rank_line_length _ _ _ E).
Qed.

(** A rank line is taken when its first two tokens are integers and the
    second, less one, is an index of Python into the result vector. *)
Lemma rank_line_pair_ok (len : nat) (line : string) (rank index : Z) :
  rank_line_pair line = Some (rank, index) ->
  1 - Z.of_nat len <= index <= Z.of_nat len ->
  rank_line_ok len line = true.
Proof.
  intros Hpair Hi. unfold rank_line_ok.
  rewrite (rank_line_pair_spec _ _ _ _ Hpair). unfold PyList.setitem.
  rewrite repeat_length, norm_index_position by lia. reflexivity.
Qed.

Lemma rank_pairs_ok (len : nat) (ranks : list string) :
  forall pairs : list (Z * Z),
    map rank_line_pair ranks = map Some pairs ->
    Forall (fun p => 1 - Z.of_nat len <= snd p <= Z.of_nat len) pairs ->
    Forall (fun l => rank_line_ok len l = true) ranks.
Proof.
  induction ranks as [|l ranks IH]; intros [|[r i] pairs] Hm Hin; try discriminate;
    [constructor|].
  injection Hm as Hl Hm. inversion Hin as [|? ? Hi Hrest]; subst.
  constructor; [eapply rank_line_pair_ok; eauto | eapply IH; eauto].
Qed.

(** Rank lines with integer tokens and indices within 1..n are all taken. *)
Lemma rank_lines_pairs (ranks : list string) :
  forall (pairs : list (Z * Z)) (results : list Z),
    map rank_line_pair ranks = map Some pairs ->
    Forall (fun p => 1 <= snd p <= Z.of_nat (length results)) pairs ->
    rank_lines results ranks = Ok (write_ranks pairs results).
Proof.
  induction ranks as [|l ranks IH]; intros [|[r i] pairs] results Hm Hin;
    try discriminate; [reflexivity|].
  injection Hm as Hl Hm. inversion Hin as [|? ? Hi Hrest]; subst. simpl in Hi.
  simpl. rewrite (rank_line_pair_spec _ _ _ _ Hl), setitem_in_range by exact Hi.
  simpl. apply IH; [exact Hm|].
  rewrite length_insert. exact Hrest.
Qed.

Lemma write_ranks_length (pairs : list (Z * Z)) :
  forall results, length (write_ranks pairs results) = length results.
Proof.
  unfold write_ranks. induction pairs as [|p pairs IH]; intros results; simpl;
    [reflexivity|].
  rewrite IH. apply length_insert.
Qed.

(** A slot that no later line names keeps what it holds. *)
Lemma write_ranks_other (pairs : list (Z * Z)) :
  forall (results : list Z) (k : nat),
    Forall (fun p => Z.to_nat (snd p - 1) <> k) pairs ->
    write_ranks pairs results !! k = results !! k.
Proof.
  unfold write_ranks. induction pairs as [|p pairs IH]; intros results k H; simpl;
    [reflexivity|].
  inversion H as [|? ? Hp Hrest]; subst.
  rewrite IH by exact Hrest. now apply list_lookup_insert_ne.
Qed.

(** With each index named once, every rank line's rank stays in its slot. *)
Lemma write_ranks_lookup (pairs : list (Z * Z)) :
  forall (results : list Z) (r i : Z),
    Forall (fun p => 1 <= snd p <= Z.of_nat (length results)) pairs ->
    List.NoDup (map snd pairs) ->
    In (r, i) pairs ->
    write_ranks pairs results !! Z.to_nat (i - 1) = Some r.
Proof.
  induction pairs as [|[r0 i0] pairs IH]; intros results r i Hin Hnd Hp; [destruct Hp|].
  inversion Hin as [|? ? Hi0 Hrest]; subst. simpl in Hi0.
  inversion Hnd as [|? ? Hfresh Hnd']; subst.
  change (write_ranks ((r0, i0) :: pairs) results)
    with (write_ranks pairs (<[Z.to_nat (i0 - 1) := r0]> results)).
  destruct Hp as [[= -> ->]|Hp].
  - rewrite write_ranks_other.
    + apply list_lookup_insert_eq. lia.
    + rewrite List.Forall_forall in Hrest |- *. intros [r' i'] Hp'.
      specialize (Hrest _ Hp'). simpl in *.
      intros Heq. apply Hfresh. replace i with i' by lia.
      change i' with (snd (r', i')). now apply in_map.
  - apply IH; [|exact Hnd'|exact Hp].
    rewrite length_insert. exact Hrest.
Qed.

(** *** The lines in turn *)

(** Where the loop body is on a rank line. *)
Lemma parse_line_rank (self : Match.t) (count : Z) (line : string) :
  Match.num_players self < count < Match.num_players self * 2 + 1 ->
  Match.parse_line self count line =
    (let? results' := Match.parse_rank_line (Match.results self) line in
     Ok (Match.set_results self results')).
Proof.
  intros H. unfold Match.parse_line.
  replace (count =? Match.num_players self) with false by (symmetry; apply Z.eqb_neq; lia).
  replace (count =? Match.num_players self * 2 + 1) with false
    by (symmetry; apply Z.eqb_neq; lia).
  replace (count <? Match.num_players self) with false by (symmetry; apply Z.ltb_ge; lia).
  replace (count <? Match.num_players self * 2 + 1) with true
    by (symmetry; apply Z.ltb_lt; lia).
  reflexivity.
Qed.

(** The loop body keeps the number of participants and the length of the
    result vector. *)
Lemma parse_line_keeps (self self' : Match.t) (count : Z) (line : string) :
  Match.parse_line self count line = Ok self' ->
  Match.num_players self' = Match.num_players self
  /\ length (Match.results self') = length (Match.results self).
Proof.
  unfold Match.parse_line.
  destruct (count =? Match.num_players self).
  { destruct (PyList.getitem _ 0); simpl; [|discriminate]. intros [= <-]. now split. }
  destruct (count =? Match.num_players self * 2 + 1).
  { intros [= <-]. now split. }
  destruct (count <? Match.num_players self).
  { intros [= <-]. now split. }
  destruct (count <? Match.num_players self * 2 + 1).
  { destruct (Match.parse_rank_line _ _) eqn:E; simpl; [|discriminate].
    intros [= <-]. split; [reflexivity|]. simpl. eapply parse_rank_line_length; eauto. }
  intros [= <-]. now split.
Qed.

(** Only a rank line can make the loop body raise. *)
Lemma parse_line_other (self : Match.t) (count : Z) (line : string) :
  ~ (Match.num_players self < count < Match.num_players self * 2 + 1) ->
  exists self', Match.parse_line self count line = Ok self'.
Proof.
  intros H. unfold Match.parse_line.
  destruct (count =? Match.num_players self) eqn:E1.
  { destruct (split_cons PyStr.space line) as (t & ts & ->).
    rewrite getitem_0_cons. simpl. eauto. }
  destruct (count =? Match.num_players self * 2 + 1) eqn:E2; [eauto|].
  destruct (count <? Match.num_players self) eqn:E3; [eauto|].
  destruct (count <? Match.num_players self * 2 + 1) eqn:E4; [|eauto].
  exfalso. apply H.
  apply Z.eqb_neq in E1. apply Z.ltb_ge in E3. apply Z.ltb_lt in E4. lia.
Qed.

Lemma set_results_same (self : Match.t) :
  Match.set_results self (Match.results self) = self.
Proof. destruct self; reflexivity. Qed.

(** Header lines are passed over. *)
Lemma parse_lines_headers (headers : list string) :
  forall (self : Match.t) (count : Z) (rest : list string),
    0 <= count ->
    count + Z.of_nat (length headers) <= Match.num_players self ->
    Match.parse_lines self count (headers ++ rest) =
      Match.parse_lines self (count + Z.of_nat (length headers)) rest.
Proof.
  induction headers as [|h headers IH]; intros self count rest H0 Hn; simpl.
  - now rewrite Z.add_0_r.
  - simpl length in Hn. unfold Match.parse_line.
    replace (count =? Match.num_players self) with false
      by (symmetry; apply Z.eqb_neq; lia).
    replace (count =? Match.num_players self * 2 + 1) with false
      by (symmetry; apply Z.eqb_neq; lia).
    replace (count <? Match.num_players self) with true
      by (symmetry; apply Z.ltb_lt; lia).
    rewrite IH by lia. f_equal. lia.
Qed.

(** The replay line gives the replay file its first token. *)
Lemma parse_line_replay (self : Match.t) (line : string) :
  Match.parse_line self (Match.num_players self) line =
    Ok (Match.set_replay_file self (first_token line)).
Proof.
  unfold Match.parse_line, first_token. rewrite Z.eqb_refl.
  destruct (split_cons PyStr.space line) as (t & ts & ->).
  now rewrite getitem_0_cons.
Qed.

(** The rank lines, as long as each is taken. *)
Lemma parse_lines_ranks (ranks : list string) :
  forall (self : Match.t) (count : Z) (rest : list string) (rs : list Z),
    Match.num_players self < count ->
    count + Z.of_nat (length ranks) <= Match.num_players self * 2 + 1 ->
    rank_lines (Match.results self) ranks = Ok rs ->
    Match.parse_lines self count (ranks ++ rest) =
      Match.parse_lines (Match.set_results self rs)
                        (count + Z.of_nat (length ranks)) rest.
Proof.
  induction ranks as [|l ranks IH]; intros self count rest rs Hlo Hhi Hrs; simpl in *.
  - injection Hrs as <-. now rewrite set_results_same, Z.add_0_r.
  - rewrite parse_line_rank by lia.
    destruct (Match.parse_rank_line (Match.results self) l) as [r1|e]; [|discriminate].
    simpl in *. rewrite (IH (Match.set_results self r1) (count + 1) rest rs);
      [| simpl; lia | simpl; lia | exact Hrs].
    f_equal. lia.
Qed.

(** The first rank line that is not taken ends the loop with its
    exception. *)
Lemma parse_lines_ranks_raise (ranks : list string) :
  forall (self : Match.t) (count : Z) (rest : list string) (e : exn),
    Match.num_players self < count ->
    count + Z.of_nat (length ranks) <= Match.num_players self * 2 + 1 ->
    rank_lines (Match.results self) ranks = Raise e ->
    exists self', Match.parse_lines self count (ranks ++ rest) = (Raise e, self').
Proof.
  induction ranks as [|l ranks IH]; intros self count rest e Hlo Hhi Hrs; simpl in *;
    [discriminate|].
  rewrite parse_line_rank by lia.
  destruct (Match.parse_rank_line (Match.results self) l) as [r1|e1]; simpl in *.
  - apply (IH (Match.set_results self r1)); [simpl; lia | simpl; lia | exact Hrs].
  - injection Hrs as <-. eauto.
Qed.

(** The timeout line gives the timeout markers. *)
Lemma parse_line_timeouts (self : Match.t) (line : string) :
  0 <= Match.num_players self ->
  Match.parse_line self (Match.num_players self * 2 + 1) line =
    Ok (Match.set_timeouts self (PyStr.split PyStr.space line)).
Proof.
  intros Hn. unfold Match.parse_line.
  replace (Match.num_players self * 2 + 1 =? Match.num_players self) with false
    by (symmetry; apply Z.eqb_neq; lia).
  now rewrite Z.eqb_refl.
Qed.

(** Lines after the timeout line are passed over. *)
Lemma parse_lines_surplus (rest : list string) :
  forall (self : Match.t) (count : Z),
    Match.num_players self * 2 + 1 < count -> 0 <= Match.num_players self ->
    Match.parse_lines self count rest = (Ok tt, self).
Proof.
  induction rest as [|l rest IH]; intros self count Hc Hn; simpl; [reflexivity|].
  unfold Match.parse_line.
  replace (count =? Match.num_players self) with false by (symmetry; apply Z.eqb_neq; lia).
  replace (count =? Match.num_players self * 2 + 1) with false
    by (symmetry; apply Z.eqb_neq; lia).
  replace (count <? Match.num_players self) with false by (symmetry; apply Z.ltb_ge; lia).
  replace (count <? Match.num_players self * 2 + 1) with false
    by (symmetry; apply Z.ltb_ge; lia).
  apply IH; lia.
Qed.

(** The parser on an output of [n] header lines, the replay line, [n]
    rank lines, the timeout line and any further lines: it returns what
    the rank lines leave, or raises what the first refused rank line
    raises. *)
Lemma parse_sections (self : Match.t) (headers ranks rest : list string)
    (replay marks : string) :
  PyStr.split PyStr.newline (Match.results_string self)
    = (headers ++ replay :: ranks ++ marks :: rest)%list ->
  Z.of_nat (length headers) = Match.num_players self ->
  Z.of_nat (length ranks) = Match.num_players self ->
  match rank_lines (Match.results self) ranks with
  | Ok rs =>
      Match.parse_results_string self =
        (Ok tt,
         Match.set_timeouts
           (Match.set_results (Match.set_replay_file self (first_token replay)) rs)
           (PyStr.split PyStr.space marks))
  | Raise e => exists self', Match.parse_results_string self = (Raise e, self')
  end.
Proof.
  intros Hsplit Hh Hr.
  assert (Hn : 0 <= Match.num_players self) by lia.
  unfold Match.parse_results_string. rewrite Hsplit.
  replace (_ <? _) with false.
  2:{ symmetry. apply Z.ltb_ge. rewrite length_app. simpl. rewrite length_app. simpl. lia. }
  rewrite parse_lines_headers by lia.
  simpl. rewrite Z.add_0_l, Hh, parse_line_replay.
  destruct (rank_lines (Match.results self) ranks) as [rs|e] eqn:E.
  - rewrite (parse_lines_ranks ranks _ _ _ rs); [| simpl; lia | simpl; lia | exact E].
    simpl. replace (Match.num_players self + 1 + Z.of_nat (length ranks))
      with (Match.num_players self * 2 + 1) by lia.
    rewrite (parse_line_timeouts
               (Match.set_results (Match.set_replay_file self (first_token replay)) rs))
      by (simpl; lia).
    rewrite parse_lines_surplus by (simpl; lia). reflexivity.
  - apply parse_lines_ranks_raise; [simpl; lia | simpl; lia | exact E].
Qed.

(** ** C3: the worked example of the output protocol *)

Lemma example_output_lines (header1 header2 tail : string) :
  has_char PyStr.newline header1 = false ->
  has_char PyStr.newline header2 = false ->
  PyStr.split PyStr.newline (example_output header1 header2 tail) =
    header1 :: header2 :: PyStr.split PyStr.newline
      ("replay123.hlt extra" ++ nl ++ "1 1" ++ nl ++ "2 2" ++ nl ++ "0 0" ++ tail).
Proof.
  intros H1 H2. unfold example_output, nl.
  change (String PyStr.newline "" ++ ?x) with (String PyStr.newline x).
  rewrite (split_app _ _ _ H1).
  change (String PyStr.newline "" ++ ?x) with (String PyStr.newline x).
  rewrite (split_app _ _ _ H2). reflexivity.
Qed.

(** C3.  For a match of two participants and the engine output made of two
    header lines (any text without a line feed), then "replay123.hlt extra",
    "1 1", "2 2" and "0 0", with or without a final line feed, parsing
    raises nothing, leaves the rank vector [1, 2] and sets the replay file
    name to "replay123.hlt". *)
Theorem parse_example_output (h : heap) (p1 p2 : nat) (width height seed : Z)
    (limit : float) (keep : bool) (header1 header2 tail : string) :
  has_char PyStr.newline header1 = false ->
  has_char PyStr.newline header2 = false ->
  tail = "" \/ tail = nl ->
  let self := Match.set_results_string
                (Match.init h [p1; p2] width height seed limit keep)
                (example_output header1 header2 tail) in
  exists self',
    Match.parse_results_string self = (Ok tt, self')
    /\ Match.results self' = [1; 2]
    /\ Match.replay_file self' = "replay123.hlt".
Proof.
  intros H1 H2 Htail self.
  unfold Match.parse_results_string. subst self. simpl Match.results_string.
  rewrite (example_output_lines _ _ _ H1 H2).
  destruct Htail as [-> | ->]; eexists; (split; [reflexivity | split; reflexivity]).
Qed.

Lemma parse_example_output_witness :
  exists self',
    Match.parse_results_string
      (Match.set_results_string
         (Match.init [Player.init "a" "bots/a"; Player.init "b" "bots/b"]
                     [0%nat; 1%nat] 30 30 10000 1200%float true)
         (example_output "a" "b" nl)) = (Ok tt, self')
    /\ Match.results self' = [1; 2]
    /\ Match.replay_file self' = "replay123.hlt".
Proof.
  apply (parse_example_output
           [Player.init "a" "bots/a"; Player.init "b" "bots/b"]
           0%nat 1%nat 30 30 10000 1200%float true "a" "b" nl);
    [reflexivity | reflexivity | right; reflexivity].
Defined.

(** ** C10: the participant index of a rank line is not range-checked *)

(** C10.  Nothing guards the participant index of a rank line.  For an
    output of [n] header lines, the replay line, [n] rank lines, the
    timeout line and any further lines, and a rank line with integer
    tokens [rank] and [index] whose predecessors are all taken: with
    [index = 0], when the rank lines after it name participants 1 to
    [n - 1] only, parsing raises nothing and the last participant (Python's
    index -1) has [rank] in the result vector; with [index] above [n],
    parsing raises [IndexError], the out-of-range error of the list, and
    not the [ValueError] of the parser. *)
Theorem rank_index_unguarded (self : Match.t) (headers before after rest : list string)
    (replay line marks : string) (rank index : Z) (pairs : list (Z * Z)) :
  let n := Match.num_players self in
  Z.of_nat (length (Match.results self)) = n ->
  PyStr.split PyStr.newline (Match.results_string self)
    = (headers ++ replay :: (before ++ line :: after) ++ marks :: rest)%list ->
  Z.of_nat (length headers) = n ->
  Z.of_nat (length before) + 1 + Z.of_nat (length after) = n ->
  Forall (fun l => rank_line_ok (Z.to_nat n) l = true) before ->
  rank_line_pair line = Some (rank, index) ->
  (index = 0 ->
   map rank_line_pair after = map Some pairs ->
   Forall (fun p => 1 <= snd p < n) pairs ->
   exists self',
     Match.parse_results_string self = (Ok tt, self')
     /\ Match.results self' !! Z.to_nat (n - 1) = Some rank
     /\ length (Match.results self') = length (Match.results self))
  /\ (n < index ->
      exists self', Match.parse_results_string self = (Raise IndexError, self')).
Proof.
  intros n Hlen Hsplit Hh Hr Hbefore Hline.
  assert (Hr' : Z.of_nat (length (before ++ line :: after)) = Match.num_players self)
    by (rewrite length_app; simpl; fold n; lia).
  pose proof (parse_sections self headers (before ++ line :: after) rest replay marks
                Hsplit Hh Hr') as Hparse.
  rewrite rank_lines_app in Hparse.
  destruct (rank_lines_ok before (Match.results self)) as [rs0 Hrs0].
  { replace (length (Match.results self)) with (Z.to_nat n) by lia. exact Hbefore. }
  pose proof (rank_lines_length _ _ _ Hrs0) as Hlen0.
  rewrite Hrs0 in Hparse. simpl in Hparse.
  rewrite (rank_line_pair_spec rs0 _ _ _ Hline) in Hparse.
  split.
  - intros -> Hpairs Hrange. simpl (0 - 1) in Hparse.
    rewrite setitem_minus_one in Hparse
      by (destruct rs0; [simpl in Hlen0; lia | discriminate]).
    simpl in Hparse.
    rewrite (rank_lines_pairs after pairs) in Hparse; [|exact Hpairs|].
    2:{ rewrite length_insert, Hlen0.
        eapply Forall_impl; [exact Hrange|]. simpl. intros p Hp. lia. }
    eexists. split; [exact Hparse|]. simpl. split.
    + rewrite write_ranks_other.
      * replace (Z.to_nat (n - 1)) with (length rs0 - 1)%nat by lia.
        apply list_lookup_insert_eq. lia.
      * eapply Forall_impl; [exact Hrange|]. simpl. intros p Hp. lia.
    + now rewrite write_ranks_length, length_insert.
  - intros Hbig. rewrite setitem_beyond in Hparse by lia. exact Hparse.
Qed.

Lemma rank_index_unguarded_witness :
  let self text :=
    Match.set_results_string
      (Match.init [Player.init "a" "bots/a"; Player.init "b" "bots/b";
                   Player.init "c" "bots/c"]
                  [0%nat; 1%nat; 2%nat] 30 30 10000 1800%float true) text in
  (exists self',
      Match.parse_results_string
        (self ("a" ++ nl ++ "b" ++ nl ++ "c" ++ nl ++ "replay.hlt" ++ nl ++ "1 1" ++ nl
                 ++ "7 0" ++ nl ++ "3 2" ++ nl ++ "0 0 0")) = (Ok tt, self')
      /\ Match.results self' !! 2%nat = Some 7)
  /\ (exists self',
         Match.parse_results_string
           (self ("a" ++ nl ++ "b" ++ nl ++ "c" ++ nl ++ "replay.hlt" ++ nl ++ "1 1" ++ nl
                    ++ "2 4" ++ nl ++ "3 2" ++ nl ++ "0 0 0")) = (Raise IndexError, self')).
Proof.
  intros self. split.
  - destruct (proj1 (rank_index_unguarded
                       (self ("a" ++ nl ++ "b" ++ nl ++ "c" ++ nl ++ "replay.hlt" ++ nl
                                ++ "1 1" ++ nl ++ "7 0" ++ nl ++ "3 2" ++ nl ++ "0 0 0"))
                       ["a"; "b"; "c"] ["1 1"] ["3 2"] [] "replay.hlt" "7 0" "0 0 0"
                       7 0 [(3, 2)] eq_refl eq_refl eq_refl eq_refl
                       ltac:(repeat constructor) eq_refl))
      as (self' & Hp & Hlast & _);
      [reflexivity | reflexivity | repeat constructor; simpl; lia |].
    exists self'. split; [exact Hp | exact Hlast].
  - exact (proj2 (rank_index_unguarded
                    (self ("a" ++ nl ++ "b" ++ nl ++ "c" ++ nl ++ "replay.hlt" ++ nl
                             ++ "1 1" ++ nl ++ "2 4" ++ nl ++ "3 2" ++ nl ++ "0 0 0"))
                    ["a"; "b"; "c"] ["1 1"] ["3 2"] [] "replay.hlt" "2 4" "0 0 0"
                    2 4 [] eq_refl eq_refl eq_refl eq_refl
                    ltac:(repeat constructor) eq_refl)
                 ltac:(simpl; lia)).
Defined.

(** ** C2: what the parser rejects *)

(** The loop raises when it meets a rank line with a token that [int]
    refuses, unless it has raised before. *)
Lemma parse_lines_bad_token (lines : list string) :
  forall (self : Match.t) (count : Z) (k : nat) (line : string) (e : exn),
    lines !! k = Some line ->
    Match.num_players self < count + Z.of_nat k < Match.num_players self * 2 + 1 ->
    token_error line = Some e ->
    exists e' self', Match.parse_lines self count lines = (Raise e', self').
Proof.
  induction lines as [|l lines IH]; intros self count k line e Hk Hpos Hbad.
  - destruct k; discriminate.
  - simpl. destruct k as [|k]; simpl in Hk.
    + injection Hk as ->.
      rewrite parse_line_rank by lia.
      rewrite (token_error_raises _ _ _ Hbad). simpl. eauto.
    + destruct (Match.parse_line self count l) as [self1|e1] eqn:E; [|eauto].
      destruct (parse_line_keeps _ _ _ _ E) as [Hn _].
      apply (IH self1 (count + 1) k line e Hk); [rewrite Hn; lia | exact Hbad].
Qed.

(** When the rank lines before it are taken, the exception is that of
    [int] on the token. *)
Lemma parse_lines_first_bad_token (lines : list string) :
  forall (self : Match.t) (count : Z) (k : nat) (line : string) (e : exn),
    lines !! k = Some line ->
    Match.num_players self < count + Z.of_nat k < Match.num_players self * 2 + 1 ->
    token_error line = Some e ->
    (forall (j : nat) (l : string),
        (j < k)%nat -> lines !! j = Some l ->
        Match.num_players self < count + Z.of_nat j ->
        rank_line_ok (length (Match.results self)) l = true) ->
    exists self', Match.parse_lines self count lines = (Raise e, self').
Proof.
  induction lines as [|l lines IH]; intros self count k line e Hk Hpos Hbad Hbefore.
  - destruct k; discriminate.
  - simpl. destruct k as [|k]; simpl in Hk.
    + injection Hk as ->.
      rewrite parse_line_rank by lia.
      rewrite (token_error_raises _ _ _ Hbad). simpl. eauto.
    + assert (Hl : exists self1, Match.parse_line self count l = Ok self1).
      { destruct (Z_lt_dec (Match.num_players self) count) as [Hin|Hout].
        - rewrite parse_line_rank by lia.
          specialize (Hbefore 0%nat l ltac:(lia) eq_refl ltac:(lia)).
          unfold rank_line_ok in Hbefore.
          rewrite (parse_rank_line_is_ok _ (Match.results self)) in Hbefore
            by apply repeat_length.
          destruct (Match.parse_rank_line (Match.results self) l); [|discriminate].
          simpl. eauto.
        - apply parse_line_other. lia. }
      destruct Hl as [self1 E]. rewrite E.
      destruct (parse_line_keeps _ _ _ _ E) as [Hn Hr].
      apply (IH self1 (count + 1) k line e Hk); [rewrite Hn; lia | exact Hbad |].
      intros j l' Hj Hl' Hpos'. rewrite Hr, Hn in *.
      apply (Hbefore (S j) l'); [lia | exact Hl' | lia].
Qed.

(** C2, as the code has it.  For a match whose result vector has one slot
    per participant: with fewer than [2 * num_players + 2] pieces between
    line feeds, parsing raises the [ValueError] "Not enough lines in match
    output" and leaves the match as it was; with enough pieces, a rank
    line whose rank token or index token [int] refuses makes parsing
    raise, and what is raised is the [ValueError] of [int] on that token
    whenever the rank lines before it are taken.  Nothing else of the
    protocol is checked: when the output has [num_players] header lines,
    the replay line, [num_players] rank lines and a timeout line, and the
    first two tokens of each rank line are integers, the second within
    [1 - num_players .. num_players], parsing raises nothing, whatever
    the further tokens of the rank lines, whichever indices of that range
    they name (0, negative and repeated ones included), whatever the
    number of timeout markers and whatever the lines that follow.  When
    parsing raises, however far it got, [run_match] raises the same
    exception and the player objects are as before: no rating comes from
    an output parsed in part. *)
Theorem parse_rejects (self : Match.t) :
  Z.of_nat (length (Match.results self)) = Match.num_players self ->
  let n := Match.num_players self in
  let lines := PyStr.split PyStr.newline (Match.results_string self) in
  (Z.of_nat (length lines) < 2 * n + 2 ->
     Match.parse_results_string self =
       (Raise (ValueError "Not enough lines in match output"), self))
  /\ (forall (k : nat) (line : string) (e : exn),
        2 * n + 2 <= Z.of_nat (length lines) ->
        lines !! k = Some line ->
        n < Z.of_nat k < 2 * n + 1 ->
        token_error line = Some e ->
        (exists msg, e = ValueError msg)
        /\ (exists e' self', Match.parse_results_string self = (Raise e', self'))
        /\ ((forall (j : nat) (l : string),
                (j < k)%nat -> lines !! j = Some l -> n < Z.of_nat j ->
                rank_line_ok (Z.to_nat n) l = true) ->
            exists self', Match.parse_results_string self = (Raise e, self')))
  /\ (forall (headers ranks rest : list string) (replay marks : string)
             (pairs : list (Z * Z)),
        lines = (headers ++ replay :: ranks ++ marks :: rest)%list ->
        Z.of_nat (length headers) = n ->
        Z.of_nat (length ranks) = n ->
        map rank_line_pair ranks = map Some pairs ->
        Forall (fun p => 1 - n <= snd p <= n) pairs ->
        exists self',
          Match.parse_results_string self = (Ok tt, self')
          /\ Match.replay_file self' = first_token replay
          /\ Match.timeouts self' = PyStr.split PyStr.space marks
          /\ length (Match.results self') = length (Match.results self))
  /\ (forall (env : Env) (m : Match.t) (halite_binary raw text : string) (code : Z)
             (h : heap) (e : exn) (self' : Match.t),
        self = Match.set_return_code (Match.set_results_string m text) (Some code) ->
        halite env (Match.get_command m halite_binary) (Match.total_time_limit m)
          = Completed raw code ->
        PyStr.decode_ascii raw = Ok text ->
        Match.parse_results_string self = (Raise e, self') ->
        Match.outcome (Match.run_match env m halite_binary h) = Raise e
        /\ Match.players_after (Match.run_match env m halite_binary h) = h).
Proof.
  intros Hlen n lines. split; [|split; [|split]].
  4:{ intros env m halite_binary raw text code h e self' -> Hrun Hdec Hparse.
      unfold Match.run_match. rewrite Hrun, Hdec, Hparse. now split. }
  - intros Hfew. unfold Match.parse_results_string. fold lines. fold n.
    replace (Z.of_nat (length lines) <? 2 + 2 * n) with true
      by (symmetry; apply Z.ltb_lt; lia).
    reflexivity.
  - intros k line e Henough Hk Hpos Hbad.
    split; [eapply token_error_value_error; eauto|].
    unfold Match.parse_results_string. fold lines. fold n.
    replace (Z.of_nat (length lines) <? 2 + 2 * n) with false
      by (symmetry; apply Z.ltb_ge; lia).
    split.
    + apply (parse_lines_bad_token lines self 0 k line e Hk); [fold n; lia | exact Hbad].
    + intros Hbefore.
      apply (parse_lines_first_bad_token lines self 0 k line e Hk);
        [fold n; lia | exact Hbad |].
      intros j l Hj Hl Hposj.
      replace (length (Match.results self)) with (Z.to_nat n) by (fold n in Hlen; lia).
      apply (Hbefore j l Hj Hl). fold n in Hposj. lia.
  - intros headers ranks rest replay marks pairs Hsplit Hh Hr Hpairs Hrange.
    pose proof (parse_sections self headers ranks rest replay marks Hsplit Hh Hr) as Hparse.
    destruct (rank_lines_ok ranks (Match.results self)) as [rs Hrs].
    { apply (rank_pairs_ok _ ranks pairs Hpairs).
      eapply Forall_impl; [exact Hrange|]. simpl. intros p Hp. fold n in Hlen. lia. }
    rewrite Hrs in Hparse. eexists. split; [exact Hparse|]. simpl.
    split; [reflexivity|]. split; [reflexivity|].
    eapply rank_lines_length; eauto.
Qed.

Lemma parse_rejects_witness :
  let self text :=
    Match.set_results_string
      (Match.init [Player.init "a" "bots/a"; Player.init "b" "bots/b"]
                  [0%nat; 1%nat] 30 30 10000 1200%float true) text in
  Match.parse_results_string (self ("a" ++ nl ++ "b" ++ nl ++ "replay.hlt")) =
    (Raise (ValueError "Not enough lines in match output"),
     self ("a" ++ nl ++ "b" ++ nl ++ "replay.hlt"))
  /\ (exists self',
        Match.parse_results_string
          (self ("a" ++ nl ++ "b" ++ nl ++ "replay.hlt" ++ nl ++ "1 1" ++ nl
                   ++ "2 x" ++ nl ++ "0 0"))
        = (Raise (ValueError "invalid literal for int() with base 10: 'x'"), self'))
  /\ (exists self',
        Match.parse_results_string
          (self ("a" ++ nl ++ "b" ++ nl ++ "replay.hlt" ++ nl ++ "1 1 x" ++ nl
                   ++ "2 0" ++ nl ++ "0" ++ nl ++ "more"))
        = (Ok tt, self')
        /\ Match.replay_file self' = "replay.hlt"
        /\ Match.timeouts self' = ["0"]).
Proof.
  intros self. split; [|split].
  - apply (proj1 (parse_rejects (self ("a" ++ nl ++ "b" ++ nl ++ "replay.hlt")) eq_refl)).
    vm_compute. reflexivity.
  - apply (proj1 (proj2 (parse_rejects
                    (self ("a" ++ nl ++ "b" ++ nl ++ "replay.hlt" ++ nl ++ "1 1" ++ nl
                             ++ "2 x" ++ nl ++ "0 0")) eq_refl)) 4%nat "2 x").
    + vm_compute. discriminate.
    + reflexivity.
    + vm_compute. split; reflexivity.
    + reflexivity.
    + intros j l Hj Hl Hpos.
      destruct j as [|[|[|[|j]]]].
      * simpl in Hpos. lia.
      * simpl in Hpos. lia.
      * simpl in Hpos. lia.
      * injection Hl as <-. reflexivity.
      * lia.
  - destruct (proj1 (proj2 (proj2 (parse_rejects
                    (self ("a" ++ nl ++ "b" ++ nl ++ "replay.hlt" ++ nl ++ "1 1 x" ++ nl
                             ++ "2 0" ++ nl ++ "0" ++ nl ++ "more")) eq_refl)))
                ["a"; "b"] ["1 1 x"; "2 0"] ["more"] "replay.hlt" "0" [(1, 1); (2, 0)])
      as (self' & Hp & Hf & Ht & _);
      [reflexivity | reflexivity | reflexivity | reflexivity
      | repeat constructor; simpl; lia |].
    exists self'. split; [exact Hp|]. split; [exact Hf | exact Ht].
Defined.

(** C2 as stated fails: texts that leave the protocol are taken without
    any error.  With the rank lines "1 0" and "2 2" the parser raises
    nothing, and participant 1 is left with the initial 0 in place of a
    rank; with two rank lines that both name participant 1 likewise; and
    a text with further tokens on a rank line, five timeout markers for
    two participants and two lines too many is taken as well. *)
Lemma parse_accepts_deviation :
  let self text :=
    Match.set_results_string
      (Match.init [Player.init "a" "bots/a"; Player.init "b" "bots/b"]
                  [0%nat; 1%nat] 30 30 10000 1200%float true) text in
  let text1 := "a" ++ nl ++ "b" ++ nl ++ "replay.hlt" ++ nl ++ "1 0" ++ nl
                 ++ "2 2" ++ nl ++ "0 0" in
  let text2 := "a" ++ nl ++ "b" ++ nl ++ "replay.hlt" ++ nl ++ "1 1" ++ nl
                 ++ "2 1" ++ nl ++ "0 0" in
  let text3 := "a" ++ nl ++ "b" ++ nl ++ "replay.hlt" ++ nl ++ "1 1 x y" ++ nl
                 ++ "2 2" ++ nl ++ "0 0 0 0 0" ++ nl ++ "one more" ++ nl ++ "and another" in
  (follows_protocol 2 text1 = false
   /\ exists self', Match.parse_results_string (self text1) = (Ok tt, self')
                    /\ Match.results self' = [0; 2])
  /\ (follows_protocol 2 text2 = false
      /\ exists self', Match.parse_results_string (self text2) = (Ok tt, self')
                       /\ Match.results self' = [2; 0])
  /\ (follows_protocol 2 text3 = false
      /\ exists self', Match.parse_results_string (self text3) = (Ok tt, self')
                       /\ Match.results self' = [1; 2]).
Proof.
  intros self text1 text2 text3. split; [|split]; (split; [reflexivity|]).
  - eexists. split; reflexivity.
  - eexists. split; reflexivity.
  - eexists. split; reflexivity.
Qed.

Example follows_protocol_example :
  follows_protocol 2 (example_output "a" "b" "") = true
  /\ follows_protocol 2 (example_output "a" "b" nl) = true.
Proof. split; reflexivity. Qed.

(** ** C1 and C4: a failed match *)

Lemma set_players_same (self : Manager.t) :
  Manager.set_players self (Manager.players self) = self.
Proof. destruct self; reflexivity. Qed.

(** A match that fails before the ratings are computed leaves the player
    objects alone. *)
Lemma run_match_failure (env : Env) (m : Match.t) (halite_binary : string) (h : heap)
    (f : failure) :
  0 <= Match.num_players m ->
  match_failure env m halite_binary = Some f ->
  let r := Match.run_match env m halite_binary h in
  (exists e, Match.outcome r = Raise e
             /\ (f = TimedOut -> e = TimeoutExpired)
             /\ (f = ProcessError -> e = ValueError "Not enough lines in match output"))
  /\ Match.players_after r = h
  /\ Match.events r =
       [Spawn (Match.get_command m halite_binary); Communicate (Match.total_time_limit m)].
Proof.
  intros Hn. unfold match_failure, Match.run_match.
  destruct (halite env _ _) as [raw code| |e0|e0].
  - destruct (String.eqb raw "" && negb (code =? 0)) eqn:Eempty; cbv iota.
    + intros [= <-]. apply andb_true_iff in Eempty as [Eraw _].
      apply String.eqb_eq in Eraw. subst raw. simpl.
      unfold Match.parse_results_string. simpl.
      replace (Z.of_nat 1 <? 2 + 2 * Match.num_players m) with true
        by (symmetry; apply Z.ltb_lt; lia).
      simpl. split; [eexists; split; [reflexivity|]|]; split; auto; discriminate.
    + destruct (PyStr.decode_ascii raw) as [text|e]; cbv iota.
      * destruct (Match.parse_results_string _) as [[u|e] m2]; simpl.
        -- discriminate.
        -- intros [= <-].
           split; [eexists; split; [reflexivity|]|]; split; auto; discriminate.
      * intros [= <-]. simpl.
        split; [eexists; split; [reflexivity|]|]; split; auto; discriminate.
  - intros [= <-]. simpl.
    split; [eexists; split; [reflexivity|]|]; split; auto; discriminate.
  - discriminate.
  - destruct e0; try discriminate. intros [= <-]. simpl.
    split; [eexists; split; [reflexivity|]|]; split; auto; discriminate.
Qed.

Lemma init_num_players (h : heap) (refs : list nat) (width height seed : Z)
    (limit : float) (keep : bool) :
  Match.num_players (Match.init h refs width height seed limit keep)
    = Z.of_nat (length refs).
Proof. reflexivity. Qed.

(** C1.  When the match of a round fails (the engine outlives the time
    limit, or exits with a nonzero status and no output, or its output is
    not parsed), [run_round] raises and the round ends there: the manager
    object is as before the round, so every player object keeps its
    [ngames], [mu], [sigma] and [skill], and the table is as before, no
    row written and the clock not read; only the requests about the
    engine process are added to the log. *)
Theorem failed_match_no_mutation (env : Env) (clock : nat -> string)
    (indices : list Z) (width height seed : Z) (w : Manager.world)
    (o_players : list nat) (f : failure) :
  Manager.refs_of (length (Manager.players (Manager.mgr w))) indices = Ok o_players ->
  match_failure env
    (Manager.new_match (Manager.mgr w) o_players indices width height seed)
    (Manager.halite_binary (Manager.mgr w)) = Some f ->
  exists e w',
    Manager.run_round env clock indices width height seed w = (Raise e, w')
    /\ (f = TimedOut -> e = TimeoutExpired)
    /\ (f = ProcessError -> e = ValueError "Not enough lines in match output")
    /\ Manager.mgr w' = Manager.mgr w
    /\ Manager.players (Manager.mgr w') = Manager.players (Manager.mgr w)
    /\ Manager.db (Manager.mgr w') = Manager.db (Manager.mgr w)
    /\ Manager.reads w' = Manager.reads w.
Proof.
  intros Hrefs Hfail. unfold Manager.run_round. rewrite Hrefs.
  assert (Hn : 0 <= Match.num_players
                     (Manager.new_match (Manager.mgr w) o_players indices width height seed))
    by (unfold Manager.new_match; rewrite init_num_players; lia).
  destruct (run_match_failure env _ _ (Manager.players (Manager.mgr w)) f Hn Hfail)
    as [(e & He & Ht & Hp) [Hplayers Hevents]].
  cbv zeta. rewrite He, Hplayers, set_players_same.
  eexists. eexists. split; [reflexivity|]. simpl. repeat split; assumption.
Qed.

(** The spec's case of three lines for two participants. *)
Lemma failed_match_no_mutation_witness :
  let env := demo_env (Completed ("a" ++ nl ++ "b" ++ nl ++ "replay.hlt") 0) in
  let w := demo_world 20 50 2 6 (fun _ => 0) in
  exists e w',
    Manager.run_round env demo_clock [0; 1] 20 20 10000 w = (Raise e, w')
    /\ (ParseError = TimedOut -> e = TimeoutExpired)
    /\ (ParseError = ProcessError -> e = ValueError "Not enough lines in match output")
    /\ Manager.mgr w' = Manager.mgr w
    /\ Manager.players (Manager.mgr w') = Manager.players (Manager.mgr w)
    /\ Manager.db (Manager.mgr w') = Manager.db (Manager.mgr w)
    /\ Manager.reads w' = Manager.reads w.
Proof.
  intros env w.
  apply (failed_match_no_mutation env demo_clock [0; 1] 20 20 10000 w [0%nat; 1%nat] ParseError);
    reflexivity.
Defined.

(** An exception of a turn ends [run_rounds]: nothing catches it. *)
Lemma run_rounds_raise (env : Env) (clock : nat -> string) (fuel : nat)
    (w w' : Manager.world) (e : exn) :
  (Manager.rounds (Manager.mgr w) <? 0)
    || (Manager.round_count (Manager.mgr w) <? Manager.rounds (Manager.mgr w)) = true ->
  Manager.run_rounds_body env clock w = (Raise e, w') ->
  Manager.run_rounds env clock (S fuel) w = (Raise e, w').
Proof.
  intros Hcond Hbody. simpl. rewrite Hcond. unfold Manager.bind at 1.
  rewrite Hbody. reflexivity.
Qed.

(** C4, as the code has it.  When the engine outlives the time limit of a
    round, [communicate] raises [TimeoutExpired] and nothing catches it:
    [run_round] raises it, and so does [run_rounds], which runs no further
    round; the manager object is as it was when the round began, and the
    only requests made about the engine process are the spawn and the
    timed wait, no kill. *)
Theorem timeout_is_not_handled (env : Env) (clock : nat -> string) (fuel : nat)
    (w0 wa wb wc wd : Manager.world) (k seed : Z) (chosen : list Z) (size : Z * Z)
    (o_players : list nat) :
  (Manager.rounds (Manager.mgr w0) <? 0)
    || (Manager.round_count (Manager.mgr w0) <? Manager.rounds (Manager.mgr w0)) = true ->
  Manager.pick_count w0 = (Ok k, wa) ->
  Manager.pick_players k wa = (Ok chosen, wb) ->
  Manager.pick_size wb = (Ok size, wc) ->
  Manager.randint (Int 10000) (Int 2073741824) wc = (Ok seed, wd) ->
  Manager.refs_of (length (Manager.players (Manager.mgr wd))) chosen = Ok o_players ->
  let m := Manager.new_match (Manager.mgr wd) o_players chosen (fst size) (snd size) seed in
  let command := Match.get_command m (Manager.halite_binary (Manager.mgr wd)) in
  halite env command (Match.total_time_limit m) = Expired ->
  let w' := Manager.mk_world (Manager.mgr wd) (Manager.rng wd)
              (Manager.log wd ++ [Spawn command; Communicate (Match.total_time_limit m)])
              (Manager.notices wd) (Manager.reads wd) in
  Manager.run_round env clock chosen (fst size) (snd size) seed wd = (Raise TimeoutExpired, w')
  /\ Manager.run_rounds env clock (S fuel) w0 = (Raise TimeoutExpired, w')
  /\ (In Kill (Manager.log w') -> In Kill (Manager.log wd)).
Proof.
  intros Hcond Hk Hchosen Hsize Hseed Hrefs m command Hexp w'.
  assert (Hround : Manager.run_round env clock chosen (fst size) (snd size) seed wd
                   = (Raise TimeoutExpired, w')).
  { unfold Manager.run_round. rewrite Hrefs. cbv zeta.
    fold m. unfold Match.run_match. fold command. rewrite Hexp. simpl.
    rewrite set_players_same. reflexivity. }
  split; [exact Hround|]. split.
  - apply run_rounds_raise; [exact Hcond|].
    unfold Manager.run_rounds_body, Manager.bind.
    rewrite Hk, Hchosen, Hsize, Hseed, Hround. reflexivity.
  - subst w'. simpl. rewrite in_app_iff. intros [H|H]; [exact H|].
    simpl in H. destruct H as [H|[H|[]]]; discriminate.
Qed.

Lemma timeout_is_not_handled_witness :
  let env := demo_env Expired in
  let w0 := demo_world 20 50 2 6 (fun _ => 0) in
  exists w',
    Manager.run_rounds env demo_clock 1 w0 = (Raise TimeoutExpired, w')
    /\ Manager.mgr w' = Manager.mgr w0
    /\ ~ In Kill (Manager.log w').
Proof.
  intros env w0.
  pose (wa := snd (Manager.pick_count w0)).
  pose (wb := snd (Manager.pick_players 2 wa)).
  pose (wc := snd (Manager.pick_size wb)).
  pose (wd := snd (Manager.randint (Int 10000) (Int 2073741824) wc)).
  destruct (timeout_is_not_handled env demo_clock 0 w0 wa wb wc wd 2 10000 [0; 1] (20, 20)
              [0%nat; 1%nat])
    as (_ & Hrun & Hkill); try reflexivity.
  eexists. split; [exact Hrun|]. split; [reflexivity|].
  intros H. apply Hkill in H. exact H.
Defined.

(** C4 as stated fails.  With an engine that outlives the limit, the run
    of one round over the demo store ends with [TimeoutExpired] raised out
    of [run_rounds], and the requests made about the engine process are
    the spawn and the timed wait of 800 seconds: it is never killed. *)
Lemma timeout_leaves_engine_running :
  exists w',
    Manager.run_rounds (demo_env Expired) demo_clock 1
                       (demo_world 20 50 2 6 (fun _ => 0))
      = (Raise TimeoutExpired, w')
    /\ Manager.log w' =
         [Spawn ["./halite"; "-d 20 20"; "-q"; "-s 10000"; "bots/a"; "bots/b"];
          Communicate 800%float]
    /\ ~ In Kill (Manager.log w').
Proof.
  eexists. split; [vm_compute; reflexivity|]. split; [reflexivity|].
  simpl. intros [H|[H|[]]]; discriminate.
Qed.

(** ** C7: registering a player *)

Lemma existsb_has_name (n : string) (rs : list Database.row) :
  existsb (Database.has_name n) rs = true <->
  exists r, In r rs /\ Database.name r = n.
Proof.
  rewrite existsb_exists. split; intros (r & Hin & H); exists r; split; auto.
  - now apply String.eqb_eq.
  - now apply String.eqb_eq.
Qed.

Lemma get_player_one (store : Database.t) (n : string) :
  Database.get_player store [n] = List.filter (Database.has_name n) (Database.rows store).
Proof.
  unfold Database.get_player. apply filter_ext. intros r. simpl. apply orb_false_r.
Qed.

Lemma filter_none_length {A} (f : A -> bool) (l : list A) :
  existsb f l = false -> length (List.filter f l) = 0%nat.
Proof.
  induction l as [|x l IH]; simpl; [reflexivity|].
  intros H. apply orb_false_iff in H as [Hx Hl]. rewrite Hx. auto.
Qed.

Lemma filter_some_length {A} (f : A -> bool) (l : list A) :
  existsb f l = true -> (0 < length (List.filter f l))%nat.
Proof.
  induction l as [|x l IH]; simpl; [discriminate|].
  destruct (f x); simpl; [lia|]. auto.
Qed.

(** C7, as the code has it.  Registering a name that a row already has
    (the very same string) is no failure: [Manager.add_player] returns
    normally after printing the notice that the name is already used, no
    row is added or changed and the clock is not read; the insert of
    [Database.add_player], which the [unique] constraint would refuse, is
    not attempted.  Registering a name that no row has returns normally
    with exactly one row more, the last one, with the next id, the given
    name and path, the clock reading, and the defaults rank 1000, skill
    0.0, mu 50.0, sigma 50/3, ngames 0, active 1 (true); a lookup of the
    name then gives that row and no other.  (The statements of SQLite are
    taken not to fail of their own.) *)
Theorem add_player_registers_once (clock : nat -> string) (name path : string)
    (w : Manager.world) :
  let store := Manager.db (Manager.mgr w) in
  let r := Manager.add_player clock name path w in
  let store' := Manager.db (Manager.mgr (snd r)) in
  ((exists row, In row (Database.rows store) /\ Database.name row = name) ->
     fst r = Ok tt
     /\ Database.rows store' = Database.rows store
     /\ Database.last_id store' = Database.last_id store
     /\ Manager.notices (snd r)
        = List.app (Manager.notices w)
                   ["Bot name " ++ name ++ " already used, no bot added"]
     /\ Manager.reads (snd r) = Manager.reads w
     /\ forall now, Database.add_player store now name path = Raise IntegrityError)
  /\ ((forall row, In row (Database.rows store) -> Database.name row <> name) ->
      let row' := Database.mk_row (Database.last_id store + 1) name path
                    (clock (Manager.reads w)) 1000 0%float 50%float (50 / 3)%float 0 1 in
      fst r = Ok tt
      /\ Database.rows store' = (Database.rows store ++ [row'])%list
      /\ Database.last_id store' = Database.last_id store + 1
      /\ Database.get_player store' [name] = [row']
      /\ Manager.notices (snd r) = Manager.notices w
      /\ Manager.reads (snd r) = S (Manager.reads w)).
Proof.
  intros store r store'. split.
  - intros Hdup. apply existsb_has_name in Hdup.
    assert (Hr : r = (Ok tt,
                      Manager.mk_world (Manager.mgr w) (Manager.rng w) (Manager.log w)
                        (List.app (Manager.notices w)
                           ["Bot name " ++ name ++ " already used, no bot added"])
                        (Manager.reads w))).
    { unfold r, Manager.add_player. rewrite get_player_one. fold store.
      pose proof (filter_some_length _ _ Hdup) as Hlen.
      replace (Z.of_nat (length (List.filter (Database.has_name name)
                                             (Database.rows store))) =? 0)
        with false by (symmetry; apply Z.eqb_neq; lia).
      reflexivity. }
    unfold store'. rewrite Hr. simpl.
    split; [reflexivity|]. split; [reflexivity|]. split; [reflexivity|].
    split; [reflexivity|]. split; [reflexivity|].
    intros now. unfold Database.add_player. now rewrite Hdup.
  - intros Hfresh row'.
    assert (Hnone : existsb (Database.has_name name) (Database.rows store) = false).
    { destruct (existsb _ _) eqn:E; [|reflexivity].
      apply existsb_has_name in E as (r0 & Hin & Hr0). now destruct (Hfresh r0 Hin). }
    assert (Hr : r = (Ok tt,
                      Manager.mk_world
                        (Manager.set_db (Manager.mgr w)
                           (Database.mk (Database.rows store ++ [row'])
                                        (Database.last_id store + 1)))
                        (Manager.rng w) (Manager.log w) (Manager.notices w)
                        (S (Manager.reads w)))).
    { unfold r, Manager.add_player. rewrite get_player_one. fold store.
      rewrite (filter_none_length _ _ Hnone). simpl.
      unfold Manager.bind, Manager.now, Database.add_player. simpl. fold store.
      rewrite Hnone. reflexivity. }
    unfold store'. rewrite Hr. simpl.
    split; [reflexivity|]. split; [reflexivity|]. split; [reflexivity|].
    split; [|split; reflexivity].
    rewrite get_player_one. simpl. rewrite List.filter_app. simpl.
    unfold Database.has_name at 2. simpl. rewrite String.eqb_refl.
    replace (List.filter (Database.has_name name) (Database.rows store)) with (@nil Database.row);
      [reflexivity|].
    symmetry. apply length_zero_iff_nil. now apply filter_none_length.
Qed.

Lemma add_player_registers_once_witness :
  let w := demo_world 20 50 2 6 (fun _ => 0) in
  let dup := Manager.add_player demo_clock "c" "bots/other" w in
  let new := Manager.add_player demo_clock "C" "bots/other" w in
  (fst dup = Ok tt
   /\ Database.rows (Manager.db (Manager.mgr (snd dup))) = Database.rows demo_db
   /\ Manager.notices (snd dup) = ["Bot name c already used, no bot added"])
  /\ (fst new = Ok tt
      /\ Database.rows (Manager.db (Manager.mgr (snd new)))
         = (Database.rows demo_db ++
              [Database.mk_row 6 "C" "bots/other" "03.11.2016 10:00:00" 1000
                 0%float 50%float (50 / 3)%float 0 1])%list).
Proof.
  intros w dup new. split.
  - destruct (proj1 (add_player_registers_once demo_clock "c" "bots/other" w))
      as (Hok & Hrows & _ & Hnote & _).
    + exists (demo_row 3 "c"). split; [simpl; auto | reflexivity].
    + split; [exact Hok|]. split; [exact Hrows | exact Hnote].
  - destruct (proj2 (add_player_registers_once demo_clock "C" "bots/other" w))
      as (Hok & Hrows & _).
    + intros r Hin. simpl in Hin.
      destruct Hin as [<-|[<-|[<-|[<-|[<-|[]]]]]]; discriminate.
    + split; [exact Hok | exact Hrows].
Defined.

(** C7 as stated fails: registering the name "c" a second time does not
    fail.  The call returns normally, what tells of the duplicate is the
    printed notice, and the insert that the [unique] constraint would
    refuse is never made: the table has its five rows, the row of "c"
    with its first path. *)
Lemma duplicate_name_is_no_failure :
  let w := demo_world 20 50 2 6 (fun _ => 0) in
  let r := Manager.add_player demo_clock "c" "bots/other" w in
  fst r = Ok tt
  /\ Manager.notices (snd r) = ["Bot name c already used, no bot added"]
  /\ Manager.db (Manager.mgr (snd r)) = demo_db
  /\ Database.get_player demo_db ["c"] = [demo_row 3 "c"].
Proof. intros w r. repeat split. Qed.

(** ** C8: what a rating update stores *)

Lemma SFmul_comm (x y : spec_float) : SFmul prec emax x y = SFmul prec emax y x.
Proof.
  destruct x as [sx|sx| |sx mx ex], y as [sy|sy| |sy my ey]; simpl;
    try reflexivity; try (now rewrite xorb_comm).
  now rewrite xorb_comm, Pos.mul_comm, Z.add_comm.
Qed.

(** Multiplication of binary64 values commutes. *)
Lemma float_mul_comm (x y : float) : (x * y)%float = (y * x)%float.
Proof.
  rewrite <- (SF2Prim_Prim2SF (x * y)), <- (SF2Prim_Prim2SF (y * x)), !mul_spec.
  f_equal. apply SFmul_comm.
Qed.

(** The first referenced player of the name gets the rating and the skill. *)
Lemma update_player_skill_first (h : heap) (before after : list nat) (r : nat)
    (p : Player.t) (data : GaussianRating) :
  Forall (fun r' => forall q, h !! r' = Some q -> Player.name q <> Player.name p) before ->
  h !! r = Some p ->
  update_player_skill h (before ++ r :: after) (Player.name p) data =
    <[r := Player.update_skill (Player.set_rating p (mean data) (stdev data))]> h.
Proof.
  intros Hbefore Hr. induction Hbefore as [|r' before Hr' _ IH]; simpl.
  - rewrite Hr, String.eqb_refl. reflexivity.
  - destruct (h !! r') as [q|] eqn:Eq; [|exact IH].
    specialize (Hr' q eq_refl). apply String.eqb_neq in Hr'. rewrite Hr'. exact IH.
Qed.

(** C8.  A rating update of a player, the first referenced player of its
    name, with posterior [mean] and [stdev]: the player object gets
    [mu = mean], [sigma = stdev] and [skill = mu - 3 * sigma]; saving it
    rewrites the rows of that name, and only them, to that skill, mu and
    sigma, with [ngames] one more than before and [lastseen] the clock
    reading of the save. *)
Theorem rating_update_stored (h : heap) (before after : list nat) (r : nat)
    (p : Player.t) (data : GaussianRating) (store : Database.t) (now : string) :
  Forall (fun r' => forall q, h !! r' = Some q -> Player.name q <> Player.name p) before ->
  h !! r = Some p ->
  let h' := update_player_skill h (before ++ r :: after) (Player.name p) data in
  exists p',
    h' !! r = Some p'
    /\ Player.name p' = Player.name p
    /\ Player.mu p' = mean data
    /\ Player.sigma p' = stdev data
    /\ Player.skill p' = (Player.mu p' - 3 * Player.sigma p')%float
    /\ Player.ngames p' = Player.ngames p
    /\ Database.rows (Database.save_player store now p') =
         map (fun row =>
                if String.eqb (Database.name row) (Player.name p) then
                  Database.mk_row (Database.id row) (Database.name row) (Database.path row)
                    now (Database.rank row)
                    (mean data - 3 * stdev data)%float (mean data) (stdev data)
                    (Database.ngames row + 1) (Database.active row)
                else row)
             (Database.rows store).
Proof.
  intros Hbefore Hr h'. subst h'.
  rewrite (update_player_skill_first _ _ _ _ _ _ Hbefore Hr).
  eexists. split.
  - apply list_lookup_insert_eq. now apply lookup_lt_Some in Hr.
  - simpl. repeat split; try reflexivity.
    + now rewrite float_mul_comm.
    + apply map_ext. intros row. unfold Database.has_name.
      destruct (String.eqb _ _); [|reflexivity].
      unfold Database.set_skill. now rewrite float_mul_comm.
Qed.

Lemma rating_update_stored_witness :
  let h := [Player.init "a" "bots/a"; Player.init "b" "bots/b"] in
  let data := {| mean := 30%float; stdev := 5%float |} in
  exists p',
    update_player_skill h [0%nat; 1%nat] "b" data !! 1%nat = Some p'
    /\ Player.name p' = "b"
    /\ Player.mu p' = 30%float
    /\ Player.sigma p' = 5%float
    /\ Player.skill p' = (Player.mu p' - 3 * Player.sigma p')%float
    /\ Player.ngames p' = 0
    /\ Database.rows (Database.save_player demo_db "03.11.2016 10:00:00" p') =
         map (fun row =>
                if String.eqb (Database.name row) "b" then
                  Database.mk_row (Database.id row) (Database.name row) (Database.path row)
                    "03.11.2016 10:00:00" (Database.rank row)
                    (30 - 3 * 5)%float 30%float 5%float
                    (Database.ngames row + 1) (Database.active row)
                else row)
             (Database.rows demo_db).
Proof.
  intros h data.
  apply (rating_update_stored h [0%nat] [] 1%nat (Player.init "b" "bots/b") data demo_db
           "03.11.2016 10:00:00").
  - constructor; [|constructor]. intros q [= <-]. discriminate.
  - reflexivity.
Defined.

(** ** C6: the ranks after a round *)

(** *** The order of SQLite on binary64 values *)

Lemma sql_lt_spec (a b : float) :
  Database.sql_lt a b = sf_sql_lt (Prim2SF a) (Prim2SF b).
Proof.
  unfold Database.sql_lt, sf_sql_lt, is_nan. now rewrite !FloatAxioms.eqb_spec, FloatAxioms.ltb_spec.
Qed.

Lemma sf_sql_lt_key (x y : spec_float) :
  sf_sql_lt x y = true <-> key_lt (sf_key x) (sf_key y).
Proof.
  unfold sf_sql_lt, SFeqb, SFltb, key_lt.
  destruct x as [sx|sx| |sx mx ex], y as [sy|sy| |sy my ey]; simpl;
    rewrite ?Z.compare_refl, ?Pos.compare_cont_refl; simpl;
    try destruct sx; try destruct sy; simpl;
    try (split; [discriminate | lia]);
    try (split; [lia | reflexivity]);
    try (split; [reflexivity | lia]).
  all: destruct (Z.compare_spec ex ey);
    try (split; [discriminate | lia]);
    try (split; [lia | reflexivity]);
    try (split; [reflexivity | lia]).
  all: change (Pos.compare_cont Eq mx my) with (Pos.compare mx my);
    destruct (Pos.compare_spec mx my); simpl;
    try (split; [discriminate | lia]);
    try (split; [lia | reflexivity]);
    try (split; [reflexivity | lia]).
Qed.

Lemma sql_lt_key (a b : float) :
  Database.sql_lt a b = true <-> key_lt (sf_key (Prim2SF a)) (sf_key (Prim2SF b)).
Proof. rewrite sql_lt_spec. apply sf_sql_lt_key. Qed.

Lemma sql_lt_key_false (a b : float) :
  Database.sql_lt a b = false <-> ~ key_lt (sf_key (Prim2SF a)) (sf_key (Prim2SF b)).
Proof.
  rewrite <- sql_lt_key. destruct (Database.sql_lt a b); split; congruence.
Qed.

Lemma sql_lt_irrefl (a : float) : Database.sql_lt a a = false.
Proof. apply sql_lt_key_false. unfold key_lt. lia. Qed.

Lemma sql_lt_asym (a b : float) :
  Database.sql_lt a b = true -> Database.sql_lt b a = false.
Proof. rewrite sql_lt_key, sql_lt_key_false. unfold key_lt. lia. Qed.

(** "Not below" is transitive. *)
Lemma sql_lt_negtrans (a b c : float) :
  Database.sql_lt a b = false -> Database.sql_lt b c = false ->
  Database.sql_lt a c = false.
Proof. rewrite !sql_lt_key_false. unfold key_lt. lia. Qed.

(** *** The query [order by skill desc] *)

Lemma insert_desc_perm (r : Database.row) (l : list Database.row) :
  Permutation (Database.insert_desc r l) (r :: l).
Proof.
  induction l as [|x l IH]; simpl; [reflexivity|].
  destruct (Database.sql_lt _ _); [reflexivity|].
  rewrite IH. apply perm_swap.
Qed.

Lemma fold_insert_perm (rs acc : list Database.row) :
  Permutation (fold_left (fun acc r => Database.insert_desc r acc) rs acc) (rs ++ acc).
Proof.
  revert acc. induction rs as [|r rs IH]; intros acc; simpl; [reflexivity|].
  rewrite IH, insert_desc_perm. symmetry. apply Permutation_middle.
Qed.

Lemma order_by_skill_desc_perm (rs : list Database.row) :
  Permutation (Database.order_by_skill_desc rs) rs.
Proof.
  unfold Database.order_by_skill_desc. rewrite fold_insert_perm. now rewrite app_nil_r.
Qed.

Lemma insert_desc_sorted (r : Database.row) (l : list Database.row) :
  StronglySorted not_below l -> StronglySorted not_below (Database.insert_desc r l).
Proof.
  induction 1 as [|x l Hl IH Hx]; simpl.
  - constructor; constructor.
  - destruct (Database.sql_lt (Database.skill x) (Database.skill r)) eqn:E.
    + constructor; [constructor; assumption|].
      pose proof (sql_lt_asym _ _ E) as Hrx.
      constructor; [exact Hrx|].
      rewrite List.Forall_forall in Hx |- *. intros y Hy.
      exact (sql_lt_negtrans _ _ _ Hrx (Hx y Hy)).
    + constructor; [exact IH|].
      rewrite List.Forall_forall in Hx |- *. intros y Hy.
      apply (Permutation_in _ (insert_desc_perm r l)) in Hy.
      destruct Hy as [<-|Hy]; [exact E | exact (Hx y Hy)].
Qed.

Lemma fold_insert_sorted (rs acc : list Database.row) :
  StronglySorted not_below acc ->
  StronglySorted not_below (fold_left (fun acc r => Database.insert_desc r acc) rs acc).
Proof.
  revert acc. induction rs as [|r rs IH]; intros acc Hacc; simpl; [exact Hacc|].
  apply IH. now apply insert_desc_sorted.
Qed.

Lemma order_by_skill_desc_sorted (rs : list Database.row) :
  StronglySorted not_below (Database.order_by_skill_desc rs).
Proof. apply fold_insert_sorted. constructor. Qed.

Lemma sorted_lookup (l : list Database.row) (i j : nat) (x y : Database.row) :
  StronglySorted not_below l ->
  l !! i = Some x -> l !! j = Some y -> (i < j)%nat -> not_below x y.
Proof.
  intros Hs. revert i j. induction Hs as [|a l Hl IH Ha]; intros i j Hi Hj Hij.
  - discriminate.
  - destruct j as [|j]; [lia|]. simpl in Hj. destruct i as [|i]; simpl in Hi.
    + injection Hi as <-. rewrite List.Forall_forall in Ha. apply Ha.
      apply list_elem_of_In. eapply list_elem_of_lookup_2; eauto.
    + apply (IH i j Hi Hj). lia.
Qed.

(** *** The loop that writes the ranks *)

Lemma position_None (n : string) (names : list string) :
  ~ In n names -> position n names = None.
Proof.
  induction names as [|m rest IH]; simpl; [reflexivity|].
  intros H. destruct (String.eqb_spec m n) as [->|_]; [tauto|].
  rewrite IH; [reflexivity | tauto].
Qed.

Lemma position_Some (n : string) (names : list string) (k : nat) :
  position n names = Some k -> names !! k = Some n.
Proof.
  revert k. induction names as [|m rest IH]; simpl; intros k; [discriminate|].
  destruct (String.eqb_spec m n) as [->|_].
  - now intros [= <-].
  - destruct (position n rest) as [k'|]; simpl; [|discriminate].
    intros [= <-]. simpl. now apply IH.
Qed.

Lemma position_In (n : string) (names : list string) :
  In n names -> exists k, position n names = Some k.
Proof.
  induction names as [|m rest IH]; simpl; [tauto|].
  intros H. destruct (String.eqb_spec m n) as [->|Hne]; [eauto|].
  destruct H as [H|H]; [contradiction|].
  destruct (IH H) as [k ->]. simpl. eauto.
Qed.

(** In a list without repetition each name stands at its own position. *)
Lemma position_self (names : list string) :
  NoDup names ->
  map (fun n => position n names) names = map Some (seq 0 (length names)).
Proof.
  induction 1 as [|m rest Hm Hrest IH]; simpl; [reflexivity|].
  rewrite String.eqb_refl. f_equal.
  rewrite <- seq_shift, map_map.
  rewrite <- (map_map Some (option_map S)), <- IH, map_map.
  apply map_ext_in. intros n Hn. apply list_elem_of_In in Hn.
  destruct (String.eqb_spec m n) as [->|_]; [contradiction|reflexivity].
Qed.

Lemma assign_ranks_rows (names : list string) :
  forall (self : Database.t) (i : Z),
    NoDup names ->
    Database.rows (Database.assign_ranks self i names) =
      map (ranked i names) (Database.rows self).
Proof.
  induction names as [|n rest IH]; intros self i Hnd; simpl.
  - symmetry. apply map_id.
  - inversion Hnd as [|? ? Hn Hrest]; subst.
    rewrite list_elem_of_In in Hn.
    rewrite (IH _ _ Hrest). simpl. rewrite map_map.
    apply map_ext. intros r. unfold ranked, Database.has_name. simpl.
    rewrite (String.eqb_sym n).
    destruct (String.eqb_spec (Database.name r) n) as [E|E]; simpl.
    + rewrite E, (position_None _ _ Hn). f_equal. lia.
    + destruct (position (Database.name r) rest); simpl; [|reflexivity].
      f_equal. lia.
Qed.

Lemma NoDup_map_inj {A B} (f : A -> B) (l : list A) (x y : A) :
  NoDup (map f l) -> In x l -> In y l -> f x = f y -> x = y.
Proof.
  induction l as [|a l IH]; simpl; [tauto|].
  intros Hnd Hx Hy Hf. inversion Hnd as [|? ? Ha Hl]; subst.
  rewrite list_elem_of_In in Ha.
  destruct Hx as [->|Hx], Hy as [->|Hy]; auto.
  - exfalso. apply Ha. rewrite Hf. now apply in_map.
  - exfalso. apply Ha. rewrite <- Hf. now apply in_map.
Qed.

(** C6.  On a table whose names are pairwise different (the [unique]
    constraint of the schema), [update_player_ranks] rewrites the rank of
    every row and nothing else; the ranks written are a permutation of
    1..N for the N rows of the table (N = 0 included), so there is no gap
    and no duplicate; and they follow the skill in descending order: a
    row of greater skill has the smaller rank. *)
Theorem update_player_ranks_dense (store : Database.t) :
  List.NoDup (map Database.name (Database.rows store)) ->
  let store' := Database.update_player_ranks store in
  map (Database.set_rank 0) (Database.rows store')
    = map (Database.set_rank 0) (Database.rows store)
  /\ Permutation (map Database.rank (Database.rows store'))
                 (map Z.of_nat (seq 1 (length (Database.rows store))))
  /\ (forall r1 r2,
        In r1 (Database.rows store') -> In r2 (Database.rows store') ->
        Database.sql_lt (Database.skill r2) (Database.skill r1) = true ->
        Database.rank r1 < Database.rank r2).
Proof.
  intros Hnd store'. apply NoDup_ListNoDup in Hnd.
  set (rows := Database.rows store) in *.
  set (sorted := Database.order_by_skill_desc rows).
  set (names := map Database.name sorted).
  assert (Hperm : Permutation sorted rows) by apply order_by_skill_desc_perm.
  assert (Hnames : NoDup names).
  { apply (NoDup_Permutation_proper _ _ (Permutation_map Database.name Hperm)). exact Hnd. }
  assert (Hrows' : Database.rows store' = map (ranked 0 names) rows)
    by (apply assign_ranks_rows; exact Hnames).
  assert (Hpos : forall r, In r sorted ->
                   exists k, position (Database.name r) names = Some k
                             /\ sorted !! k = Some r).
  { intros r Hr.
    destruct (position_In (Database.name r) names) as [k Hk]; [now apply in_map|].
    exists k. split; [exact Hk|].
    apply position_Some in Hk. unfold names in Hk.
    change (map Database.name sorted) with (Database.name <$> sorted) in Hk.
    rewrite list_lookup_fmap in Hk.
    destruct (sorted !! k) as [s|] eqn:Es; [|discriminate].
    injection Hk as Hk. f_equal.
    apply (NoDup_map_inj Database.name sorted); auto.
    apply list_elem_of_In. eapply list_elem_of_lookup_2; eauto. }
  rewrite Hrows'. split; [|split].
  - rewrite map_map. apply map_ext. intros r. unfold ranked.
    destruct (position _ _); reflexivity.
  - rewrite (Permutation_map Database.rank (Permutation_map (ranked 0 names) (Permutation_sym Hperm))).
    rewrite <- (Permutation_length Hperm).
    replace (length sorted) with (length names) by apply length_map.
    rewrite map_map.
    replace (map (fun r => Database.rank (ranked 0 names r)) sorted)
      with (map (fun o : option nat =>
                   match o with Some k => Z.of_nat k + 1 | None => 0 end)
                (map (fun n => position n names) names)).
    + rewrite (position_self _ Hnames), map_map, <- seq_shift, map_map.
      apply Permutation_refl'. apply map_ext. intros k. lia.
    + unfold names at 2. rewrite !map_map. apply map_ext_in. intros r Hr.
      destruct (Hpos r Hr) as (k & Hk & _). unfold ranked. rewrite Hk. simpl. lia.
  - intros r1 r2 H1 H2 Hlt.
    apply in_map_iff in H1 as (o1 & <- & H1). apply in_map_iff in H2 as (o2 & <- & H2).
    apply (Permutation_in _ (Permutation_sym Hperm)) in H1, H2.
    destruct (Hpos o1 H1) as (k1 & Hk1 & Hs1). destruct (Hpos o2 H2) as (k2 & Hk2 & Hs2).
    unfold ranked in *. rewrite Hk1, Hk2 in *. simpl in *.
    destruct (lt_eq_lt_dec k1 k2) as [[Hlt12|Heq]|Hgt]; [lia| |].
    + subst k2. rewrite Hs1 in Hs2. injection Hs2 as <-.
      rewrite sql_lt_irrefl in Hlt. discriminate.
    + pose proof (sorted_lookup sorted k2 k1 o2 o1
                    (order_by_skill_desc_sorted rows) Hs2 Hs1 Hgt) as Hnb.
      unfold not_below in Hnb. congruence.
Qed.

Lemma update_player_ranks_dense_witness :
  let store :=
    Database.mk
      [Database.mk_row 1 "a" "bots/a" "" 1000 21.5%float 30%float 2.5%float 4 1;
       Database.mk_row 2 "b" "bots/b" "" 1000 33.25%float 40%float 2.25%float 4 1;
       Database.mk_row 3 "c" "bots/c" "" 1000 21.5%float 30%float 2.5%float 2 0;
       Database.mk_row 4 "d" "bots/d" "" 1000 0%float 50%float (50 / 3)%float 0 1] 4 in
  map Database.rank (Database.rows (Database.update_player_ranks store)) = [2; 1; 3; 4]
  /\ Permutation (map Database.rank (Database.rows (Database.update_player_ranks store)))
                 (map Z.of_nat (seq 1 4)).
Proof.
  intros store. split; [reflexivity|].
  apply (update_player_ranks_dense store).
  repeat constructor; simpl; intuition discriminate.
Defined.

(** ** C5: the participants of a round *)

(** [randint] on integers returns a value of the closed range, and does
    return when the range is not empty. *)
Lemma randint_int_range (g g' : Random.t) (a b r : Z) :
  Random.randint g (Int a) (Int b) = (Ok r, g') -> a <= r <= b.
Proof.
  unfold Random.randint, Random.randrange. simpl.
  destruct (0 <? b + 1 - a) eqn:E; [|discriminate].
  apply Z.ltb_lt in E. intros [= <- _].
  pose proof (Z.mod_pos_bound (Random.tape g (Random.pos g)) (b + 1 - a) E). lia.
Qed.

Lemma randint_int_total (g : Random.t) (a b : Z) :
  a <= b -> exists r g', Random.randint g (Int a) (Int b) = (Ok r, g').
Proof.
  intros H. unfold Random.randint, Random.randrange. simpl.
  replace (0 <? b + 1 - a) with true by (symmetry; apply Z.ltb_lt; lia). eauto.
Qed.

Lemma manager_randint_range (w w' : Manager.world) (a b r : Z) :
  Manager.randint (Int a) (Int b) w = (Ok r, w') ->
  a <= r <= b /\ Manager.mgr w' = Manager.mgr w.
Proof.
  unfold Manager.randint.
  destruct (Random.randint (Manager.rng w) (Int a) (Int b)) as [res g] eqn:E.
  intros [= -> <-]. split; [eapply randint_int_range; eauto | reflexivity].
Qed.

Lemma manager_randint_total (w : Manager.world) (a b : Z) :
  a <= b ->
  exists r w', Manager.randint (Int a) (Int b) w = (Ok r, w')
               /\ Manager.mgr w' = Manager.mgr w.
Proof.
  intros H. unfold Manager.randint.
  destruct (randint_int_total (Manager.rng w) a b H) as (r & g' & ->). eauto.
Qed.

Lemma getitem_In {A} (l : list A) (i : Z) (x : A) :
  PyList.getitem l i = Ok x -> In x l.
Proof.
  unfold PyList.getitem. destruct (PyList.norm_index _ _) as [k|]; [|discriminate].
  destruct (l !! k) as [y|] eqn:E; [|discriminate]. intros [= <-].
  apply list_elem_of_In. eapply list_elem_of_lookup_2; eauto.
Qed.

Lemma getitem_in_range {A} (l : list A) (i : Z) :
  0 <= i < Z.of_nat (length l) -> exists x, PyList.getitem l i = Ok x.
Proof.
  intros H. unfold PyList.getitem, PyList.norm_index.
  replace (0 <=? i) with true by (symmetry; apply Z.leb_le; lia).
  replace (i <? Z.of_nat (length l)) with true by (symmetry; apply Z.ltb_lt; lia).
  simpl. destruct (l !! Z.to_nat i) eqn:E; [eauto|].
  apply lookup_ge_None in E. lia.
Qed.

(** [remove] takes out a member, and what is left of a list without
    repetition has neither repetition nor the member. *)
Lemma remove_In (x : Z) (l : list Z) :
  In x l -> exists l', PyList.remove x l = Ok l'.
Proof.
  induction l as [|y l IH]; simpl; [tauto|].
  intros H. destruct (x =? y) eqn:E; [eauto|].
  apply Z.eqb_neq in E. destruct H as [H|H]; [congruence|].
  destruct (IH H) as [l' ->]. eauto.
Qed.

Lemma remove_spec (x : Z) (l l' : list Z) :
  PyList.remove x l = Ok l' ->
  List.NoDup l ->
  List.NoDup l' /\ ~ In x l' /\ (forall y, In y l' -> In y l)
  /\ length l = S (length l').
Proof.
  revert l'. induction l as [|y l IH]; simpl; intros l' H Hnd; [discriminate|].
  inversion Hnd as [|? ? Hy Hl]; subst.
  destruct (x =? y) eqn:E.
  - apply Z.eqb_eq in E. subst y. injection H as <-. auto.
  - apply Z.eqb_neq in E.
    destruct (PyList.remove x l) as [r|] eqn:Er; [|discriminate].
    injection H as <-. destruct (IH r eq_refl Hl) as (Hnd' & Hx & Hsub & Hlen).
    repeat split.
    + constructor; auto.
    + simpl. intros [H|H]; [congruence | auto].
    + simpl. intros z [H|H]; auto.
    + simpl. lia.
Qed.

(** The loop of [pick_players] adds [fuel] members of the open set, all
    different, to the players chosen so far, and touches nothing but the
    random generator. *)
Lemma pick_loop_spec (fuel : nat) :
  forall (open_set so_far result : list Z) (w w' : Manager.world),
    Manager.pick_loop fuel open_set so_far w = (Ok result, w') ->
    List.NoDup open_set ->
    exists picked,
      result = (so_far ++ picked)%list
      /\ length picked = fuel
      /\ List.NoDup picked
      /\ (forall i, In i picked -> In i open_set)
      /\ Manager.mgr w' = Manager.mgr w.
Proof.
  induction fuel as [|fuel IH]; intros open_set so_far result w w' H Hnd; simpl in H.
  - injection H as <- <-. exists []. rewrite app_nil_r.
    repeat split; auto; [constructor | intros i []].
  - unfold Manager.bind at 1 in H.
    destruct (Manager.randint _ _ w) as [[i|e] w1] eqn:Ei; [|discriminate].
    apply manager_randint_range in Ei as [_ Hm1].
    unfold Manager.bind at 1, Manager.lift at 1 in H.
    destruct (PyList.getitem open_set i) as [chosen|e] eqn:Ec; [|discriminate].
    unfold Manager.bind at 1, Manager.lift at 1 in H.
    destruct (PyList.remove chosen open_set) as [open'|e] eqn:Er; [|discriminate].
    destruct (remove_spec _ _ _ Er Hnd) as (Hnd' & Hout & Hsub & _).
    destruct (IH _ _ _ _ _ H Hnd') as (picked & -> & Hlen & Hpn & Hpin & Hm).
    exists (chosen :: picked). repeat split.
    + now rewrite <- app_assoc.
    + simpl. now rewrite Hlen.
    + constructor; [|exact Hpn]. intros Hc. apply Hout. now apply Hpin.
    + intros j [<-|Hj]; [eapply getitem_In; eauto | apply Hsub, Hpin, Hj].
    + congruence.
Qed.

(** The loop does not raise while the open set has members left. *)
Lemma pick_loop_total (fuel : nat) :
  forall (open_set so_far : list Z) (w : Manager.world),
    (fuel <= length open_set)%nat ->
    List.NoDup open_set ->
    exists result w', Manager.pick_loop fuel open_set so_far w = (Ok result, w').
Proof.
  induction fuel as [|fuel IH]; intros open_set so_far w Hlen Hnd; simpl.
  - unfold Manager.ret. eauto.
  - destruct (manager_randint_total w 0 (Z.of_nat (length open_set) - 1) ltac:(lia))
      as (i & w1 & Ei & _).
    unfold Manager.bind at 1. rewrite Ei.
    apply manager_randint_range in Ei as [Hi _].
    destruct (getitem_in_range open_set i ltac:(lia)) as [chosen Ec].
    unfold Manager.bind at 1, Manager.lift at 1. rewrite Ec.
    destruct (remove_In chosen open_set (getitem_In _ _ _ Ec)) as [open' Er].
    unfold Manager.bind at 1, Manager.lift at 1. rewrite Er.
    destruct (remove_spec _ _ _ Er Hnd) as (Hnd' & _ & _ & Hl).
    apply IH; [lia | exact Hnd'].
Qed.

Lemma open_set_NoDup (n : nat) : List.NoDup (map Z.of_nat (seq 0 n)).
Proof.
  apply Finite.Injective_map_NoDup; [intros x y; lia | apply List.seq_NoDup].
Qed.

Lemma open_set_In (n : nat) (i : Z) :
  In i (map Z.of_nat (seq 0 n)) <-> 0 <= i < Z.of_nat n.
Proof.
  rewrite in_map_iff. split.
  - intros (k & <- & Hk). apply in_seq in Hk. lia.
  - intros H. exists (Z.to_nat i). split; [lia|]. apply in_seq. lia.
Qed.

(** The selection of a round, [pick_count] then [pick_players], as the
    code has it: with at least two players loaded and [players_max] at
    least 2 it does not raise, and it returns [k] pairwise different
    indices into the list of loaded players, where
    [2 <= k <= min(players_max, number of loaded players)]; the lower
    bound is the constant 2, whatever [players_min]. *)
Theorem selection_spec (w : Manager.world) :
  let pool := length (Manager.players (Manager.mgr w)) in
  let top := Z.min (Manager.players_max (Manager.mgr w)) (Z.of_nat pool) in
  (2 <= top ->
   exists chosen w',
     Manager.bind Manager.pick_count Manager.pick_players w = (Ok chosen, w'))
  /\ (forall chosen w',
        Manager.bind Manager.pick_count Manager.pick_players w = (Ok chosen, w') ->
        2 <= Z.of_nat (length chosen) <= top
        /\ List.NoDup chosen
        /\ (forall i, In i chosen -> 0 <= i < Z.of_nat pool)
        /\ Manager.mgr w' = Manager.mgr w).
Proof.
  intros pool top. split.
  - intros Htop. unfold Manager.bind, Manager.pick_count.
    destruct (manager_randint_total w 2 top Htop) as (k & w1 & Ek & Hm).
    fold pool. fold top. rewrite Ek.
    apply manager_randint_range in Ek as [Hk _].
    unfold Manager.pick_players. rewrite Hm. fold pool.
    apply pick_loop_total; [|apply open_set_NoDup].
    rewrite length_map, length_seq. lia.
  - intros chosen w' H. unfold Manager.bind, Manager.pick_count in H.
    fold pool in H. fold top in H.
    destruct (Manager.randint (Int 2) (Int top) w) as [[k|e] w1] eqn:Ek; [|discriminate].
    apply manager_randint_range in Ek as [Hk Hm].
    unfold Manager.pick_players in H. rewrite Hm in H. fold pool in H.
    destruct (pick_loop_spec _ _ _ _ _ _ H (open_set_NoDup pool))
      as (picked & -> & Hlen & Hnd & Hin & Hm').
    simpl. split; [lia|]. split; [exact Hnd|]. split; [|congruence].
    intros i Hi. apply open_set_In, Hin, Hi.
Qed.

Lemma selection_spec_witness :
  let w := demo_world 20 50 2 6 (fun n => Z.of_nat n + 3) in
  exists chosen w',
    Manager.bind Manager.pick_count Manager.pick_players w = (Ok chosen, w')
    /\ 2 <= Z.of_nat (length chosen) <= 5.
Proof.
  intros w.
  destruct (proj1 (selection_spec w)) as (chosen & w' & H); [vm_compute; discriminate|].
  exists chosen, w'. split; [exact H|].
  destruct (proj2 (selection_spec w) chosen w' H) as (Hk & _).
  exact Hk.
Defined.

(** C5.  With [players_min = 2], the value every manager of the program
    has ([Manager(halite_command)] takes the default), a pool of at least
    [players_min] loaded players and [players_min <= players_max]: the
    selection of a round, [pick_count] then [pick_players], does not
    raise, and it returns [k] pairwise different indices into the list of
    loaded players, each player taken out of the open set once chosen,
    with [players_min <= k <= min(players_max, pool)]; the manager is as
    before.  With a pool of 5 and [players_max = 6], [k] is within 2..5. *)
Theorem selection_within_bounds (w : Manager.world) :
  let m := Manager.mgr w in
  let pool := Z.of_nat (length (Manager.players m)) in
  Manager.players_min m = 2 ->
  Manager.players_min m <= pool ->
  Manager.players_min m <= Manager.players_max m ->
  exists chosen w',
    Manager.bind Manager.pick_count Manager.pick_players w = (Ok chosen, w')
    /\ Manager.players_min m <= Z.of_nat (length chosen)
                             <= Z.min (Manager.players_max m) pool
    /\ List.NoDup chosen
    /\ (forall i, In i chosen -> 0 <= i < pool)
    /\ Manager.mgr w' = Manager.mgr w
    /\ (pool = 5 -> Manager.players_max m = 6 -> 2 <= Z.of_nat (length chosen) <= 5).
Proof.
  intros m pool Hmin Hpool Hmax.
  set (top := Z.min (Manager.players_max m) pool).
  assert (Htop : 2 <= top) by (unfold top; lia).
  destruct (manager_randint_total w 2 top Htop) as (k & w1 & Ek & Hm).
  pose proof Ek as Hk. apply manager_randint_range in Hk as [Hk _].
  assert (Hlen1 : length (Manager.players (Manager.mgr w1)) = length (Manager.players m))
    by (now rewrite Hm).
  destruct (pick_loop_total (Z.to_nat k)
              (map Z.of_nat (seq 0 (length (Manager.players (Manager.mgr w1))))) [] w1)
    as (chosen & w2 & Eloop);
    [rewrite length_map, length_seq, Hlen1; unfold top, pool in *; lia
    | apply open_set_NoDup |].
  destruct (pick_loop_spec _ _ _ _ _ _ Eloop (open_set_NoDup _))
    as (picked & Hpicked & Hlen & Hnd & Hin & Hm2).
  simpl in Hpicked. subst picked.
  exists chosen, w2.
  split.
  { unfold Manager.bind, Manager.pick_count. fold m. fold pool. fold top.
    rewrite Ek. exact Eloop. }
  assert (Hk' : Z.of_nat (length chosen) = k) by lia.
  split; [rewrite Hk', Hmin; exact Hk|]. split; [exact Hnd|].
  split; [|split; [congruence|]].
  - intros i Hi. apply Hin, open_set_In in Hi. rewrite Hlen1 in Hi. exact Hi.
  - intros H5 H6. rewrite Hk'. unfold top in Hk. lia.
Qed.

Lemma selection_within_bounds_witness :
  let w := demo_world 20 50 2 6 (fun n => Z.of_nat n + 3) in
  exists chosen w',
    Manager.bind Manager.pick_count Manager.pick_players w = (Ok chosen, w')
    /\ 2 <= Z.of_nat (length chosen) <= 5
    /\ List.NoDup chosen.
Proof.
  intros w.
  destruct (selection_within_bounds w) as (chosen & w' & H & _ & Hnd & _ & _ & Hk);
    [reflexivity | vm_compute; discriminate | vm_compute; discriminate |].
  exists chosen, w'. split; [exact H|]. split; [|exact Hnd].
  apply Hk; reflexivity.
Defined.

(** The lower bound of the draw is the literal 2 and not [players_min]:
    a manager made with [players_min = 3], which the program never makes,
    would select two of five players when the draws are all 0. *)
Example selection_below_players_min :
  let w := demo_world 20 50 3 6 (fun _ => 0) in
  Manager.players_min (Manager.mgr w) = 3
  /\ length (Manager.players (Manager.mgr w)) = 5%nat
  /\ exists w', Manager.bind Manager.pick_count Manager.pick_players w = (Ok [0; 1], w').
Proof.
  intros w. split; [reflexivity|]. split; [reflexivity|].
  eexists. vm_compute. reflexivity.
Qed.

(** ** C9: the board of a round *)

(** *** Rounding *)

(** The rounded quotient is within half a unit of the exact one. *)
Lemma div_rne_error (a b : Z) :
  0 < b -> -b <= 2 * (b * PyFloat.div_rne a b - a) <= b.
Proof.
  intros Hb. unfold PyFloat.div_rne.
  pose proof (Z.div_mod a b ltac:(lia)) as Hdm.
  pose proof (Z.mod_pos_bound a b Hb) as Hr.
  destruct (2 * (a mod b) <? b) eqn:E1; [apply Z.ltb_lt in E1; lia|].
  apply Z.ltb_ge in E1.
  destruct (b <? 2 * (a mod b)) eqn:E2; [apply Z.ltb_lt in E2; lia|].
  apply Z.ltb_ge in E2.
  destruct (Z.even (a / b)); lia.
Qed.

(** The binade of a quotient below [2^j]. *)
Lemma floor_log2_lt (p q j : Z) :
  0 < p -> 0 < q -> 0 < j -> p < 2 ^ j * q -> PyFloat.floor_log2 p q < j.
Proof.
  intros Hp Hq Hj Hlt. unfold PyFloat.floor_log2.
  destruct (q <=? p) eqn:E.
  - apply Z.leb_le in E.
    assert (0 < p / q) by (apply Z.div_str_pos; lia).
    apply Z.log2_lt_pow2; [assumption|].
    apply Z.div_lt_upper_bound; lia.
  - pose proof (Z.log2_up_nonneg ((q + p - 1) / p)). lia.
Qed.

(** What [round] returns for a quotient below [2^j], [j <= 51]: a
    mantissa [M] over [2^k] with [k >= 53 - j], within half a unit of
    the exact quotient. *)
Lemma round_spec (p q j : Z) :
  p <> 0 -> 0 < q -> 0 < j <= 51 -> Z.abs p < 2 ^ j * q ->
  exists M k,
    PyFloat.round p q = PyFloat.mk M (- k)
    /\ 53 - j <= k
    /\ - q <= 2 * (q * M - p * 2 ^ k) <= q.
Proof.
  intros Hp Hq Hj Hlt. unfold PyFloat.round.
  replace (p =? 0) with false by (symmetry; apply Z.eqb_neq; exact Hp).
  pose proof (floor_log2_lt (Z.abs p) q j ltac:(lia) Hq ltac:(lia) Hlt) as HE.
  set (e := Z.max (PyFloat.floor_log2 (Z.abs p) q - 52) (-1074)).
  assert (He : e <= j - 53) by (unfold e; lia).
  replace (0 <=? e) with false by (symmetry; apply Z.leb_gt; lia).
  exists (Z.sgn p * PyFloat.div_rne (Z.abs p * 2 ^ (- e)) q), (- e).
  rewrite Z.opp_involutive. split; [reflexivity|]. split; [lia|].
  pose proof (div_rne_error (Z.abs p * 2 ^ (- e)) q Hq) as Herr.
  set (m := PyFloat.div_rne (Z.abs p * 2 ^ (- e)) q) in *.
  destruct (Z.sgn_spec p) as [(Hs & ->)|[(Hs & ->)|(Hs & ->)]]; [| lia |].
  - rewrite (Z.abs_eq p) in Herr by lia. lia.
  - rewrite (Z.abs_neq p) in Herr by lia. lia.
Qed.

(** A value [M / 2^k] with [k > 0] is an integer when [2^k] divides [M],
    and then [int] gives the quotient. *)
Lemma is_integer_spec (M k : Z) :
  0 < k ->
  (PyFloat.is_integer (PyFloat.mk M (- k)) = true <-> exists z, M = z * 2 ^ k).
Proof.
  intros Hk. unfold PyFloat.is_integer. simpl.
  replace (0 <=? - k) with false by (symmetry; apply Z.leb_gt; lia).
  rewrite Z.opp_involutive. simpl.
  assert (0 < 2 ^ k) by (apply Z.pow_pos_nonneg; lia).
  rewrite Z.eqb_eq. split.
  - intros H0. apply Z.mod_divide in H0; [|lia]. destruct H0 as [z ->]. eauto.
  - intros [z ->]. apply Z.mod_mul. lia.
Qed.

Lemma to_int_spec (z k : Z) :
  0 < k -> PyFloat.to_int (PyFloat.mk (z * 2 ^ k) (- k)) = z.
Proof.
  intros Hk. unfold PyFloat.to_int. simpl.
  replace (0 <=? - k) with false by (symmetry; apply Z.leb_gt; lia).
  rewrite Z.opp_involutive.
  assert (0 < 2 ^ k) by (apply Z.pow_pos_nonneg; lia).
  apply Z.quot_mul. lia.
Qed.

(** *** Sizes divided by five *)

Lemma small_multiple (P d : Z) : 0 < P -> - P < P * d < P -> d = 0.
Proof. intros HP H. nia. Qed.

Lemma pow2_ge (k j : Z) : 0 <= j <= k -> 2 ^ j <= 2 ^ k.
Proof. intros H. apply Z.pow_le_mono_r; lia. Qed.

(** For a size [s] below [2^52] in magnitude: the float [s / 5] exists;
    it equals its integer part exactly when 5 divides [s], and so does
    the float [s / 5 + 1]; the integer parts are then [s / 5] and
    [s / 5 + 1]. *)
Lemma truediv5_spec (s : Z) :
  Z.abs s < 2 ^ 52 ->
  exists x,
    PyFloat.truediv s 5 = Ok x
    /\ (PyFloat.is_integer x = true <-> s mod 5 = 0)
    /\ (s mod 5 = 0 -> PyFloat.to_int x = s / 5)
    /\ (PyFloat.is_integer (PyFloat.add_one x) = true <-> s mod 5 = 0)
    /\ (s mod 5 = 0 -> PyFloat.to_int (PyFloat.add_one x) = s / 5 + 1).
Proof.
  intros Hs. unfold PyFloat.truediv. simpl (5 =? 0). cbv iota.
  change (Z.sgn 5) with 1. change (Z.abs 5) with 5. rewrite Z.mul_1_r.
  destruct (Z.eq_dec s 0) as [->|Hs0].
  { eexists. split; [reflexivity|]. repeat split; reflexivity. }
  destruct (round_spec s 5 50 Hs0 ltac:(lia) ltac:(lia) ltac:(lia)) as (M & k & -> & Hk & Herr).
  assert (HP : 8 <= 2 ^ k) by (change 8 with (2 ^ 3); apply pow2_ge; lia).
  set (P := 2 ^ k) in *.
  assert (Hdiv : s mod 5 = 0 <-> exists z, M = z * P).
  { split.
    - intros H5. apply Z.mod_divide in H5; [|lia]. destruct H5 as [t ->].
      exists t. assert (M - t * P = 0) by nia. lia.
    - intros [z ->]. apply Z.mod_divide; [lia|]. exists z.
      assert (5 * z - s = 0) by (apply (small_multiple P); nia). lia. }
  unfold PyFloat.overflows. simpl PyFloat.exp.
  replace (0 <=? - k) with false by (symmetry; apply Z.leb_gt; lia). simpl.
  eexists. split; [reflexivity|].
  split; [rewrite is_integer_spec by lia; fold P; symmetry; exact Hdiv|].
  split.
  { intros H5. destruct (proj1 Hdiv H5) as [z ->]. unfold P. rewrite to_int_spec by lia.
    fold P in Herr. apply Z.div_unique_exact; [lia|].
    assert (5 * z - s = 0) by (apply (small_multiple P); nia). lia. }
  unfold PyFloat.add_one. simpl PyFloat.exp. simpl PyFloat.man.
  replace (0 <=? - k) with false by (symmetry; apply Z.leb_gt; lia).
  rewrite Z.opp_involutive. fold P.
  destruct (Z.eq_dec (M + P) 0) as [Hz|Hnz].
  { rewrite Hz. assert (HM : M = (-1) * P) by lia.
    assert (Hs5 : s = -5) by (assert (5 * (-1) - s = 0) by (apply (small_multiple P); nia); lia).
    subst s. repeat split; reflexivity. }
  assert (Hbound : Z.abs (M + P) < 2 ^ 51 * P) by nia.
  destruct (round_spec (M + P) P 51 Hnz ltac:(lia) ltac:(lia) Hbound)
    as (M' & k' & -> & Hk' & Herr').
  assert (HP' : 4 <= 2 ^ k') by (change 4 with (2 ^ 2); apply pow2_ge; lia).
  set (P' := 2 ^ k') in *.
  assert (Hdiv' : s mod 5 = 0 <-> exists z, M' = z * P').
  { split.
    - intros H5. destruct (proj1 Hdiv H5) as [t ->].
      exists (t + 1). assert (M' - (t + 1) * P' = 0) by (apply (small_multiple P); nia). lia.
    - intros [z ->]. apply Z.mod_divide; [lia|]. exists (z - 1).
      assert (5 * (z - 1) - s = 0) by (apply (small_multiple P); nia). lia. }
  split; [rewrite is_integer_spec by lia; fold P'; symmetry; exact Hdiv'|].
  intros H5. destruct (proj1 Hdiv' H5) as [z ->]. unfold P'. rewrite to_int_spec by lia.
  fold P' in Herr'. destruct (proj1 Hdiv H5) as [t ->].
  assert (Ht : 5 * t - s = 0) by (apply (small_multiple P); nia).
  assert (Hz : z - (t + 1) = 0) by (apply (small_multiple (P * P')); nia).
  replace (s / 5) with t by (apply Z.div_unique_exact; lia). lia.
Qed.

(** What [pick_size] comes to once the two quotients are there. *)
Lemma pick_size_unfold (w : Manager.world) (lo hi : PyFloat.t) :
  PyFloat.truediv (Manager.size_min (Manager.mgr w)) 5 = Ok lo ->
  PyFloat.truediv (Manager.size_max (Manager.mgr w)) 5 = Ok hi ->
  Manager.pick_size w =
    match Random.randrange (Manager.rng w) (Float lo) (Float (PyFloat.add_one hi)) with
    | (Ok k, g) =>
        (Ok (k * 5, k * 5),
         Manager.mk_world (Manager.mgr w) g (Manager.log w) (Manager.notices w)
                          (Manager.reads w))
    | (Raise e, g) =>
        (Raise e,
         Manager.mk_world (Manager.mgr w) g (Manager.log w) (Manager.notices w)
                          (Manager.reads w))
    end.
Proof.
  intros Hlo Hhi. unfold Manager.pick_size, Manager.bind, Manager.lift.
  rewrite Hlo, Hhi. unfold Manager.randint, Random.randint. simpl Random.plus_one.
  destruct (Random.randrange _ _ _) as [[k|e] g]; reflexivity.
Qed.

(** [randrange] between the floats [smin / 5] and [smax / 5 + 1]. *)
Lemma randrange_sizes (g : Random.t) (smin smax : Z) (lo hi : PyFloat.t) :
  Z.abs smin < 2 ^ 52 -> Z.abs smax < 2 ^ 52 ->
  PyFloat.truediv smin 5 = Ok lo ->
  PyFloat.truediv smax 5 = Ok hi ->
  let draw := Random.randrange g (Float lo) (Float (PyFloat.add_one hi)) in
  (forall k g', draw = (Ok k, g') ->
                smin mod 5 = 0 /\ smax mod 5 = 0 /\ smin / 5 <= k <= smax / 5)
  /\ (smin mod 5 = 0 -> smax mod 5 = 0 -> smin <= smax -> exists k g', draw = (Ok k, g'))
  /\ (~ (smin mod 5 = 0 /\ smax mod 5 = 0 /\ smin <= smax) ->
      exists msg, draw = (Raise (ValueError msg), g)).
Proof.
  intros Hmin Hmax Hlo Hhi.
  destruct (truediv5_spec smin Hmin) as (lo' & Hlo' & Hlo_int & Hlo_val & _ & _).
  destruct (truediv5_spec smax Hmax) as (hi' & Hhi' & _ & _ & Hhi_int & Hhi_val).
  rewrite Hlo in Hlo'. rewrite Hhi in Hhi'.
  injection Hlo' as <-. injection Hhi' as <-.
  assert (Hmul : forall a, a mod 5 = 0 -> a = 5 * (a / 5))
    by (intros a Ha; apply Z_div_exact_full_2; lia).
  unfold Random.randrange, Random.integral.
  destruct (PyFloat.is_integer lo) eqn:Elo.
  2:{ cbv zeta. split; [discriminate|]. split; [|eauto].
      intros H5 _ _. apply Hlo_int in H5. discriminate. }
  destruct (PyFloat.is_integer (PyFloat.add_one hi)) eqn:Ehi.
  2:{ cbv zeta. split; [discriminate|]. split; [|eauto].
      intros _ H5 _. apply Hhi_int in H5. discriminate. }
  pose proof (proj1 Hlo_int eq_refl) as H5min.
  pose proof (proj1 Hhi_int eq_refl) as H5max.
  rewrite (Hlo_val H5min), (Hhi_val H5max).
  pose proof (Hmul smin H5min). pose proof (Hmul smax H5max).
  destruct (0 <? smax / 5 + 1 - smin / 5) eqn:Ew; cbv zeta.
  - apply Z.ltb_lt in Ew. unfold Random.randbelow.
    pose proof (Z.mod_pos_bound (Random.tape g (Random.pos g))
                  (smax / 5 + 1 - smin / 5) Ew) as Hr.
    split; [|split].
    + intros k g' [= <- _]. repeat split; auto; lia.
    + eauto.
    + intros Hnot. exfalso. apply Hnot. repeat split; auto; lia.
  - apply Z.ltb_ge in Ew. split; [discriminate|]. split; [|eauto].
    intros _ _ Hle. lia.
Qed.

(** The integer that is drawn, for sizes that are multiples of 5. *)
Lemma randrange_sizes_value (g : Random.t) (smin smax : Z) (lo hi : PyFloat.t) :
  Z.abs smin < 2 ^ 52 -> Z.abs smax < 2 ^ 52 ->
  PyFloat.truediv smin 5 = Ok lo ->
  PyFloat.truediv smax 5 = Ok hi ->
  smin mod 5 = 0 -> smax mod 5 = 0 -> smin <= smax ->
  Random.randrange g (Float lo) (Float (PyFloat.add_one hi))
  = (Ok (smin / 5 + Random.tape g (Random.pos g) mod (smax / 5 - smin / 5 + 1)),
     Random.mk (Random.tape g) (S (Random.pos g))).
Proof.
  intros Hmin Hmax Hlo Hhi H5min H5max Hle.
  destruct (truediv5_spec smin Hmin) as (lo' & Hlo' & Hlo_int & Hlo_val & _ & _).
  destruct (truediv5_spec smax Hmax) as (hi' & Hhi' & _ & _ & Hhi_int & Hhi_val).
  rewrite Hlo in Hlo'. rewrite Hhi in Hhi'.
  injection Hlo' as <-. injection Hhi' as <-.
  pose proof (Z_div_exact_full_2 smin 5 ltac:(lia) H5min).
  pose proof (Z_div_exact_full_2 smax 5 ltac:(lia) H5max).
  unfold Random.randrange, Random.integral.
  rewrite (proj2 Hlo_int H5min), (proj2 Hhi_int H5max), (Hlo_val H5min), (Hhi_val H5max).
  replace (0 <? smax / 5 + 1 - smin / 5) with true by (symmetry; apply Z.ltb_lt; lia).
  unfold Random.randbelow.
  replace (smax / 5 + 1 - smin / 5) with (smax / 5 - smin / 5 + 1) by lia.
  reflexivity.
Qed.

(** *** Counting draws *)

Lemma count_absent (l : list Z) (x : Z) :
  ~ In x l -> length (List.filter (fun t => t =? x) l) = 0%nat.
Proof.
  induction l as [|y l IH]; simpl; intros H; [reflexivity|].
  replace (y =? x) with false by (symmetry; apply Z.eqb_neq; tauto).
  apply IH. tauto.
Qed.

Lemma count_present (l : list Z) (x : Z) :
  List.NoDup l -> In x l -> length (List.filter (fun t => t =? x) l) = 1%nat.
Proof.
  induction l as [|y l IH]; simpl; intros Hnd Hin; [destruct Hin|].
  inversion Hnd as [|? ? Hy Hl]; subst.
  destruct (Z.eqb_spec y x) as [->|Hne].
  - simpl. now rewrite count_absent.
  - apply IH; [exact Hl|]. destruct Hin; [contradiction | assumption].
Qed.

(** Among the integers below [n * W], each residue modulo [W] has [n]. *)
Lemma count_residue (W : nat) (j : Z) (n : nat) :
  0 <= j < Z.of_nat W ->
  length (List.filter (fun t => t mod Z.of_nat W =? j) (upto (n * W))) = n.
Proof.
  intros Hj. induction n as [|n IH]; [reflexivity|].
  replace (S n * W)%nat with (n * W + W)%nat by lia.
  unfold upto in *. rewrite seq_app, map_app, List.filter_app, length_app, IH.
  simpl (0 + n * W)%nat.
  rewrite (List.filter_ext_in _ (fun t => t =? Z.of_nat (n * W) + j)).
  - rewrite count_present; [lia | |].
    + apply Finite.Injective_map_NoDup; [intros x y; lia | apply List.seq_NoDup].
    + apply in_map_iff. exists (n * W + Z.to_nat j)%nat. split; [lia|].
      apply in_seq. lia.
  - intros t Ht. apply in_map_iff in Ht as (i & <- & Hi). apply in_seq in Hi.
    replace (Z.of_nat i) with (Z.of_nat i - Z.of_nat (n * W) + Z.of_nat n * Z.of_nat W)
      at 1 by lia.
    rewrite Z.mod_add by lia. rewrite Z.mod_small by lia.
    destruct (Z.eqb_spec (Z.of_nat i - Z.of_nat (n * W)) j),
             (Z.eqb_spec (Z.of_nat i) (Z.of_nat (n * W) + j)); try reflexivity; lia.
Qed.

(** C9.  For [size_min] and [size_max] below [2^52] in magnitude, as the
    20 and 50 of the program are: every chosen board has a width of 5
    times an integer of [size_min / 5 .. size_max / 5] (both sizes are
    then multiples of 5, so the quotients are exact), a height equal to
    the width, and both within [size_min .. size_max].  When both sizes
    are multiples of 5 with [size_min <= size_max], a board is chosen
    whatever the generator, and the integer is drawn uniformly: it is
    what one call of [random.randint] on the integers [size_min / 5] and
    [size_max / 5] returns, taken as it is, so that of the values that
    [_randbelow] can return for the number of integers in the range,
    each board has exactly one.  Otherwise [randint] raises [ValueError]
    and no board is chosen.  With [size_min = 20] and [size_max = 50] a
    board is always chosen, a multiple of 5 within 20..50 each way. *)
Theorem pick_size_spec (w : Manager.world) :
  let m := Manager.mgr w in
  let smin := Manager.size_min m in
  let smax := Manager.size_max m in
  Z.abs smin < 2 ^ 52 -> Z.abs smax < 2 ^ 52 ->
  (forall sw sh w',
      Manager.pick_size w = (Ok (sw, sh), w') ->
      smin mod 5 = 0 /\ smax mod 5 = 0
      /\ (exists k, smin / 5 <= k <= smax / 5 /\ sw = 5 * k)
      /\ sh = sw /\ smin <= sw <= smax)
  /\ (smin mod 5 = 0 -> smax mod 5 = 0 -> smin <= smax ->
      let count := smax / 5 - smin / 5 + 1 in
      Manager.pick_size w
      = Manager.bind (Manager.randint (Int (smin / 5)) (Int (smax / 5)))
                     (fun k => Manager.ret (k * 5, k * 5)) w
      /\ (exists sw w', Manager.pick_size w = (Ok (sw, sw), w'))
      /\ (forall k : Z,
             smin / 5 <= k <= smax / 5 ->
             length (List.filter (fun t => is_board (5 * k) (board_of_draw m t))
                                 (upto (Z.to_nat count))) = 1%nat))
  /\ (~ (smin mod 5 = 0 /\ smax mod 5 = 0 /\ smin <= smax) ->
      exists msg w', Manager.pick_size w = (Raise (ValueError msg), w'))
  /\ (smin = 20 -> smax = 50 ->
      exists sw w', Manager.pick_size w = (Ok (sw, sw), w')
                    /\ 20 <= sw <= 50 /\ sw mod 5 = 0).
Proof.
  intros m smin smax Hmin Hmax.
  destruct (truediv5_spec smin Hmin) as (lo & Hlo & _).
  destruct (truediv5_spec smax Hmax) as (hi & Hhi & _).
  assert (Hdraws : smin mod 5 = 0 -> smax mod 5 = 0 -> smin <= smax ->
                   forall (k : Z) (n : nat),
                     smin / 5 <= k <= smax / 5 ->
                     length (List.filter (fun t => is_board (5 * k) (board_of_draw m t))
                               (upto (n * Z.to_nat (smax / 5 - smin / 5 + 1)))) = n).
  { intros H5min H5max Hle k n Hk.
    rewrite (List.filter_ext _
               (fun t => t mod Z.of_nat (Z.to_nat (smax / 5 - smin / 5 + 1))
                         =? k - smin / 5)).
    - apply count_residue. lia.
    - intros t. unfold board_of_draw.
      rewrite (pick_size_unfold (Manager.mk_world m (Random.mk (fun _ => t) 0) [] [] 0)
                 lo hi Hlo Hhi).
      cbn [Manager.rng].
      rewrite (randrange_sizes_value _ smin smax lo hi Hmin Hmax Hlo Hhi H5min H5max Hle).
      cbn [fst is_board Random.tape Random.pos].
      rewrite Z2Nat.id by lia.
      set (r := t mod (smax / 5 - smin / 5 + 1)).
      destruct (Z.eqb_spec ((smin / 5 + r) * 5) (5 * k)), (Z.eqb_spec r (k - smin / 5));
        simpl; try reflexivity; lia. }
  rewrite (pick_size_unfold w lo hi Hlo Hhi).
  destruct (randrange_sizes (Manager.rng w) smin smax lo hi Hmin Hmax Hlo Hhi)
    as (Hdrawn & Htotal & Hraise).
  assert (Hchosen : forall sw sh w',
             match Random.randrange (Manager.rng w) (Float lo) (Float (PyFloat.add_one hi)) with
             | (Ok k, g) =>
                 (Ok (k * 5, k * 5),
                  Manager.mk_world (Manager.mgr w) g (Manager.log w) (Manager.notices w)
                                   (Manager.reads w))
             | (Raise e, g) =>
                 (Raise e,
                  Manager.mk_world (Manager.mgr w) g (Manager.log w) (Manager.notices w)
                                   (Manager.reads w))
             end = (Ok (sw, sh), w') ->
             smin mod 5 = 0 /\ smax mod 5 = 0
             /\ (exists k, smin / 5 <= k <= smax / 5 /\ sw = 5 * k)
             /\ sh = sw /\ smin <= sw <= smax).
  { intros sw sh w'.
    destruct (Random.randrange _ _ _) as [[k|e] g] eqn:E; [|discriminate].
    intros [= <- <- _]. destruct (Hdrawn k g eq_refl) as (H5min & H5max & Hk).
    pose proof (Z_div_exact_full_2 smin 5 ltac:(lia) H5min).
    pose proof (Z_div_exact_full_2 smax 5 ltac:(lia) H5max).
    split; [exact H5min|]. split; [exact H5max|]. split; [|split; [reflexivity|lia]].
    exists k. split; [exact Hk | apply Z.mul_comm]. }
  split; [exact Hchosen|]. split; [|split].
  - intros H5min H5max Hle count.
    rewrite (randrange_sizes_value _ smin smax lo hi Hmin Hmax Hlo Hhi H5min H5max Hle).
    split; [|split; [eauto|]].
    + unfold Manager.bind, Manager.randint, Manager.ret, Random.randint,
        Random.randrange, Random.plus_one, Random.integral, Random.randbelow.
      replace (smax / 5 + 1 - smin / 5) with (smax / 5 - smin / 5 + 1) by lia.
      replace (0 <? smax / 5 - smin / 5 + 1) with true
        by (symmetry; apply Z.ltb_lt;
            pose proof (Z.div_le_mono smin smax 5 ltac:(lia) Hle); lia).
      reflexivity.
    + intros k Hk. pose proof (Hdraws H5min H5max Hle k 1%nat Hk) as Hone.
      rewrite Nat.mul_1_l in Hone. exact Hone.
  - intros Hnot. destruct (Hraise Hnot) as (msg & ->). eauto.
  - intros E20 E50.
    destruct Htotal as (k & g' & Hk); [rewrite E20 | rewrite E50 | lia | ]; try reflexivity.
    rewrite Hk in Hchosen |- *.
    eexists. eexists. split; [reflexivity|].
    destruct (Hchosen _ _ _ eq_refl) as (_ & _ & (k' & Hk' & Hsw) & _ & Hrange).
    split; [lia|]. apply Z.mod_mul. lia.
Qed.

Lemma pick_size_spec_witness :
  let w := demo_world 20 50 2 6 (fun n => Z.of_nat n + 3) in
  (exists sw w',
      Manager.pick_size w = (Ok (sw, sw), w') /\ 20 <= sw <= 50 /\ sw mod 5 = 0)
  /\ length (List.filter (fun t => is_board 35 (board_of_draw (Manager.mgr w) t))
                         (upto 7)) = 1%nat.
Proof.
  intros w.
  destruct (pick_size_spec w) as (_ & Hdraw & _ & H); [simpl; lia | simpl; lia |].
  split; [apply H; reflexivity|].
  destruct Hdraw as (_ & _ & Hcount);
    [reflexivity | reflexivity | vm_compute; discriminate |].
  apply (Hcount 7). vm_compute. split; discriminate.
Defined.

(** The quotients of the model are those of binary64 division. *)
Example truediv_is_binary64 :
  (PyFloat.truediv 22 5 = Ok (PyFloat.mk 4953959590107546 (-50))
   /\ Prim2SF (float_of_int 22 / float_of_int 5)
      = S754_finite false 4953959590107546 (-50))
  /\ (PyFloat.truediv 11258999068426244 5 = Ok (PyFloat.mk 4503599627370498 (-1))
      /\ Prim2SF (float_of_int 11258999068426244 / float_of_int 5)
         = S754_finite false 4503599627370498 (-1)).
Proof. repeat split; vm_compute; reflexivity. Qed.

(** A size that is no multiple of 5 is not rounded down: [randint] raises. *)
Example pick_size_22 :
  exists w',
    Manager.pick_size (demo_world 22 50 2 6 (fun _ => 0))
      = (Raise (ValueError "non-integer arg 1 for randrange()"), w').
Proof. eexists. vm_compute. reflexivity. Qed.

(** From 2^52 on the quotient is rounded, and a size that is no multiple
    of 5 can give an integral float: with
    [size_min = size_max = 11258999068426244], sizes that the program
    never has, the float quotient by 5 is 2251799813685249.0 (the exact
    one ends in .8 and floats there are 0.5 apart), and the board would
    be of width and height 11258999068426245. *)
Example pick_size_beyond_size_max :
  let w := demo_world 11258999068426244 11258999068426244 2 6 (fun _ => 0) in
  exists w',
    Manager.pick_size w = (Ok (11258999068426245, 11258999068426245), w')
    /\ Manager.size_max (Manager.mgr w) < 11258999068426245.
Proof.
  intros w. eexists. split; [vm_compute; reflexivity | reflexivity].
Qed.

(** ** Further properties of a round *)

Lemma parse_lines_keeps (lines : list string) :
  forall (self self' : Match.t) (count : Z) (r : result unit),
    Match.parse_lines self count lines = (r, self') ->
    Match.num_players self' = Match.num_players self
    /\ length (Match.results self') = length (Match.results self).
Proof.
  induction lines as [|l lines IH]; intros self self' count r; simpl.
  - intros [= _ <-]. now split.
  - destruct (Match.parse_line self count l) as [self1|e] eqn:E.
    + intros H. destruct (IH _ _ _ _ H) as [Hn Hr].
      destruct (parse_line_keeps _ _ _ _ E) as [Hn1 Hr1]. split; congruence.
    + intros [= _ <-]. now split.
Qed.

(** Whatever the engine output, parsing leaves a rank vector of the
    length it had: one slot per participant for the match of a round. *)
Theorem parse_keeps_rank_vector_length (h : heap) (o_players : list nat)
    (width height seed : Z) (limit : float) (keep : bool) (text : string) :
  let self := Match.set_results_string
                (Match.init h o_players width height seed limit keep) text in
  length (Match.results (snd (Match.parse_results_string self))) = length o_players.
Proof.
  intros self. unfold Match.parse_results_string.
  destruct (_ <? _).
  - simpl. apply length_map.
  - destruct (Match.parse_lines self 0 _) as [r self'] eqn:E.
    apply parse_lines_keeps in E as [_ Hr]. simpl. rewrite Hr. simpl. apply length_map.
Qed.

(** The return code is stored and never looked at: a nonzero exit with a
    complete output is a result like any other, and the round rates its
    participants. *)
Example nonzero_exit_with_output_is_rated :
  exists w',
    Manager.run_round (demo_env (Completed (example_output "a" "b" nl) 1)) demo_clock
                      [0; 1] 20 20 10000 (demo_world 20 50 2 6 (fun _ => 0))
      = (Ok tt, w')
    /\ map (fun r => (Database.name r, Database.ngames r, Database.rank r))
           (Database.rows (Manager.db (Manager.mgr w')))
       = [("a", 1, 1); ("b", 1, 2); ("c", 0, 3); ("d", 0, 4); ("e", 0, 5)].
Proof. eexists. split; vm_compute; reflexivity. Qed.

(** *** A completed round *)

Lemma map_insert_same {A B} (f : A -> B) (l : list A) (i : nat) (x x' : A) :
  l !! i = Some x -> f x' = f x -> map f (<[i := x']> l) = map f l.
Proof.
  revert i. induction l as [|a l IH]; intros i Hi Hf; [discriminate|].
  destruct i as [|i]; simpl in *.
  - injection Hi as ->. now rewrite Hf.
  - f_equal. now apply IH.
Qed.

Lemma update_player_skill_names (h : heap) (refs : list nat) (n : string)
    (data : GaussianRating) :
  map Player.name (update_player_skill h refs n data) = map Player.name h.
Proof.
  induction refs as [|r refs IH]; simpl; [reflexivity|].
  destruct (h !! r) as [player|] eqn:E; [|exact IH].
  destruct (String.eqb _ _); [|exact IH].
  now apply (map_insert_same Player.name h r player).
Qed.

Lemma apply_updated_names (refs : list nat) (updated : list Team) (h : heap) :
  map Player.name (apply_updated refs updated h) = map Player.name h.
Proof.
  unfold apply_updated. revert h.
  induction updated as [|team updated IH]; intros h; simpl; [reflexivity|].
  rewrite IH. clear IH. revert h.
  induction team as [|entry team IH]; intros h; simpl; [reflexivity|].
  rewrite IH. apply update_player_skill_names.
Qed.

(** A match leaves every player object its name. *)
Lemma run_match_names (env : Env) (m : Match.t) (halite_binary : string) (h : heap) :
  map Player.name (Match.players_after (Match.run_match env m halite_binary h))
    = map Player.name h.
Proof.
  unfold Match.run_match.
  destruct (halite env _ _) as [raw code| |e0|e0]; [|reflexivity..].
  destruct (PyStr.decode_ascii raw); [|reflexivity].
  destruct (Match.parse_results_string _) as [[u|e] m2]; [|reflexivity].
  unfold update_ranks.
  destruct (new_ratings env _ _); simpl; [|reflexivity].
  apply apply_updated_names.
Qed.

Lemma lookup_map_eq {A B} (f : A -> B) (l l' : list A) (i : nat) :
  map f l' = map f l -> option_map f (l' !! i) = option_map f (l !! i).
Proof.
  revert l' i. induction l as [|a l IH]; intros [|a' l'] i H; try discriminate;
    [reflexivity|].
  injection H as Ha Hl. destruct i as [|i]; simpl; [now rewrite Ha | now apply IH].
Qed.

Lemma names_at_ext (h h' : heap) (refs : list nat) :
  map Player.name h' = map Player.name h -> names_at h' refs = names_at h refs.
Proof.
  intros Hn. induction refs as [|r refs IH]; simpl; [reflexivity|].
  pose proof (lookup_map_eq Player.name h h' r Hn) as Hr. unfold heap in *.
  destruct (h' !! r), (h !! r); simpl in Hr; try discriminate.
  - injection Hr as ->. now rewrite IH.
  - exact IH.
Qed.

(** [save_players] does not raise; it leaves the rows their names and adds
    to [ngames] once for each participant of the row's name. *)
Lemma save_players_rows (clock : nat -> string) (refs : list nat) :
  forall w : Manager.world,
    exists w',
      Manager.save_players clock refs w = (Ok tt, w')
      /\ map (fun row => (Database.name row, Database.ngames row))
             (Database.rows (Manager.db (Manager.mgr w')))
         = map (fun row =>
                  (Database.name row,
                   Database.ngames row
                     + times (Database.name row) (names_at (Manager.players (Manager.mgr w)) refs)))
               (Database.rows (Manager.db (Manager.mgr w))).
Proof.
  induction refs as [|r refs IH]; intros w; simpl.
  - eexists. split; [reflexivity|]. apply map_ext. intros row. unfold times. simpl.
    f_equal. lia.
  - destruct (Manager.players (Manager.mgr w) !! r) as [player|] eqn:E; [|apply IH].
    destruct (IH (Manager.mk_world
                    (Manager.set_db (Manager.mgr w)
                       (Database.save_player (Manager.db (Manager.mgr w))
                          (clock (Manager.reads w)) player))
                    (Manager.rng w) (Manager.log w) (Manager.notices w)
                    (S (Manager.reads w))))
      as (w' & -> & Hrows).
    exists w'. split; [reflexivity|]. rewrite Hrows. simpl.
    unfold Database.save_player, Database.update_player_skill, Database.update_where. simpl.
    rewrite map_map. apply map_ext. intros row. unfold Database.has_name, times. simpl.
    destruct (String.eqb_spec (Database.name row) (Player.name player)) as [Heq|Hne].
    + simpl. rewrite Heq.
      destruct (string_dec (Player.name player) (Player.name player)); [|contradiction].
      f_equal. lia.
    + destruct (string_dec (Player.name player) (Database.name row)); [congruence|].
      reflexivity.
Qed.

Lemma assign_ranks_keeps (names : list string) :
  forall (self : Database.t) (i : Z),
    map (fun row => (Database.name row, Database.ngames row))
        (Database.rows (Database.assign_ranks self i names))
    = map (fun row => (Database.name row, Database.ngames row)) (Database.rows self).
Proof.
  induction names as [|n names IH]; intros self i; simpl; [reflexivity|].
  rewrite IH. simpl. rewrite map_map. apply map_ext. intros row.
  destruct (Database.has_name n row); reflexivity.
Qed.

(** A round that completes: every row keeps its name, and [ngames] goes
    up by one in the rows of the participants and stays in the others,
    the participants being player objects of pairwise different names. *)
Theorem completed_round_counts (env : Env) (clock : nat -> string)
    (indices : list Z) (width height seed : Z) (w w' : Manager.world)
    (o_players : list nat) :
  Manager.refs_of (length (Manager.players (Manager.mgr w))) indices = Ok o_players ->
  List.NoDup (names_at (Manager.players (Manager.mgr w)) o_players) ->
  Manager.run_round env clock indices width height seed w = (Ok tt, w') ->
  map (fun row => (Database.name row, Database.ngames row))
      (Database.rows (Manager.db (Manager.mgr w')))
  = map (fun row =>
           (Database.name row,
            if existsb (String.eqb (Database.name row))
                       (names_at (Manager.players (Manager.mgr w)) o_players)
            then Database.ngames row + 1
            else Database.ngames row))
        (Database.rows (Manager.db (Manager.mgr w))).
Proof.
  intros Hrefs Hnd. unfold Manager.run_round. rewrite Hrefs. cbv zeta.
  set (r := Match.run_match env _ _ _).
  destruct (Match.outcome r) as [u|e]; [|discriminate].
  set (w1 := Manager.mk_world _ _ _ _ _).
  destruct (save_players_rows clock o_players w1) as (w2 & -> & Hrows).
  intros [= <-]. simpl. unfold Database.update_player_ranks.
  rewrite assign_ranks_keeps, Hrows. subst w1 r. simpl.
  rewrite (names_at_ext _ _ _ (run_match_names env _ _ _)).
  apply map_ext. intros row. f_equal. unfold times.
  destruct (existsb _ _) eqn:Ex.
  - apply existsb_exists in Ex as (n & Hin & Hn). apply String.eqb_eq in Hn. subst n.
    pose proof (proj1 (NoDup_count_occ String.string_dec _) Hnd (Database.name row)).
    pose proof (proj1 (count_occ_In String.string_dec _ _) Hin). lia.
  - rewrite (proj1 (count_occ_not_In String.string_dec _ _)); [lia|].
    intros Hin. assert (existsb (String.eqb (Database.name row))
                          (names_at (Manager.players (Manager.mgr w)) o_players) = true).
    { apply existsb_exists. exists (Database.name row). split; [exact Hin|].
      apply String.eqb_refl. }
    congruence.
Qed.

Lemma completed_round_counts_witness :
  let env := demo_env (Completed (example_output "a" "b" nl) 0) in
  let w := demo_world 20 50 2 6 (fun _ => 0) in
  map (fun row => (Database.name row, Database.ngames row))
      (Database.rows (Manager.db (Manager.mgr
         (snd (Manager.run_round env demo_clock [0; 1] 20 20 10000 w)))))
  = [("a", 1); ("b", 1); ("c", 0); ("d", 0); ("e", 0)].
Proof.
  intros env w.
  apply (completed_round_counts env demo_clock [0; 1] 20 20 10000 w
           (snd (Manager.run_round env demo_clock [0; 1] 20 20 10000 w)) [0%nat; 1%nat]).
  - reflexivity.
  - repeat constructor; simpl; intuition discriminate.
  - vm_compute. reflexivity.
Defined.

(** * Further properties of the code *)

(** ** The parser on an output that follows the protocol *)

(** An output that follows the protocol is parsed as written.  For a
    match of [n] participants whose output splits into [n] header lines
    (any text), the replay line, [n] rank lines and the line of timeout
    markers, then any further lines: when the rank lines carry integer
    ranks and the participant indices are within 1..n, each named once,
    parsing raises nothing, the replay file is the first token of the
    replay line, the timeouts are the tokens of the timeout line, and each
    participant has the rank of the line that names it. *)
Theorem parse_protocol_output (self : Match.t) (headers ranks rest : list string)
    (replay marks : string) (pairs : list (Z * Z)) :
  Z.of_nat (length (Match.results self)) = Match.num_players self ->
  PyStr.split PyStr.newline (Match.results_string self)
    = (headers ++ replay :: ranks ++ marks :: rest)%list ->
  Z.of_nat (length headers) = Match.num_players self ->
  Z.of_nat (length ranks) = Match.num_players self ->
  map rank_line_pair ranks = map Some pairs ->
  Forall (fun p => 1 <= snd p <= Match.num_players self) pairs ->
  List.NoDup (map snd pairs) ->
  exists self',
    Match.parse_results_string self = (Ok tt, self')
    /\ Match.replay_file self' = first_token replay
    /\ Match.timeouts self' = PyStr.split PyStr.space marks
    /\ length (Match.results self') = length (Match.results self)
    /\ (forall r i, In (r, i) pairs -> Match.results self' !! Z.to_nat (i - 1) = Some r)
    /\ Match.players self' = Match.players self
    /\ Match.num_players self' = Match.num_players self.
Proof.
  intros Hlen Hsplit Hh Hr Hpairs Hrange Hnd.
  assert (Hn : 0 <= Match.num_players self) by lia.
  assert (Hrange' : Forall (fun p => 1 <= snd p <= Z.of_nat (length (Match.results self)))
                           pairs) by (now rewrite Hlen).
  unfold Match.parse_results_string. rewrite Hsplit.
  replace (_ <? _) with false.
  2:{ symmetry. apply Z.ltb_ge. rewrite length_app. simpl. rewrite length_app. simpl. lia. }
  rewrite parse_lines_headers by lia.
  simpl. rewrite Z.add_0_l, Hh, parse_line_replay.
  rewrite (parse_lines_ranks ranks _ _ _ (write_ranks pairs (Match.results self)));
    [| simpl; lia | simpl; lia | simpl; now apply rank_lines_pairs].
  simpl. replace (Match.num_players self + 1 + Z.of_nat (length ranks))
    with (Match.num_players self * 2 + 1) by lia.
  rewrite (parse_line_timeouts
             (Match.set_results (Match.set_replay_file self (first_token replay))
                                (write_ranks pairs (Match.results self)))) by (simpl; lia).
  rewrite parse_lines_surplus by (simpl; lia).
  eexists. split; [reflexivity|]. simpl.
  split; [reflexivity|]. split; [reflexivity|]. split; [apply write_ranks_length|].
  split; [|split; reflexivity].
  intros r i Hp. now apply write_ranks_lookup.
Qed.

Lemma parse_protocol_output_witness :
  let self :=
    Match.set_results_string
      (Match.init [Player.init "a" "bots/a"; Player.init "b" "bots/b";
                   Player.init "c" "bots/c"]
                  [0%nat; 1%nat; 2%nat] 30 30 10000 1800%float true)
      ("a" ++ nl ++ "b" ++ nl ++ "c" ++ nl ++ "r.hlt 10000" ++ nl
         ++ "2 3" ++ nl ++ "1 1 x" ++ nl ++ "3 2" ++ nl ++ "0 0 1" ++ nl) in
  exists self',
    Match.parse_results_string self = (Ok tt, self')
    /\ Match.replay_file self' = "r.hlt"
    /\ Match.results self' !! 2%nat = Some 2
    /\ Match.results self' !! 0%nat = Some 1
    /\ Match.results self' !! 1%nat = Some 3.
Proof.
  intros self.
  destruct (parse_protocol_output self ["a"; "b"; "c"] ["2 3"; "1 1 x"; "3 2"] [""]
              "r.hlt 10000" "0 0 1" [(2, 3); (1, 1); (3, 2)])
    as (self' & Hp & Hf & _ & _ & Hres & _); try reflexivity.
  - repeat constructor; simpl; lia.
  - repeat constructor; simpl; intuition lia.
  - exists self'. split; [exact Hp|]. split; [exact Hf|].
    split; [|split].
    + apply (Hres 2 3). simpl. auto.
    + apply (Hres 1 1). simpl. auto.
    + apply (Hres 3 2). simpl. auto.
Defined.

(** ** The player table *)

Lemma store_eta (store : Database.t) :
  Database.mk (Database.rows store) (Database.last_id store) = store.
Proof. destruct store; reflexivity. Qed.

Lemma row_eta (r : Database.row) :
  Database.mk_row (Database.id r) (Database.name r) (Database.path r)
    (Database.lastseen r) (Database.rank r) (Database.skill r) (Database.mu r)
    (Database.sigma r) (Database.ngames r) (Database.active r) = r.
Proof. destruct r; reflexivity. Qed.

Lemma has_name_false (n : string) (rs : list Database.row) :
  ~ In n (map Database.name rs) ->
  forall r, In r rs -> Database.has_name n r = false.
Proof.
  intros Hn r Hr. unfold Database.has_name.
  destruct (String.eqb_spec (Database.name r) n) as [E|E]; [|reflexivity].
  exfalso. apply Hn. rewrite <- E. now apply in_map.
Qed.

Lemma filter_all {A} (f : A -> bool) (l : list A) :
  (forall x, In x l -> f x = true) -> List.filter f l = l.
Proof.
  induction l as [|a l IH]; simpl; intros H; [reflexivity|].
  rewrite (H a) by auto. f_equal. apply IH. auto.
Qed.

Lemma filter_nothing {A} (f : A -> bool) (l : list A) :
  (forall x, In x l -> f x = false) -> List.filter f l = [].
Proof.
  induction l as [|a l IH]; simpl; intros H; [reflexivity|].
  rewrite (H a) by auto. apply IH. auto.
Qed.

Lemma map_unchanged {A} (f : A -> A) (l : list A) :
  (forall x, In x l -> f x = x) -> map f l = l.
Proof.
  induction l as [|a l IH]; simpl; intros H; [reflexivity|].
  rewrite (H a) by auto. f_equal. apply IH. auto.
Qed.

(** An [update ... where name=?] with no row of that name writes nothing. *)
Lemma update_where_absent (n : string) (f : Database.row -> Database.row)
    (store : Database.t) :
  ~ In n (names_of store) -> Database.update_where n f store = store.
Proof.
  intros Hn. unfold Database.update_where.
  rewrite map_unchanged; [apply store_eta|].
  intros r Hr. now rewrite (has_name_false n _ Hn r Hr).
Qed.

(** An update that leaves name and id rewrites neither column. *)
Lemma update_where_keys (n : string) (f : Database.row -> Database.row)
    (store : Database.t) :
  (forall r, Database.name (f r) = Database.name r /\ Database.id (f r) = Database.id r) ->
  map Database.name (Database.rows (Database.update_where n f store))
    = map Database.name (Database.rows store)
  /\ map Database.id (Database.rows (Database.update_where n f store))
     = map Database.id (Database.rows store).
Proof.
  intros Hf. unfold Database.update_where. simpl. rewrite !map_map.
  split; apply map_ext; intros r; destruct (Database.has_name n r);
    try reflexivity; apply Hf.
Qed.

Lemma well_formed_keys (store store' : Database.t) :
  map Database.name (Database.rows store') = map Database.name (Database.rows store) ->
  map Database.id (Database.rows store') = map Database.id (Database.rows store) ->
  Database.last_id store' = Database.last_id store ->
  well_formed store -> well_formed store'.
Proof.
  intros Hn Hi Hl (Hnames & Hids & Hmax). unfold well_formed.
  rewrite Hn, Hi, Hl. split; [exact Hnames|]. split; [exact Hids|].
  rewrite List.Forall_forall in Hmax |- *. intros r Hr.
  assert (Hin : In (Database.id r) (map Database.id (Database.rows store)))
    by (rewrite <- Hi; now apply in_map).
  apply in_map_iff in Hin as (r0 & <- & Hr0). now apply Hmax.
Qed.

Lemma update_where_well_formed (n : string) (f : Database.row -> Database.row)
    (store : Database.t) :
  (forall r, Database.name (f r) = Database.name r /\ Database.id (f r) = Database.id r) ->
  well_formed store -> well_formed (Database.update_where n f store).
Proof.
  intros Hf. destruct (update_where_keys n f store Hf) as [Hn Hi].
  now apply well_formed_keys.
Qed.

Lemma assign_ranks_well_formed (names : list string) :
  forall (store : Database.t) (i : Z),
    well_formed store -> well_formed (Database.assign_ranks store i names).
Proof.
  induction names as [|n names IH]; intros store i Hwf; simpl; [exact Hwf|].
  apply IH. apply update_where_well_formed; [|exact Hwf]. intros r. now split.
Qed.

Lemma NoDup_filter_map {A B} (f : A -> B) (p : A -> bool) (l : list A) :
  List.NoDup (map f l) -> List.NoDup (map f (List.filter p l)).
Proof.
  induction l as [|a l IH]; simpl; intros H; [constructor|].
  inversion H as [|? ? Ha Hl]; subst.
  destruct (p a); simpl; [|now apply IH].
  constructor; [|now apply IH].
  intros Hin. apply Ha. apply in_map_iff in Hin as (x & Hx & Hin).
  apply List.filter_In in Hin as [Hin _]. rewrite <- Hx. now apply in_map.
Qed.

Lemma filter_other_name (m n : string) (rs : list Database.row) :
  m <> n ->
  List.filter (Database.has_name m)
              (List.filter (fun r => negb (Database.has_name n r)) rs)
  = List.filter (Database.has_name m) rs.
Proof.
  intros Hm. induction rs as [|r rs IH]; simpl; [reflexivity|].
  destruct (Database.has_name n r) eqn:En, (Database.has_name m r) eqn:Em; simpl;
    rewrite ?Em, IH; try reflexivity.
  unfold Database.has_name in *.
  apply String.eqb_eq in En, Em. congruence.
Qed.

(** The constraints of the schema hold after every operation on the
    table: when no two rows share a name or an id and no id exceeds the
    largest one handed out, the same is true after an accepted insert,
    after a delete, and after each of the updates (rating, rank, all
    ranks, activation, deactivation). *)
Theorem table_constraints_kept (store : Database.t) :
  well_formed store ->
  (forall now n p store', Database.add_player store now n p = Ok store' ->
                          well_formed store')
  /\ (forall n, well_formed (Database.delete_player store n))
  /\ (forall now n skill mu sigma,
        well_formed (Database.update_player_skill store now n skill mu sigma))
  /\ (forall now player, well_formed (Database.save_player store now player))
  /\ (forall n v, well_formed (Database.update_player_rank store n v))
  /\ well_formed (Database.update_player_ranks store)
  /\ (forall n, well_formed (Database.activate_player store n))
  /\ (forall n, well_formed (Database.deactivate_player store n)).
Proof.
  intros Hwf.
  assert (Hupd : forall n f,
             (forall r, Database.name (f r) = Database.name r
                        /\ Database.id (f r) = Database.id r) ->
             well_formed (Database.update_where n f store))
    by (intros; now apply update_where_well_formed).
  split; [|split; [|split; [|split; [|split; [|split; [|split]]]]]];
    try (intros; apply Hupd; intros r; now split).
  - intros now n p store' H. destruct Hwf as (Hnames & Hids & Hmax).
    unfold Database.add_player in H.
    destruct (existsb _ _) eqn:Ex; [discriminate|]. injection H as <-.
    assert (Hfresh : ~ In n (map Database.name (Database.rows store))).
    { intros Hin. apply in_map_iff in Hin as (r & Hr & Hin).
      assert (existsb (Database.has_name n) (Database.rows store) = true)
        by (apply existsb_has_name; eauto).
      congruence. }
    rewrite List.Forall_forall in Hmax.
    unfold well_formed. simpl. rewrite !map_app. simpl. repeat split.
    + apply List.NoDup_app; [exact Hnames | repeat constructor; simpl; tauto |].
      intros x Hx [<-|[]]. contradiction.
    + apply List.NoDup_app; [exact Hids | repeat constructor; simpl; tauto |].
      intros x Hx [<-|[]]. apply in_map_iff in Hx as (r & Hr & Hin).
      specialize (Hmax r Hin). lia.
    + apply Forall_app. split.
      * rewrite List.Forall_forall. intros r Hr. specialize (Hmax r Hr). lia.
      * repeat constructor. simpl. lia.
  - intros n. destruct Hwf as (Hnames & Hids & Hmax).
    unfold well_formed, Database.delete_player.
    simpl. split; [now apply NoDup_filter_map|]. split; [now apply NoDup_filter_map|].
    rewrite List.Forall_forall in Hmax |- *. intros r Hr.
    apply List.filter_In in Hr as [Hr _]. auto.
  - unfold Database.update_player_ranks. now apply assign_ranks_well_formed.
Qed.

Lemma table_constraints_kept_witness :
  well_formed (Database.delete_player demo_db "c")
  /\ well_formed (Database.update_player_ranks demo_db)
  /\ well_formed (Database.deactivate_player demo_db "a").
Proof.
  assert (Hwf : well_formed demo_db).
  { unfold well_formed. simpl. repeat split.
    - repeat constructor; simpl; intuition discriminate.
    - repeat constructor; simpl; intuition discriminate.
    - repeat constructor; simpl; lia. }
  pose proof (table_constraints_kept demo_db Hwf) as (_ & Hd & _ & _ & _ & Hr & _ & Hde).
  split; [apply Hd|]. split; [exact Hr | apply Hde].
Defined.

(** Registering, looking up and deleting.  On a table that has no
    row of the name, [add_player] is accepted; looking the name up then
    gives exactly the inserted row, which loads as the player object that
    [Player(name, path)] builds, but for the time stamp; the rows of every
    other name are found as before; and deleting the name again leaves
    the rows that were there, while the largest id stays spent. *)
Theorem register_lookup_delete (store : Database.t) (now n p : string) :
  ~ In n (names_of store) ->
  exists store',
    Database.add_player store now n p = Ok store'
    /\ Database.get_player store' [n] = [fresh_row store now n p]
    /\ parse_player_record (fresh_row store now n p)
       = Player.mk n p now (Player.rank (Player.init n p)) (Player.skill (Player.init n p))
                   (Player.mu (Player.init n p)) (Player.sigma (Player.init n p))
                   (Player.ngames (Player.init n p)) (Player.active (Player.init n p))
    /\ (forall m, m <> n -> Database.get_player store' [m] = Database.get_player store [m])
    /\ Database.delete_player store' n = Database.mk (Database.rows store)
                                                     (Database.last_id store + 1).
Proof.
  intros Hn.
  assert (Hfalse : forall r, In r (Database.rows store) -> Database.has_name n r = false)
    by (apply has_name_false; exact Hn).
  assert (Hex : existsb (Database.has_name n) (Database.rows store) = false).
  { destruct (existsb _ _) eqn:E; [|reflexivity].
    apply existsb_exists in E as (r & Hr & E). rewrite (Hfalse r Hr) in E. discriminate. }
  eexists. split; [unfold Database.add_player; rewrite Hex; reflexivity|].
  fold (fresh_row store now n p).
  split; [|split; [reflexivity|split]].
  - rewrite get_player_one. simpl. rewrite List.filter_app, (filter_nothing _ _ Hfalse).
    simpl. unfold Database.has_name. simpl. now rewrite String.eqb_refl.
  - intros m Hm. rewrite !get_player_one. simpl. rewrite List.filter_app. simpl.
    unfold Database.has_name at 2. simpl.
    destruct (String.eqb_spec n m) as [E|_]; [congruence|]. apply app_nil_r.
  - unfold Database.delete_player. simpl. f_equal.
    rewrite List.filter_app. simpl. unfold Database.has_name at 2. simpl.
    rewrite String.eqb_refl. simpl. rewrite app_nil_r.
    apply filter_all. intros r Hr. now rewrite (Hfalse r Hr).
Qed.

Lemma register_lookup_delete_witness :
  exists store',
    Database.add_player demo_db "now" "f" "bots/f" = Ok store'
    /\ Database.get_player store' ["f"] = [fresh_row demo_db "now" "f" "bots/f"]
    /\ Database.delete_player store' "f" = Database.mk (Database.rows demo_db) 6.
Proof.
  destruct (register_lookup_delete demo_db "now" "f" "bots/f") as (s & Ha & Hg & _ & _ & Hd).
  - simpl. intuition discriminate.
  - exists s. split; [exact Ha|]. split; [exact Hg | exact Hd].
Defined.

(** Deleting a player forgets it: a lookup of the name finds
    nothing, the rows of every other name are found as before, a second
    delete changes nothing, and the name can be registered again, with
    the next id (an id is never handed out twice) and the starting
    rating. *)
Theorem delete_player_forgets (store : Database.t) (n : string) :
  let store' := Database.delete_player store n in
  Database.get_player store' [n] = []
  /\ (forall m, m <> n -> Database.get_player store' [m] = Database.get_player store [m])
  /\ Database.delete_player store' n = store'
  /\ (forall now p,
        Database.add_player store' now n p
        = Ok (Database.mk (Database.rows store' ++ [fresh_row store now n p])
                          (Database.last_id store + 1)))
  /\ (well_formed store ->
      forall r, In r (Database.rows store) -> Database.id r < Database.last_id store + 1).
Proof.
  intros store'.
  assert (Hgone : forall r, In r (Database.rows store') -> Database.has_name n r = false).
  { intros r Hr. apply List.filter_In in Hr as [_ Hr]. now apply negb_true_iff in Hr. }
  split; [|split; [|split; [|split]]].
  - rewrite get_player_one. now apply filter_nothing.
  - intros m Hm. rewrite !get_player_one. unfold store', Database.delete_player. simpl.
    now apply filter_other_name.
  - unfold Database.delete_player at 1. rewrite filter_all; [apply store_eta|].
    intros r Hr. now rewrite (Hgone r Hr).
  - intros now p. unfold Database.add_player.
    replace (existsb (Database.has_name n) (Database.rows store')) with false; [reflexivity|].
    symmetry. destruct (existsb _ _) eqn:E; [|reflexivity].
    apply existsb_exists in E as (r & Hr & E). rewrite (Hgone r Hr) in E. discriminate.
  - intros (_ & _ & Hmax) r Hr. rewrite List.Forall_forall in Hmax.
    specialize (Hmax r Hr). lia.
Qed.

Lemma delete_player_forgets_witness :
  Database.get_player (Database.delete_player demo_db "c") ["c"] = []
  /\ Database.get_player (Database.delete_player demo_db "c") ["d"] = [demo_row 4 "d"]
  /\ exists store',
       Database.add_player (Database.delete_player demo_db "c") "now" "c" "bots/c2"
       = Ok store'
       /\ Database.get_player store' ["c"]
          = [Database.mk_row 6 "c" "bots/c2" "now" 1000 0%float 50%float (50 / 3)%float 0 1].
Proof.
  destruct (delete_player_forgets demo_db "c") as (Hgone & Hother & _ & Hadd & _).
  split; [exact Hgone|]. split.
  - rewrite Hother by discriminate. reflexivity.
  - eexists. split; [apply Hadd | reflexivity].
Defined.

(** *** Activation *)

(** Deactivating takes the player out of what [run_matches] loads and
    touches nothing else: no row of the name is among the active rows
    afterwards, the rows of other names are active or not as before, only
    the column [active] is written, activating after a deactivation is as
    activating at once, and it restores the table when the rows of the
    name had [active = 1], as registered rows have. *)
Theorem deactivate_excludes (store : Database.t) (n : string) :
  let store' := Database.deactivate_player store n in
  (forall r, In r (Database.active_players store') -> Database.name r <> n)
  /\ (forall r, Database.name r <> n ->
        (In r (Database.active_players store') <-> In r (Database.active_players store)))
  /\ map (Database.set_active 0) (Database.rows store')
     = map (Database.set_active 0) (Database.rows store)
  /\ Database.activate_player store' n = Database.activate_player store n
  /\ ((forall r, In r (Database.rows store) -> Database.name r = n -> Database.active r = 1) ->
      Database.activate_player store' n = store).
Proof.
  intros store'.
  assert (Hact : Database.activate_player store' n = Database.activate_player store n).
  { unfold store', Database.activate_player, Database.deactivate_player, Database.update_where.
    simpl. f_equal. rewrite map_map. apply map_ext. intros r.
    destruct (Database.has_name n r) eqn:E.
    - unfold Database.has_name in *. simpl. rewrite E. reflexivity.
    - now rewrite E. }
  split; [|split; [|split; [|split]]].
  - intros r Hr Hn. unfold Database.active_players in Hr.
    apply List.filter_In in Hr as [Hin Ha]. simpl in Hin.
    apply in_map_iff in Hin as (r0 & Hr0 & Hin).
    destruct (Database.has_name n r0) eqn:E.
    + subst r. simpl in Ha. discriminate.
    + subst r0. unfold Database.has_name in E. apply String.eqb_neq in E. contradiction.
  - intros r Hn. unfold Database.active_players. rewrite !List.filter_In. simpl.
    rewrite in_map_iff. split.
    + intros [(r0 & Hr0 & Hin) Ha]. destruct (Database.has_name n r0) eqn:E.
      * subst r. simpl in Hn. unfold Database.has_name in E.
        apply String.eqb_eq in E. contradiction.
      * subst r0. now split.
    + intros [Hin Ha]. split; [|exact Ha]. exists r. split; [|exact Hin].
      unfold Database.has_name. apply String.eqb_neq in Hn. now rewrite Hn.
  - simpl. rewrite map_map. apply map_ext. intros r.
    destruct (Database.has_name n r); reflexivity.
  - exact Hact.
  - intros Hone. rewrite Hact. unfold Database.activate_player, Database.update_where.
    rewrite map_unchanged; [apply store_eta|].
    intros r Hr. destruct (Database.has_name n r) eqn:E; [|reflexivity].
    unfold Database.has_name in E. apply String.eqb_eq in E.
    unfold Database.set_active. rewrite <- (Hone r Hr E). apply row_eta.
Qed.

Lemma deactivate_excludes_witness :
  map Database.name (Database.active_players (Database.deactivate_player demo_db "b"))
  = ["a"; "c"; "d"; "e"]
  /\ Database.activate_player (Database.deactivate_player demo_db "b") "b" = demo_db.
Proof.
  split; [reflexivity|].
  destruct (deactivate_excludes demo_db "b") as (_ & _ & _ & _ & Hback).
  apply Hback. intros r Hr _. simpl in Hr.
  destruct Hr as [<-|[<-|[<-|[<-|[<-|[]]]]]]; reflexivity.
Defined.

(** A name that no row has: the lookup is empty, and deleting,
    activating, deactivating, ranking and rating it all leave the table
    exactly as it is, without an error. *)
Theorem absent_name_is_noop (store : Database.t) (n : string) :
  ~ In n (names_of store) ->
  Database.get_player store [n] = []
  /\ Database.delete_player store n = store
  /\ Database.activate_player store n = store
  /\ Database.deactivate_player store n = store
  /\ (forall v, Database.update_player_rank store n v = store)
  /\ (forall now skill mu sigma,
        Database.update_player_skill store now n skill mu sigma = store)
  /\ (forall now player, Player.name player = n ->
        Database.save_player store now player = store).
Proof.
  intros Hn.
  pose proof (has_name_false n _ Hn) as Hfalse.
  split; [|split; [|split; [|split; [|split; [|split]]]]];
    try (intros; now apply update_where_absent).
  - rewrite get_player_one. now apply filter_nothing.
  - unfold Database.delete_player. rewrite filter_all; [apply store_eta|].
    intros r Hr. now rewrite (Hfalse r Hr).
  - intros now player <-. unfold Database.save_player. now apply update_where_absent.
Qed.

Lemma absent_name_is_noop_witness :
  Database.get_player demo_db ["zz"] = []
  /\ Database.delete_player demo_db "zz" = demo_db
  /\ Database.deactivate_player demo_db "zz" = demo_db.
Proof.
  destruct (absent_name_is_noop demo_db "zz") as (Hg & Hd & _ & Hde & _).
  - simpl. intuition discriminate.
  - split; [exact Hg|]. split; [exact Hd | exact Hde].
Defined.

(** ** Rounds *)

(** *** What the draws leave alone *)

Lemma randint_frame (a b : number) (w : Manager.world) :
  but_rng (snd (Manager.randint a b w)) = but_rng w.
Proof.
  unfold Manager.randint. now destruct (Random.randint (Manager.rng w) a b).
Qed.

Lemma lift_frame {A} (r : result A) (w : Manager.world) :
  but_rng (snd (Manager.lift r w)) = but_rng w.
Proof. reflexivity. Qed.

Lemma bind_frame {A B} (c : Manager.M A) (k : A -> Manager.M B) :
  (forall w, but_rng (snd (c w)) = but_rng w) ->
  (forall a w, but_rng (snd (k a w)) = but_rng w) ->
  forall w, but_rng (snd (Manager.bind c k w)) = but_rng w.
Proof.
  intros Hc Hk w. unfold Manager.bind. specialize (Hc w).
  destruct (c w) as [[a|e] w1]; simpl in *; [|exact Hc].
  now rewrite Hk.
Qed.

Lemma pick_loop_frame (fuel : nat) :
  forall (open_set so_far : list Z) (w : Manager.world),
    but_rng (snd (Manager.pick_loop fuel open_set so_far w)) = but_rng w.
Proof.
  induction fuel as [|fuel IH]; intros open_set so_far w; [reflexivity|].
  simpl. apply bind_frame; [apply randint_frame|]. intros i.
  apply bind_frame; [apply lift_frame|]. intros chosen.
  apply bind_frame; [apply lift_frame|]. intros open_set'. apply IH.
Qed.

Lemma pick_players_frame (num : Z) (w : Manager.world) :
  but_rng (snd (Manager.pick_players num w)) = but_rng w.
Proof. apply pick_loop_frame. Qed.

Lemma pick_count_frame (w : Manager.world) :
  but_rng (snd (Manager.pick_count w)) = but_rng w.
Proof. apply randint_frame. Qed.

Lemma pick_size_frame (w : Manager.world) :
  but_rng (snd (Manager.pick_size w)) = but_rng w.
Proof.
  unfold Manager.pick_size.
  apply bind_frame; [apply lift_frame|]. intros lo.
  apply bind_frame; [apply lift_frame|]. intros hi.
  apply bind_frame; [apply randint_frame|]. reflexivity.
Qed.

Lemma but_rng_mgr (w w' : Manager.world) :
  but_rng w' = but_rng w ->
  Manager.mgr w' = Manager.mgr w /\ Manager.log w' = Manager.log w
  /\ Manager.notices w' = Manager.notices w /\ Manager.reads w' = Manager.reads w.
Proof. unfold but_rng. intros [= -> -> -> ->]. auto. Qed.

(** One turn of [run_rounds]: either a draw raises, or a round is run on a
    world that differs from the first in its generator alone, and the
    counter goes up when the round returns. *)
Lemma run_rounds_body_round (env : Env) (clock : nat -> string) (w : Manager.world) :
  (exists e w', Manager.run_rounds_body env clock w = (Raise e, w')
                /\ but_rng w' = but_rng w)
  \/ (exists chosen size seed w1,
        but_rng w1 = but_rng w
        /\ Manager.run_rounds_body env clock w =
             match Manager.run_round env clock chosen (fst size) (snd size) seed w1 with
             | (Ok _, w2) =>
                 (Ok tt,
                  Manager.set_mgr w2
                    (Manager.set_round_count (Manager.mgr w2)
                       (Manager.round_count (Manager.mgr w2) + 1)))
             | (Raise e, w2) => (Raise e, w2)
             end).
Proof.
  unfold Manager.run_rounds_body, Manager.bind.
  pose proof (pick_count_frame w) as Ha.
  destruct (Manager.pick_count w) as [[k|e] wa]; simpl in Ha; [|left; eauto].
  pose proof (pick_players_frame k wa) as Hb.
  destruct (Manager.pick_players k wa) as [[chosen|e] wb]; simpl in Hb;
    [|left; exists e, wb; split; [reflexivity | congruence]].
  pose proof (pick_size_frame wb) as Hc.
  destruct (Manager.pick_size wb) as [[size|e] wc]; simpl in Hc;
    [|left; exists e, wc; split; [reflexivity | congruence]].
  pose proof (randint_frame (Int 10000) (Int 2073741824) wc) as Hd.
  destruct (Manager.randint (Int 10000) (Int 2073741824) wc) as [[seed|e] wd]; simpl in Hd;
    [|left; exists e, wd; split; [reflexivity | congruence]].
  right. exists chosen, size, seed, wd. split; [congruence|].
  destruct (Manager.run_round env clock chosen (fst size) (snd size) seed wd) as [[u|e] w2];
    reflexivity.
Qed.

(** *** A round in closed form *)

Lemma set_db_same (self : Manager.t) : Manager.set_db self (Manager.db self) = self.
Proof. destruct self; reflexivity. Qed.

Lemma world_eta (w : Manager.world) :
  Manager.mk_world (Manager.mgr w) (Manager.rng w) (Manager.log w) (Manager.notices w)
                   (Manager.reads w) = w.
Proof. destruct w; reflexivity. Qed.

(** [save_players] never raises and writes the table and the clock only. *)
Lemma save_players_saved (clock : nat -> string) (refs : list nat) :
  forall w : Manager.world,
    let s := saved clock (Manager.players (Manager.mgr w)) refs
                   (Manager.db (Manager.mgr w)) (Manager.reads w) in
    Manager.save_players clock refs w =
      (Ok tt, Manager.mk_world (Manager.set_db (Manager.mgr w) (fst s)) (Manager.rng w)
                               (Manager.log w) (Manager.notices w) (snd s)).
Proof.
  induction refs as [|r refs IH]; intros w; simpl.
  - unfold Manager.ret. now rewrite set_db_same, world_eta.
  - destruct (Manager.players (Manager.mgr w) !! r) as [player|] eqn:E; [|apply IH].
    rewrite IH. reflexivity.
Qed.

(** The requests of a match about the engine process: the spawn, and
    the timed wait unless the spawn raised. *)
Lemma run_match_events (env : Env) (m : Match.t) (halite_binary : string) (h : heap) :
  let command := Match.get_command m halite_binary in
  let r := Match.run_match env m halite_binary h in
  Match.events r = [Spawn command; Communicate (Match.total_time_limit m)]
  \/ (Match.events r = [Spawn command]
      /\ exists e, halite env command (Match.total_time_limit m) = SpawnFailed e
                   /\ Match.outcome r = Raise e).
Proof.
  cbv zeta. unfold Match.run_match.
  destruct (halite env _ _) as [raw code| |e0|e0]; [|now left|right; eauto|now left].
  destruct (PyStr.decode_ascii raw); [|now left].
  destruct (Match.parse_results_string _) as [[u|e] m2]; [|now left].
  destruct (update_ranks env h _ _); now left.
Qed.

Lemma run_match_events_ok (env : Env) (m : Match.t) (halite_binary : string) (h : heap) :
  is_ok (Match.outcome (Match.run_match env m halite_binary h)) = true ->
  Match.events (Match.run_match env m halite_binary h) =
    [Spawn (Match.get_command m halite_binary); Communicate (Match.total_time_limit m)].
Proof.
  destruct (run_match_events env m halite_binary h) as [H|(_ & e & _ & H)];
    [now intros _ | rewrite H; discriminate].
Qed.

(** [run_round] written out: what it returns and the world it leaves. *)
Lemma run_round_closed (env : Env) (clock : nat -> string) (indices : list Z)
    (width height seed : Z) (w : Manager.world) :
  Manager.run_round env clock indices width height seed w =
    match Manager.refs_of (length (Manager.players (Manager.mgr w))) indices with
    | Raise e => (Raise e, w)
    | Ok refs =>
        let m := Manager.new_match (Manager.mgr w) refs indices width height seed in
        let r := Match.run_match env m (Manager.halite_binary (Manager.mgr w))
                                 (Manager.players (Manager.mgr w)) in
        let evs := Match.events r in
        match Match.outcome r with
        | Raise e =>
            (Raise e,
             Manager.mk_world (Manager.set_players (Manager.mgr w) (Match.players_after r))
               (Manager.rng w) (Manager.log w ++ evs) (Manager.notices w) (Manager.reads w))
        | Ok _ =>
            let s := saved clock (Match.players_after r) refs (Manager.db (Manager.mgr w))
                           (Manager.reads w) in
            (Ok tt,
             Manager.mk_world
               (Manager.set_db (Manager.set_players (Manager.mgr w) (Match.players_after r))
                               (Database.update_player_ranks (fst s)))
               (Manager.rng w) (Manager.log w ++ evs) (Manager.notices w) (snd s))
        end
    end.
Proof.
  unfold Manager.run_round.
  destruct (Manager.refs_of _ _) as [refs|e]; [|reflexivity]. cbv zeta.
  destruct (Match.outcome _) as [u|e]; [|reflexivity].
  rewrite save_players_saved. reflexivity.
Qed.

(** What a round leaves alone, whatever its outcome: the settings and
    the round counter of the manager, the generator and the notices, and
    the names of the player objects; a round that returns has started one
    engine process and waited for it once. *)
Lemma run_round_frame (env : Env) (clock : nat -> string) (indices : list Z)
    (width height seed : Z) (w : Manager.world) :
  let r := Manager.run_round env clock indices width height seed w in
  config (Manager.mgr (snd r)) = config (Manager.mgr w)
  /\ Manager.round_count (Manager.mgr (snd r)) = Manager.round_count (Manager.mgr w)
  /\ Manager.rng (snd r) = Manager.rng w
  /\ Manager.notices (snd r) = Manager.notices w
  /\ map Player.name (Manager.players (Manager.mgr (snd r)))
     = map Player.name (Manager.players (Manager.mgr w))
  /\ (is_ok (fst r) = true ->
      length (Manager.log (snd r)) = (length (Manager.log w) + 2)%nat).
Proof.
  cbv zeta. rewrite run_round_closed.
  destruct (Manager.refs_of _ _) as [refs|e]; [|simpl; intuition discriminate].
  cbv zeta. destruct (Match.outcome _) as [u|e] eqn:Eo; simpl;
    rewrite ?run_match_names; repeat split; try discriminate.
  intros _. rewrite length_app, run_match_events_ok by now rewrite Eo. reflexivity.
Qed.

(** *** The number of rounds *)

(** With a number of rounds to play, [run_rounds] stops of its own: it
    returns only when the counter has reached [rounds], having started
    one engine process for each round that was left, and it raises only
    with the counter below [rounds]; [rounds] itself is never written.
    The counter counts completed rounds: a round that raises is not
    counted. *)
Theorem run_rounds_count (env : Env) (clock : nat -> string) (fuel : nat)
    (w : Manager.world) :
  0 <= Manager.rounds (Manager.mgr w) ->
  Manager.round_count (Manager.mgr w) <= Manager.rounds (Manager.mgr w) ->
  Manager.rounds (Manager.mgr w) - Manager.round_count (Manager.mgr w) <= Z.of_nat fuel ->
  let r := Manager.run_rounds env clock fuel w in
  Manager.rounds (Manager.mgr (snd r)) = Manager.rounds (Manager.mgr w)
  /\ match fst r with
     | Ok _ =>
         Manager.round_count (Manager.mgr (snd r)) = Manager.rounds (Manager.mgr w)
         /\ Z.of_nat (length (Manager.log (snd r)))
            = Z.of_nat (length (Manager.log w))
              + 2 * (Manager.rounds (Manager.mgr w) - Manager.round_count (Manager.mgr w))
     | Raise _ =>
         Manager.round_count (Manager.mgr w) <= Manager.round_count (Manager.mgr (snd r))
           < Manager.rounds (Manager.mgr w)
     end.
Proof.
  revert w. induction fuel as [|fuel IH]; intros w H0 Hle Hfuel; cbv zeta.
  - simpl. split; [reflexivity|]. split; lia.
  - simpl.
    replace (Manager.rounds (Manager.mgr w) <? 0) with false
      by (symmetry; apply Z.ltb_ge; lia).
    simpl. destruct (Z.ltb_spec (Manager.round_count (Manager.mgr w))
                                (Manager.rounds (Manager.mgr w))) as [Hlt|Hge].
    2:{ simpl. split; [reflexivity|]. split; lia. }
    unfold Manager.bind.
    destruct (run_rounds_body_round env clock w)
      as [(e & w' & -> & Hw')|(chosen & size & seed & w1 & Hw1 & ->)].
    + apply but_rng_mgr in Hw' as (Hm & _). simpl. rewrite Hm.
      split; [reflexivity | lia].
    + apply but_rng_mgr in Hw1 as (Hm & Hl & _).
      pose proof (run_round_frame env clock chosen (fst size) (snd size) seed w1)
        as (Hc & Hrc & _ & _ & _ & Hlog).
      cbv zeta in *. rewrite Hm in *.
      assert (Hr : Manager.rounds (Manager.mgr (snd (Manager.run_round env clock chosen
                     (fst size) (snd size) seed w1))) = Manager.rounds (Manager.mgr w))
        by (unfold config in Hc; congruence).
      destruct (Manager.run_round env clock chosen (fst size) (snd size) seed w1)
        as [[u|e] w2]; simpl in *.
      * specialize (Hlog eq_refl). rewrite Hrc.
        specialize (IH (Manager.set_mgr w2
                          (Manager.set_round_count (Manager.mgr w2)
                             (Manager.round_count (Manager.mgr w2) + 1)))).
        simpl in IH. rewrite Hr, Hrc in IH.
        specialize (IH ltac:(lia) ltac:(lia) ltac:(lia)).
        destruct IH as [IHr IHc]. split; [exact IHr|].
        destruct (fst (Manager.run_rounds env clock fuel _)); [|lia].
        destruct IHc as [IHc IHl]. split; [exact IHc|]. rewrite IHl, Hlog, Hl. lia.
      * split; [exact Hr | lia].
Qed.

Lemma run_rounds_count_witness :
  let env := demo_env (Completed (example_output "a" "b" nl) 0) in
  let w := Manager.set_mgr (demo_world 20 50 2 2 (fun _ => 0))
             (Manager.set_rounds (Manager.mgr (demo_world 20 50 2 2 (fun _ => 0))) 3) in
  let r := Manager.run_rounds env demo_clock 5 w in
  fst r = Ok tt
  /\ Manager.round_count (Manager.mgr (snd r)) = 3
  /\ Z.of_nat (length (Manager.log (snd r))) = 6.
Proof.
  intros env w r.
  assert (Hok : fst r = Ok tt) by (vm_compute; reflexivity).
  split; [exact Hok|].
  pose proof (run_rounds_count env demo_clock 5 w) as H.
  cbv zeta in H. fold r in H. rewrite Hok in H.
  destruct H as (_ & Hc & Hl); [simpl; lia | simpl; lia | simpl; lia |].
  split; [exact Hc | exact Hl].
Defined.

(** *** What holds after every round holds after [run_rounds] *)

Section RoundInvariant.

Variable env : Env.
Variable clock : nat -> string.
Variable P : Manager.t -> Prop.

Hypothesis P_round :
  forall indices width height seed w,
    P (Manager.mgr w) ->
    P (Manager.mgr (snd (Manager.run_round env clock indices width height seed w))).

Hypothesis P_count : forall m v, P m -> P (Manager.set_round_count m v).

Lemma run_rounds_body_invariant (w : Manager.world) :
  P (Manager.mgr w) -> P (Manager.mgr (snd (Manager.run_rounds_body env clock w))).
Proof.
  intros HP.
  destruct (run_rounds_body_round env clock w)
    as [(e & w' & -> & Hw')|(chosen & size & seed & w1 & Hw1 & ->)].
  - apply but_rng_mgr in Hw' as (Hm & _). simpl. now rewrite Hm.
  - apply but_rng_mgr in Hw1 as (Hm & _). rewrite <- Hm in HP.
    pose proof (P_round chosen (fst size) (snd size) seed w1 HP) as HP'.
    destruct (Manager.run_round env clock chosen (fst size) (snd size) seed w1)
      as [[u|e] w2]; simpl in *; [now apply P_count | exact HP'].
Qed.

Lemma run_rounds_invariant (fuel : nat) :
  forall w, P (Manager.mgr w) ->
            P (Manager.mgr (snd (Manager.run_rounds env clock fuel w))).
Proof.
  induction fuel as [|fuel IH]; intros w HP; simpl; [exact HP|].
  destruct (_ || _); [|exact HP].
  unfold Manager.bind.
  pose proof (run_rounds_body_invariant w HP) as HP'.
  destruct (Manager.run_rounds_body env clock w) as [[u|e] w1]; simpl in *;
    [now apply IH | exact HP'].
Qed.

End RoundInvariant.

(** *** The skill stays [mu - sigma * 3] *)

Lemma update_player_skill_consistent (h : heap) (refs : list nat) (n : string)
    (data : GaussianRating) :
  Forall player_consistent h ->
  Forall player_consistent (update_player_skill h refs n data).
Proof.
  intros Hh. induction refs as [|r refs IH]; simpl; [exact Hh|].
  unfold heap in *. destruct (h !! r) as [player|]; [|exact IH].
  destruct (String.eqb _ _); [|exact IH].
  apply Forall_insert; [exact Hh | reflexivity].
Qed.

Lemma apply_updated_consistent (refs : list nat) (updated : list Team) (h : heap) :
  Forall player_consistent h ->
  Forall player_consistent (apply_updated refs updated h).
Proof.
  unfold apply_updated. revert h.
  induction updated as [|team updated IH]; intros h Hh; simpl; [exact Hh|].
  apply IH. clear IH. revert h Hh.
  induction team as [|entry team IH]; intros h Hh; simpl; [exact Hh|].
  apply IH. now apply update_player_skill_consistent.
Qed.

(** What a match leaves of the player objects: the objects as they were,
    or with the ratings that the rating engine returned. *)
Lemma run_match_players (env : Env) (m : Match.t) (halite_binary : string) (h : heap) :
  Match.players_after (Match.run_match env m halite_binary h) = h
  \/ exists refs updated,
       Match.players_after (Match.run_match env m halite_binary h)
       = apply_updated refs updated h.
Proof.
  unfold Match.run_match.
  destruct (halite env _ _) as [raw code| |e0|e0]; [|now left..].
  destruct (PyStr.decode_ascii raw); [|now left].
  destruct (Match.parse_results_string _) as [[u|e] m2]; [|now left].
  unfold update_ranks.
  destruct (new_ratings env _ _); simpl; [|now left].
  right. eauto.
Qed.

Lemma run_match_consistent (env : Env) (m : Match.t) (halite_binary : string) (h : heap) :
  Forall player_consistent h ->
  Forall player_consistent (Match.players_after (Match.run_match env m halite_binary h)).
Proof.
  intros Hh. destruct (run_match_players env m halite_binary h) as [->|(refs & up & ->)];
    [exact Hh | now apply apply_updated_consistent].
Qed.

Lemma saved_consistent (clock : nat -> string) (h : heap) (refs : list nat) :
  Forall player_consistent h ->
  forall store reads,
    Forall row_consistent (Database.rows store) ->
    Forall row_consistent (Database.rows (fst (saved clock h refs store reads))).
Proof.
  intros Hh. induction refs as [|r refs IH]; intros store reads Hs; simpl; [exact Hs|].
  unfold heap in *. destruct (h !! r) as [player|] eqn:E; [|now apply IH].
  apply IH. pose proof (Forall_lookup_1 _ _ _ _ Hh E) as Hp.
  simpl. rewrite List.Forall_forall in Hs |- *. intros row Hrow.
  apply in_map_iff in Hrow as (row0 & <- & Hin).
  destruct (Database.has_name _ row0); [exact Hp | now apply Hs].
Qed.

Lemma assign_ranks_consistent (names : list string) :
  forall (store : Database.t) (i : Z),
    Forall row_consistent (Database.rows store) ->
    Forall row_consistent (Database.rows (Database.assign_ranks store i names)).
Proof.
  induction names as [|n names IH]; intros store i Hs; simpl; [exact Hs|].
  apply IH. simpl. rewrite List.Forall_forall in Hs |- *. intros row Hrow.
  apply in_map_iff in Hrow as (row0 & <- & Hin).
  destruct (Database.has_name _ row0); exact (Hs row0 Hin).
Qed.

Lemma run_round_consistent (env : Env) (clock : nat -> string) (indices : list Z)
    (width height seed : Z) (w : Manager.world) :
  consistent (Manager.mgr w) ->
  consistent (Manager.mgr (snd (Manager.run_round env clock indices width height seed w))).
Proof.
  intros [Hp Hr]. rewrite run_round_closed.
  destruct (Manager.refs_of _ _) as [refs|e]; [|now split]. cbv zeta.
  pose proof (run_match_consistent env
                (Manager.new_match (Manager.mgr w) refs indices width height seed)
                (Manager.halite_binary (Manager.mgr w)) _ Hp) as Hp'.
  destruct (Match.outcome _) as [u|e]; split; simpl; try assumption.
  apply assign_ranks_consistent. now apply saved_consistent.
Qed.

(** The starting rating is consistent: [50.0 - (50.0 / 3.0) * 3] is [0.0]
    in binary64. *)
Lemma fresh_row_consistent (store : Database.t) (now n p : string) :
  row_consistent (fresh_row store now n p).
Proof. reflexivity. Qed.

(** The skill of every player is its rating's [mu - sigma * 3], in the
    table and in memory, and stays so: when it holds of all rows and all
    player objects, it holds after a registration, after a round whatever
    the engines return and however the round ends, after any number of
    rounds, and after [run_matches], which loads the player objects from
    the rows. *)
Theorem skill_consistency_kept (env : Env) (clock : nat -> string) (w : Manager.world) :
  consistent (Manager.mgr w) ->
  (forall name path,
      consistent (Manager.mgr (snd (Manager.add_player clock name path w))))
  /\ (forall indices width height seed,
        consistent (Manager.mgr
                      (snd (Manager.run_round env clock indices width height seed w))))
  /\ (forall fuel, consistent (Manager.mgr (snd (Manager.run_rounds env clock fuel w))))
  /\ (forall fuel n,
        consistent (Manager.mgr (snd (Manager.run_matches env clock fuel n w)))).
Proof.
  intros Hc.
  assert (Hcount : forall m v, consistent m -> consistent (Manager.set_round_count m v))
    by (intros m v H; exact H).
  split; [|split; [|split]].
  - intros name path. unfold Manager.add_player.
    destruct (_ =? 0); [|exact Hc].
    unfold Manager.bind, Manager.now, Database.add_player. simpl.
    destruct (existsb _ _); [exact Hc|]. simpl.
    destruct Hc as [Hp Hr]. split; [exact Hp|]. simpl.
    apply Forall_app. split; [exact Hr|]. repeat constructor.
  - intros. now apply run_round_consistent.
  - intros fuel. apply (run_rounds_invariant env clock consistent); auto.
    intros. now apply run_round_consistent.
  - intros fuel n. unfold Manager.run_matches.
    destruct (_ <? 2); [exact Hc|].
    apply (run_rounds_invariant env clock consistent); auto.
    + intros. now apply run_round_consistent.
    + destruct Hc as [Hp Hr]. split; simpl; [|exact Hr].
      rewrite List.Forall_forall in Hr |- *. intros p Hin.
      apply in_map_iff in Hin as (row & <- & Hin).
      apply List.filter_In in Hin as [Hin _]. exact (Hr row Hin).
Qed.

Lemma skill_consistency_kept_witness :
  let env := demo_env (Completed (example_output "a" "b" nl) 0) in
  let w := demo_world 20 50 2 6 (fun _ => 0) in
  consistent (Manager.mgr (snd (Manager.run_round env demo_clock [0; 1] 20 20 10000 w)))
  /\ consistent (Manager.mgr (snd (Manager.run_matches env demo_clock 3 2 w))).
Proof.
  intros env w.
  assert (Hc : consistent (Manager.mgr w)).
  { split; simpl; repeat constructor. }
  pose proof (skill_consistency_kept env demo_clock w Hc) as (_ & Hr & _ & Hm).
  split; [apply Hr | apply Hm].
Defined.

(** *** A round that raises *)

(** A round whose match raises has written nothing.  When [run_match]
    raises (the engine is not started or outlives the limit, its output
    is not decoded or not parsed, the rating or the disposal of the replay
    raises), [run_round] raises the same exception with no row written and
    the clock not read; the generator, the notices, the settings and the
    round counter are as before, and the player objects have their names.
    Their ratings need not be as before: when the match raises after the
    ratings were computed, the player objects carry the new ratings that
    the table does not have. *)
Theorem failed_match_writes_nothing (env : Env) (clock : nat -> string)
    (indices : list Z) (width height seed : Z) (w : Manager.world) (refs : list nat)
    (e : exn) :
  Manager.refs_of (length (Manager.players (Manager.mgr w))) indices = Ok refs ->
  Match.outcome
    (Match.run_match env (Manager.new_match (Manager.mgr w) refs indices width height seed)
                     (Manager.halite_binary (Manager.mgr w))
                     (Manager.players (Manager.mgr w))) = Raise e ->
  exists w',
    Manager.run_round env clock indices width height seed w = (Raise e, w')
    /\ Database.rows (Manager.db (Manager.mgr w')) = Database.rows (Manager.db (Manager.mgr w))
    /\ Manager.db (Manager.mgr w') = Manager.db (Manager.mgr w)
    /\ Manager.reads w' = Manager.reads w
    /\ Manager.rng w' = Manager.rng w
    /\ Manager.notices w' = Manager.notices w
    /\ config (Manager.mgr w') = config (Manager.mgr w)
    /\ Manager.round_count (Manager.mgr w') = Manager.round_count (Manager.mgr w)
    /\ map Player.name (Manager.players (Manager.mgr w'))
       = map Player.name (Manager.players (Manager.mgr w)).
Proof.
  intros Hrefs Hraise. rewrite run_round_closed, Hrefs. cbv zeta. rewrite Hraise.
  eexists. split; [reflexivity|]. simpl. rewrite run_match_names. repeat split.
Qed.

Lemma failed_match_writes_nothing_witness :
  let env := demo_env_no_disposal (Completed (example_output "a" "b" nl) 0) in
  let w := demo_world 20 50 2 6 (fun _ => 0) in
  exists w',
    Manager.run_round env demo_clock [0; 1] 20 20 10000 w
      = (Raise (ExternalError "replay"), w')
    /\ Database.rows (Manager.db (Manager.mgr w')) = Database.rows demo_db
    /\ Manager.reads w' = 0%nat.
Proof.
  intros env w.
  destruct (failed_match_writes_nothing env demo_clock [0; 1] 20 20 10000 w
              [0%nat; 1%nat] (ExternalError "replay"))
    as (w' & Hrun & Hrows & _ & Hreads & _);
    [reflexivity | vm_compute; reflexivity |].
  exists w'. split; [exact Hrun|]. split; [exact Hrows | exact Hreads].
Defined.

(** When the replay cannot be disposed of, the round raises after the
    ratings were computed: player "a" has its new rating in memory, and
    the table still has the old one. *)
Example late_failure_loses_the_rating :
  let env := demo_env_no_disposal (Completed (example_output "a" "b" nl) 0) in
  let r := Manager.run_round env demo_clock [0; 1] 20 20 10000
             (demo_world 20 50 2 6 (fun _ => 0)) in
  fst r = Raise (ExternalError "replay")
  /\ map Player.mu (Manager.players (Manager.mgr (snd r)))
     = [30%float; 50%float; 50%float; 50%float; 50%float]
  /\ map Database.mu (Database.rows (Manager.db (Manager.mgr (snd r))))
     = [50%float; 50%float; 50%float; 50%float; 50%float].
Proof. intros env r. repeat split; vm_compute; reflexivity. Qed.

(** *** Players that are not loaded *)

Lemma map_update_where_same {B} (g : Database.row -> B) (n : string)
    (f : Database.row -> Database.row) (rs : list Database.row) :
  (forall r, Database.has_name n r = true -> g (f r) = g r) ->
  map g (map (fun r => if Database.has_name n r then f r else r) rs) = map g rs.
Proof.
  intros Hg. rewrite map_map. apply map_ext. intros r.
  destruct (Database.has_name n r) eqn:E; [now apply Hg | reflexivity].
Qed.

Lemma existsb_eqb_In (n : string) (L : list string) :
  existsb (String.eqb n) L = true <-> In n L.
Proof.
  rewrite existsb_exists. split.
  - intros (m & Hin & E). apply String.eqb_eq in E. now subst.
  - intros Hin. exists n. split; [exact Hin | apply String.eqb_refl].
Qed.

Lemma lookup_In {A} (l : list A) (i : nat) (x : A) : l !! i = Some x -> In x l.
Proof. intros H. apply list_elem_of_In. eapply list_elem_of_lookup_2; eauto. Qed.

Lemma saved_frozen (clock : nat -> string) (h : heap) (refs : list nat) (L : list string) :
  (forall p, In p h -> In (Player.name p) L) ->
  forall store reads,
    map (frozen L) (Database.rows (fst (saved clock h refs store reads)))
    = map (frozen L) (Database.rows store).
Proof.
  intros HL. induction refs as [|r refs IH]; intros store reads; simpl; [reflexivity|].
  unfold heap in *. destruct (h !! r) as [player|] eqn:E; [|apply IH].
  rewrite IH. simpl. apply map_update_where_same. intros row Hrow.
  unfold Database.has_name in Hrow. apply String.eqb_eq in Hrow.
  unfold frozen. simpl.
  assert (Hin : existsb (String.eqb (Database.name row)) L = true).
  { apply existsb_eqb_In. rewrite Hrow. apply HL. eapply lookup_In; eauto. }
  now rewrite Hin.
Qed.

Lemma assign_ranks_frozen (names : list string) (L : list string) :
  forall (store : Database.t) (i : Z),
    map (frozen L) (Database.rows (Database.assign_ranks store i names))
    = map (frozen L) (Database.rows store).
Proof.
  induction names as [|n names IH]; intros store i; simpl; [reflexivity|].
  rewrite IH. simpl. apply map_update_where_same. reflexivity.
Qed.

Lemma run_round_frozen (env : Env) (clock : nat -> string) (indices : list Z)
    (width height seed : Z) (w : Manager.world) :
  let L := map Player.name (Manager.players (Manager.mgr w)) in
  map (frozen L)
      (Database.rows (Manager.db (Manager.mgr
         (snd (Manager.run_round env clock indices width height seed w)))))
  = map (frozen L) (Database.rows (Manager.db (Manager.mgr w))).
Proof.
  intros L. rewrite run_round_closed.
  destruct (Manager.refs_of _ _) as [refs|e]; [|reflexivity]. cbv zeta.
  destruct (Match.outcome _) as [u|e]; [|reflexivity]. simpl.
  unfold Database.update_player_ranks. rewrite assign_ranks_frozen.
  apply saved_frozen. intros p Hp. unfold L.
  rewrite <- (run_match_names env
                (Manager.new_match (Manager.mgr w) refs indices width height seed)
                (Manager.halite_binary (Manager.mgr w))).
  now apply in_map.
Qed.

(** Deactivated players are out of the game: whatever [run_matches] does,
    for any number of rounds and however it ends, every row that is not
    active keeps its place in the table and all its columns but the rank
    (name, path, time stamp, rating, games played, [active] flag), on a
    table of pairwise different names. *)
Theorem inactive_rows_untouched (env : Env) (clock : nat -> string) (fuel : nat)
    (n : Z) (w : Manager.world) :
  List.NoDup (names_of (Manager.db (Manager.mgr w))) ->
  let w' := snd (Manager.run_matches env clock fuel n w) in
  forall i r,
    Database.rows (Manager.db (Manager.mgr w)) !! i = Some r ->
    Database.active r <= 0 ->
    exists r',
      Database.rows (Manager.db (Manager.mgr w')) !! i = Some r'
      /\ Database.set_rank 0 r' = Database.set_rank 0 r.
Proof.
  intros Hnd w' i r Hi Hr.
  set (store := Manager.db (Manager.mgr w)) in *.
  set (L := map Database.name (Database.active_players store)).
  assert (Hfrozen : map (frozen L) (Database.rows (Manager.db (Manager.mgr w')))
                    = map (frozen L) (Database.rows store)).
  { unfold w', Manager.run_matches. fold store.
    destruct (_ <? 2); [reflexivity|].
    set (w0 := Manager.set_mgr w _).
    apply (run_rounds_invariant env clock
             (fun m => map Player.name (Manager.players m) = L
                       /\ map (frozen L) (Database.rows (Manager.db m))
                          = map (frozen L) (Database.rows store))).
    - intros indices width height seed w1 [Hn Hf].
      pose proof (run_round_frame env clock indices width height seed w1)
        as (_ & _ & _ & _ & Hnames & _).
      pose proof (run_round_frozen env clock indices width height seed w1) as Hfr.
      cbv zeta in *. rewrite Hn in *. split; congruence.
    - intros m v H. exact H.
    - subst w0. simpl. split; [|reflexivity].
      unfold L. rewrite map_map. reflexivity. }
  assert (HnL : existsb (String.eqb (Database.name r)) L = false).
  { destruct (existsb _ _) eqn:E; [|reflexivity]. exfalso.
    apply existsb_eqb_In in E. unfold L in E.
    apply in_map_iff in E as (r2 & Hname & Hin).
    apply List.filter_In in Hin as [Hin Hact]. apply Z.ltb_lt in Hact.
    assert (r2 = r); [|subst; lia].
    apply (NoDup_map_inj Database.name (Database.rows store)); auto.
    - apply NoDup_ListNoDup. exact Hnd.
    - eapply lookup_In; eauto. }
  pose proof (lookup_map_eq (frozen L) _ _ i Hfrozen) as Hlook.
  rewrite Hi in Hlook. simpl in Hlook.
  destruct (Database.rows (Manager.db (Manager.mgr w')) !! i) as [r'|]; [|discriminate].
  exists r'. split; [reflexivity|].
  simpl in Hlook. injection Hlook as Hname _ Hrest.
  rewrite Hname, HnL in Hrest. congruence.
Qed.

Lemma inactive_rows_untouched_witness :
  let env := demo_env (Completed (example_output "a" "b" nl) 0) in
  let store := Database.deactivate_player demo_db "c" in
  let w := Manager.mk_world (Manager.init "./halite" 20 50 2 6 (-1) store)
                            (Random.mk (fun _ => 0) 0) [] [] 0 in
  let w' := snd (Manager.run_matches env demo_clock 3 2 w) in
  exists r',
    Database.rows (Manager.db (Manager.mgr w')) !! 2%nat = Some r'
    /\ Database.set_rank 0 r' = Database.set_rank 0 (Database.set_active 0 (demo_row 3 "c")).
Proof.
  intros env store w w'.
  apply (inactive_rows_untouched env demo_clock 3 2 w).
  - repeat constructor; simpl; intuition discriminate.
  - reflexivity.
  - simpl. lia.
Defined.

(** *** The table and the player objects after a round *)

Section CompletedRounds.

Variable env : Env.
Variable clock : nat -> string.
Variable P : Manager.t -> Prop.

Hypothesis P_round :
  forall indices width height seed w,
    P (Manager.mgr w) ->
    is_ok (fst (Manager.run_round env clock indices width height seed w)) = true ->
    P (Manager.mgr (snd (Manager.run_round env clock indices width height seed w))).

Hypothesis P_count : forall m v, P m -> P (Manager.set_round_count m v).

Lemma run_rounds_completed (fuel : nat) :
  forall w, P (Manager.mgr w) ->
            is_ok (fst (Manager.run_rounds env clock fuel w)) = true ->
            P (Manager.mgr (snd (Manager.run_rounds env clock fuel w))).
Proof.
  induction fuel as [|fuel IH]; intros w HP; simpl; [auto|].
  destruct (_ || _); [|auto].
  unfold Manager.bind.
  destruct (run_rounds_body_round env clock w)
    as [(e & w' & -> & Hw')|(chosen & size & seed & w1 & Hw1 & ->)]; [discriminate|].
  apply but_rng_mgr in Hw1 as (Hm & _). rewrite <- Hm in HP.
  pose proof (P_round chosen (fst size) (snd size) seed w1 HP) as HP'.
  destruct (Manager.run_round env clock chosen (fst size) (snd size) seed w1)
    as [[u|e] w2]; simpl in *; [|discriminate].
  apply IH. simpl. apply P_count. now apply HP'.
Qed.

End CompletedRounds.

Lemma parse_line_players (self self' : Match.t) (count : Z) (line : string) :
  Match.parse_line self count line = Ok self' -> Match.players self' = Match.players self.
Proof.
  unfold Match.parse_line.
  destruct (_ =? _).
  - destruct (PyList.getitem _ _); [|discriminate]. now intros [= <-].
  - destruct (_ =? _); [now intros [= <-]|].
    destruct (_ <? _); [now intros [= <-]|].
    destruct (_ <? _); [|now intros [= <-]].
    destruct (Match.parse_rank_line _ _); [|discriminate]. now intros [= <-].
Qed.

Lemma parse_lines_players (lines : list string) :
  forall (self : Match.t) (count : Z),
    Match.players (snd (Match.parse_lines self count lines)) = Match.players self.
Proof.
  induction lines as [|l lines IH]; intros self count; simpl; [reflexivity|].
  destruct (Match.parse_line self count l) as [self1|e] eqn:E; [|reflexivity].
  rewrite IH. now apply parse_line_players in E.
Qed.

Lemma parse_results_string_players (self : Match.t) :
  Match.players (snd (Match.parse_results_string self)) = Match.players self.
Proof.
  unfold Match.parse_results_string. destruct (_ <? _); [reflexivity|].
  apply parse_lines_players.
Qed.

(** A player object that is not referenced keeps its rating. *)
Lemma update_player_skill_other (h : heap) (refs : list nat) (n : string)
    (data : GaussianRating) (j : nat) :
  ~ In j refs -> update_player_skill h refs n data !! j = h !! j.
Proof.
  induction refs as [|r refs IH]; simpl; intros Hj; [reflexivity|].
  unfold heap in *. destruct (h !! r) as [player|]; [|apply IH; tauto].
  destruct (String.eqb _ _); [|apply IH; tauto].
  apply list_lookup_insert_ne. intros ->. tauto.
Qed.

Lemma apply_updated_other (refs : list nat) (updated : list Team) (h : heap) (j : nat) :
  ~ In j refs -> apply_updated refs updated h !! j = h !! j.
Proof.
  intros Hj. unfold apply_updated. revert h.
  induction updated as [|team updated IH]; intros h; simpl; [reflexivity|].
  rewrite IH. clear IH. revert h.
  induction team as [|entry team IH]; intros h; simpl; [reflexivity|].
  rewrite IH. now apply update_player_skill_other.
Qed.

Lemma run_match_other (env : Env) (m : Match.t) (halite_binary : string) (h : heap)
    (j : nat) :
  ~ In j (Match.players m) ->
  Match.players_after (Match.run_match env m halite_binary h) !! j = h !! j.
Proof.
  intros Hj. unfold Match.run_match.
  destruct (halite env _ _) as [raw code| |e0|e0]; [|reflexivity..].
  destruct (PyStr.decode_ascii raw) as [text|]; [|reflexivity].
  pose proof (parse_results_string_players
                (Match.set_return_code (Match.set_results_string m text) (Some code)))
    as Hp.
  destruct (Match.parse_results_string _) as [[u|e] m2]; [|reflexivity].
  simpl in Hp. unfold update_ranks.
  destruct (new_ratings env _ _); simpl; [|reflexivity].
  apply apply_updated_other. now rewrite Hp.
Qed.

Lemma names_at_In (h : heap) (refs : list nat) (j : nat) (p : Player.t) :
  In j refs -> h !! j = Some p -> In (Player.name p) (names_at h refs).
Proof.
  intros Hj Hp. induction refs as [|r refs IH]; [destruct Hj|].
  simpl. unfold heap in *. destruct Hj as [->|Hj].
  - rewrite Hp. now left.
  - destruct (h !! r); [right|]; now apply IH.
Qed.

(** A row after [save_players]: as it was, when no participant has its
    name, and with the rating of a participant of its name otherwise. *)
Lemma saved_row_spec (clock : nat -> string) (h : heap) (refs : list nat) :
  forall store reads row',
    In row' (Database.rows (fst (saved clock h refs store reads))) ->
    exists row,
      In row (Database.rows store)
      /\ Database.name row' = Database.name row
      /\ ((row' = row /\ ~ In (Database.name row) (names_at h refs))
          \/ exists r p,
               In r refs /\ h !! r = Some p /\ Player.name p = Database.name row
               /\ Database.skill row' = Player.skill p
               /\ Database.mu row' = Player.mu p
               /\ Database.sigma row' = Player.sigma p).
Proof.
  induction refs as [|r refs IH]; intros store reads row' Hrow'; simpl in *.
  - exists row'. split; [exact Hrow'|]. split; [reflexivity|]. left. tauto.
  - unfold heap in *. destruct (h !! r) as [player|] eqn:E.
    + destruct (IH _ _ _ Hrow') as (row1 & Hin1 & Hname1 & Hcase).
      simpl in Hin1. apply in_map_iff in Hin1 as (row & Hrow1 & Hin).
      exists row. split; [exact Hin|].
      destruct (Database.has_name (Player.name player) row) eqn:Hn.
      * subst row1. simpl in *. split; [exact Hname1|].
        unfold Database.has_name in Hn. apply String.eqb_eq in Hn.
        right. destruct Hcase as [[-> Hnot]|(r2 & p2 & Hr2 & Hp2 & Hn2 & Hv)].
        -- exists r, player. simpl. auto 10.
        -- exists r2, p2. auto 10.
      * subst row1. split; [exact Hname1|].
        unfold Database.has_name in Hn. apply String.eqb_neq in Hn.
        destruct Hcase as [[-> Hnot]|(r2 & p2 & Hr2 & Hp2 & Hn2 & Hv)].
        -- left. split; [reflexivity|]. simpl. intros [Heq|Hin']; [congruence | tauto].
        -- right. exists r2, p2. auto 10.
    + destruct (IH _ _ _ Hrow') as (row & Hin & Hname & Hcase).
      exists row. split; [exact Hin|]. split; [exact Hname|].
      destruct Hcase as [Hsame|(r2 & p2 & Hr2 & Hp2 & Hn2 & Hv)]; [now left|].
      right. exists r2, p2. auto 10.
Qed.

Lemma assign_ranks_In (names : list string) :
  forall (store : Database.t) (i : Z) (row' : Database.row),
    In row' (Database.rows (Database.assign_ranks store i names)) ->
    exists row, In row (Database.rows store)
                /\ Database.set_rank 0 row' = Database.set_rank 0 row.
Proof.
  induction names as [|n names IH]; intros store i row' Hrow'; simpl in *; [eauto|].
  destruct (IH _ _ _ Hrow') as (row1 & Hin1 & Heq1).
  simpl in Hin1. apply in_map_iff in Hin1 as (row & Hrow1 & Hin).
  exists row. split; [exact Hin|]. rewrite Heq1. subst row1.
  destruct (Database.has_name n row); reflexivity.
Qed.

(** A round that returns keeps table and player objects in agreement. *)
Lemma run_round_agree (env : Env) (clock : nat -> string) (indices : list Z)
    (width height seed : Z) (w : Manager.world) :
  List.NoDup (map Player.name (Manager.players (Manager.mgr w))) ->
  agree (Manager.mgr w) ->
  is_ok (fst (Manager.run_round env clock indices width height seed w)) = true ->
  agree (Manager.mgr (snd (Manager.run_round env clock indices width height seed w))).
Proof.
  intros Hnd Hag. rewrite run_round_closed.
  destruct (Manager.refs_of _ _) as [refs|e]; [|discriminate]. cbv zeta.
  set (m := Manager.new_match (Manager.mgr w) refs indices width height seed).
  set (run := Match.run_match env m (Manager.halite_binary (Manager.mgr w))
                              (Manager.players (Manager.mgr w))).
  destruct (Match.outcome run) as [u|e]; [|discriminate]. intros _.
  set (h' := Match.players_after run).
  assert (Hnames : map Player.name h' = map Player.name (Manager.players (Manager.mgr w)))
    by apply run_match_names.
  assert (Hnd' : NoDup (map Player.name h'))
    by (rewrite Hnames; apply NoDup_ListNoDup; exact Hnd).
  intros p row' Hp Hrow' Hname. simpl in Hp, Hrow'.
  unfold Database.update_player_ranks in Hrow'.
  apply assign_ranks_In in Hrow' as (row1 & Hrow1 & Heq).
  assert (Hcols : Database.name row' = Database.name row1
                  /\ Database.skill row' = Database.skill row1
                  /\ Database.mu row' = Database.mu row1
                  /\ Database.sigma row' = Database.sigma row1).
  { repeat split.
    - exact (f_equal Database.name Heq).
    - exact (f_equal Database.skill Heq).
    - exact (f_equal Database.mu Heq).
    - exact (f_equal Database.sigma Heq). }
  destruct Hcols as (Hc0 & Hc1 & Hc2 & Hc3). rewrite Hc1, Hc2, Hc3. rewrite Hc0 in Hname.
  apply saved_row_spec in Hrow1 as (row & Hrow & Hname1 & Hcase).
  destruct Hcase as [[-> Hnot]|(r2 & p2 & Hr2 & Hp2 & Hn2 & Hv)].
  - apply list_elem_of_In, list_elem_of_lookup_1 in Hp as [j Hj].
    assert (Hjn : ~ In j refs).
    { intros Hin. apply Hnot. rewrite Hname. eapply names_at_In; eauto. }
    assert (Hold : Manager.players (Manager.mgr w) !! j = Some p).
    { rewrite <- Hj. symmetry. apply run_match_other. exact Hjn. }
    apply (Hag p row); [eapply lookup_In; eauto | exact Hrow | exact Hname].
  - assert (p2 = p); [|subst; exact Hv].
    apply (NoDup_map_inj Player.name h'); auto.
    + eapply lookup_In; eauto.
    + congruence.
Qed.

(** Ratings that are stored as written give player objects that are. *)
Lemma update_player_skill_storable (h : heap) (refs : list nat) (n : string)
    (data : GaussianRating) :
  rating_storable data = true ->
  Forall (fun p => player_storable p = true) h ->
  Forall (fun p => player_storable p = true) (update_player_skill h refs n data).
Proof.
  intros Hd Hh. induction refs as [|r refs IH]; simpl; [exact Hh|].
  unfold heap in *. destruct (h !! r) as [player|] eqn:E; [|exact IH].
  destruct (String.eqb _ _); [|exact IH].
  apply Forall_insert; [exact Hh|].
  unfold rating_storable in Hd. unfold player_storable. simpl.
  apply andb_true_iff in Hd as [Hd Hskill]. apply andb_true_iff in Hd as [Hmean Hstdev].
  now rewrite Hskill, Hmean, Hstdev.
Qed.

Lemma apply_updated_storable (refs : list nat) (updated : list Team) (h : heap) :
  Forall (Forall (fun entry => rating_storable (snd entry) = true)) updated ->
  Forall (fun p => player_storable p = true) h ->
  Forall (fun p => player_storable p = true) (apply_updated refs updated h).
Proof.
  unfold apply_updated. revert h.
  induction updated as [|team updated IH]; intros h Hu Hh; simpl; [exact Hh|].
  inversion Hu as [|? ? Hteam Hrest]; subst.
  apply IH; [exact Hrest|]. clear IH Hu Hrest. revert h Hh.
  induction team as [|entry team IH]; intros h Hh; simpl; [exact Hh|].
  inversion Hteam as [|? ? Hentry Hteam']; subst.
  apply IH; [exact Hteam'|]. now apply update_player_skill_storable.
Qed.

Lemma run_match_storable (env : Env) (m : Match.t) (halite_binary : string) (h : heap) :
  storable_ratings env ->
  Forall (fun p => player_storable p = true) h ->
  Forall (fun p => player_storable p = true)
         (Match.players_after (Match.run_match env m halite_binary h)).
Proof.
  intros Henv Hh. unfold Match.run_match.
  destruct (halite env _ _) as [raw code| |e0|e0]; [|exact Hh..].
  destruct (PyStr.decode_ascii raw); [|exact Hh].
  destruct (Match.parse_results_string _) as [[u|e] m2]; [|exact Hh].
  unfold update_ranks.
  destruct (new_ratings env _ _) as [updated|e] eqn:E; simpl; [|exact Hh].
  apply apply_updated_storable; [|exact Hh]. eapply Henv; eauto.
Qed.

(** A round that returns leaves a table that SQLite holds as written. *)
Lemma run_round_storable (env : Env) (clock : nat -> string) (indices : list Z)
    (width height seed : Z) (w : Manager.world) :
  storable_ratings env ->
  Forall (fun p => player_storable p = true) (Manager.players (Manager.mgr w)) ->
  Forall (fun r => row_storable r = true) (Database.rows (Manager.db (Manager.mgr w))) ->
  let w' := snd (Manager.run_round env clock indices width height seed w) in
  Forall (fun p => player_storable p = true) (Manager.players (Manager.mgr w'))
  /\ Forall (fun r => row_storable r = true) (Database.rows (Manager.db (Manager.mgr w'))).
Proof.
  intros Henv Hp Hr. cbv zeta. rewrite run_round_closed.
  destruct (Manager.refs_of _ _) as [refs|e]; [|now split]. cbv zeta.
  set (m := Manager.new_match (Manager.mgr w) refs indices width height seed).
  pose proof (run_match_storable env m (Manager.halite_binary (Manager.mgr w))
                (Manager.players (Manager.mgr w)) Henv Hp) as Hp'.
  destruct (Match.outcome _) as [u|e]; cbn [snd Manager.mgr Manager.players
    Manager.set_players Manager.set_db Manager.db]; [|now split].
  split; [exact Hp'|].
  rewrite List.Forall_forall. intros row' Hrow'.
  unfold Database.update_player_ranks in Hrow'.
  apply assign_ranks_In in Hrow' as (row1 & Hrow1 & Heq).
  assert (Hcols : row_storable row' = row_storable row1).
  { pose proof (f_equal Database.skill Heq) as H1.
    pose proof (f_equal Database.mu Heq) as H2.
    pose proof (f_equal Database.sigma Heq) as H3.
    simpl in H1, H2, H3. unfold row_storable. now rewrite H1, H2, H3. }
  rewrite Hcols.
  apply saved_row_spec in Hrow1 as (row & Hrow & _ & Hcase).
  destruct Hcase as [[-> _]|(r2 & p2 & _ & Hp2 & _ & Hs & Hm & Hg)].
  - rewrite List.Forall_forall in Hr. now apply Hr.
  - unfold row_storable. rewrite Hs, Hm, Hg.
    rewrite List.Forall_forall in Hp'. apply (Hp' p2). eapply lookup_In; eauto.
Qed.

(** The ratings that a round starts from are the stored ones.  On a
    table of pairwise different names with two or more active players,
    whose ratings SQLite holds as written (no NaN, no -0.0), and with a
    rating engine that returns such ratings only: when [run_matches]
    returns, after any number of rounds, every loaded player object
    carries the rating (skill, [mu], [sigma]) of the row of its name, and
    the table still holds its ratings as written.  Each round wrote to the
    table what it computed, so the next round's priors were the ratings
    stored by the rounds before. *)
Theorem stored_ratings_are_the_priors (env : Env) (clock : nat -> string) (fuel : nat)
    (n : Z) (w : Manager.world) :
  List.NoDup (names_of (Manager.db (Manager.mgr w))) ->
  2 <= Z.of_nat (length (Database.active_players (Manager.db (Manager.mgr w)))) ->
  Forall (fun r => row_storable r = true) (Database.rows (Manager.db (Manager.mgr w))) ->
  storable_ratings env ->
  is_ok (fst (Manager.run_matches env clock fuel n w)) = true ->
  let m' := Manager.mgr (snd (Manager.run_matches env clock fuel n w)) in
  agree m'
  /\ Forall (fun p => player_storable p = true) (Manager.players m')
  /\ Forall (fun r => row_storable r = true) (Database.rows (Manager.db m')).
Proof.
  intros Hnd Hact Hrows Henv. unfold Manager.run_matches.
  rewrite length_map.
  replace (_ <? 2) with false by (symmetry; apply Z.ltb_ge; lia).
  intros Hok. cbv zeta.
  apply (run_rounds_completed env clock
           (fun m => List.NoDup (map Player.name (Manager.players m))
                     /\ agree m
                     /\ Forall (fun p => player_storable p = true) (Manager.players m)
                     /\ Forall (fun r => row_storable r = true)
                               (Database.rows (Manager.db m))));
    [| |split; [|split; [|split]]|exact Hok].
  - intros indices width height seed w1 (Hn & Ha & Hp & Hr) Hok1. split; [|split].
    + pose proof (run_round_frame env clock indices width height seed w1)
        as (_ & _ & _ & _ & Hnames & _).
      cbv zeta in Hnames. now rewrite Hnames.
    + now apply run_round_agree.
    + now apply run_round_storable.
  - intros m v H. exact H.
  - simpl. rewrite map_map. apply (NoDup_filter_map Database.name). exact Hnd.
  - simpl. intros p r Hp Hr Hname.
    apply in_map_iff in Hp as (r0 & <- & Hr0).
    apply List.filter_In in Hr0 as [Hr0 _]. simpl in Hname.
    assert (r = r0); [|subst; auto].
    apply (NoDup_map_inj Database.name (Database.rows (Manager.db (Manager.mgr w)))); auto.
    apply NoDup_ListNoDup. exact Hnd.
  - simpl. rewrite List.Forall_forall. intros p Hp.
    apply in_map_iff in Hp as (r0 & <- & Hr0).
    apply List.filter_In in Hr0 as [Hr0 _].
    rewrite List.Forall_forall in Hrows. exact (Hrows r0 Hr0).
  - exact Hrows.
Qed.

Lemma stored_ratings_are_the_priors_witness :
  let env := demo_env_rated (Completed (example_output "a" "b" nl) 0) in
  let w := Manager.mk_world (Manager.init "./halite" 20 50 2 2 (-1) demo_db)
                            (Random.mk (fun _ => 0) 0) [] [] 0 in
  agree (Manager.mgr (snd (Manager.run_matches env demo_clock 2 2 w))).
Proof.
  intros env w.
  apply (stored_ratings_are_the_priors env demo_clock 2 2 w).
  - repeat constructor; simpl; intuition discriminate.
  - simpl. lia.
  - repeat constructor.
  - intros teams ranks updated [= <-]. repeat constructor.
  - vm_compute. reflexivity.
Defined.

(** *** The participants by index *)

Lemma refs_of_positions (len : nat) (indices : list Z) :
  (forall i, In i indices -> - Z.of_nat len <= i < Z.of_nat len) ->
  Manager.refs_of len indices = Ok (map (position_of len) indices).
Proof.
  induction indices as [|i indices IH]; intros H; simpl; [reflexivity|].
  rewrite norm_index_position by (apply H; now left).
  rewrite IH by (intros j Hj; apply H; now right). reflexivity.
Qed.

Lemma refs_of_bad_index (len : nat) (indices : list Z) :
  (exists i, In i indices /\ ~ (- Z.of_nat len <= i < Z.of_nat len)) ->
  Manager.refs_of len indices = Raise IndexError.
Proof.
  induction indices as [|i indices IH]; intros (j & Hj & Hbad); [destruct Hj|].
  simpl. destruct (PyList.norm_index len i) as [k|] eqn:E; [|reflexivity].
  destruct Hj as [->|Hj].
  - rewrite (norm_index_none _ _ Hbad) in E. discriminate.
  - rewrite IH by eauto. reflexivity.
Qed.

(** The participants of [run_round] are given by index, as Python reads
    an index: within [-n .. n-1] for [n] loaded players, a negative one
    counting from the end.  With every index in that range, on a board
    whose area is not negative (sides and seed below 2^511 in magnitude),
    the round runs on the player objects at those positions: it asks for
    one engine process with the command of these participants, and waits
    for it once with the time limit of the match, unless the process
    could not be started, when the round raises at once.  With one index
    outside, [run_round] raises [IndexError] before anything is done: no
    engine process, no write, the world as it was. *)
Theorem run_round_indices (env : Env) (clock : nat -> string) (indices : list Z)
    (width height seed : Z) (w : Manager.world) :
  let n := length (Manager.players (Manager.mgr w)) in
  let m := Manager.new_match (Manager.mgr w) (map (position_of n) indices)
                             indices width height seed in
  let command := Match.get_command m (Manager.halite_binary (Manager.mgr w)) in
  let r := Manager.run_round env clock indices width height seed w in
  ((forall i, In i indices -> - Z.of_nat n <= i < Z.of_nat n) ->
   0 <= width * height ->
   Z.abs width < 2 ^ 511 -> Z.abs height < 2 ^ 511 -> Z.abs seed < 2 ^ 511 ->
   Manager.refs_of n indices = Ok (map (position_of n) indices)
   /\ exists evs,
        Manager.log (snd r) = List.app (Manager.log w) (Spawn command :: evs)
        /\ (evs = [Communicate (Match.total_time_limit m)]
            \/ (evs = []
                /\ exists e, halite env command (Match.total_time_limit m) = SpawnFailed e
                             /\ fst r = Raise e)))
  /\ ((exists i, In i indices /\ ~ (- Z.of_nat n <= i < Z.of_nat n)) ->
      r = (Raise IndexError, w)).
Proof.
  intros n m command r. split.
  - intros Hin _ _ _ _. pose proof (refs_of_positions n indices Hin) as Hrefs.
    split; [exact Hrefs|].
    unfold r. rewrite run_round_closed. fold n. rewrite Hrefs. cbv zeta. fold m.
    destruct (run_match_events env m (Manager.halite_binary (Manager.mgr w))
                               (Manager.players (Manager.mgr w)))
      as [Hev|(Hev & e & Hspawn & Hout)]; cbv zeta in *.
    + exists [Communicate (Match.total_time_limit m)].
      split; [|now left].
      destruct (Match.outcome _); cbn [snd Manager.log]; now rewrite Hev.
    + exists []. rewrite Hout. cbn [fst snd Manager.log]. rewrite Hev.
      split; [reflexivity|]. right. split; [reflexivity|]. exists e. now split.
  - intros Hbad. unfold r. rewrite run_round_closed. fold n.
    now rewrite (refs_of_bad_index n indices Hbad).
Qed.

Lemma run_round_indices_witness :
  let env := demo_env Expired in
  let w := demo_world 20 50 2 6 (fun _ => 0) in
  Manager.refs_of 5 [-1; 0] = Ok [4%nat; 0%nat]
  /\ Manager.log (snd (Manager.run_round env demo_clock [-1; 0] 20 20 10000 w))
     = [Spawn ["./halite"; "-d 20 20"; "-q"; "-s 10000"; "bots/e"; "bots/a"];
        Communicate 800%float]
  /\ Manager.run_round env demo_clock [0; 5] 20 20 10000 w = (Raise IndexError, w)
  /\ Manager.run_round env demo_clock [-6; 1] 20 20 10000 w = (Raise IndexError, w).
Proof.
  intros env w.
  destruct (proj1 (run_round_indices env demo_clock [-1; 0] 20 20 10000 w))
    as (Hrefs & evs & Hlog & Hevs);
    [ intros i [<-|[<-|[]]]; simpl; lia | lia | simpl; lia | simpl; lia | simpl; lia |].
  split; [exact Hrefs|]. split; [|split].
  - vm_compute. reflexivity.
  - apply (proj2 (run_round_indices env demo_clock [0; 5] 20 20 10000 w)).
    exists 5. split; [simpl; auto | simpl; lia].
  - apply (proj2 (run_round_indices env demo_clock [-6; 1] 20 20 10000 w)).
    exists (-6). split; [simpl; auto | simpl; lia].
Defined.

(** *** The time limit *)

Lemma upto_In (n : nat) (i : Z) : In i (upto n) <-> 0 <= i < Z.of_nat n.
Proof. apply open_set_In. Qed.

Lemma limit_ok_table :
  forallb (fun s => forallb (fun k => limit_ok k s) (upto 33)) (upto 513) = true.
Proof. vm_compute. reflexivity. Qed.

(** The time limit that [run_round] gives a match is exact: for up to 32
    participants and a square board of side up to 512,
    [2 * len(players) * max_match_rounds(width, height)] is the binary64
    value of the integer [20 * len(players) * width]: the square root of
    [width * width] is [width] with no rounding error. *)
Theorem time_limit_of_a_round (self : Manager.t) (refs : list nat) (indices : list Z)
    (size seed : Z) :
  0 <= size <= 512 ->
  (length indices <= 32)%nat ->
  Match.total_time_limit (Manager.new_match self refs indices size size seed)
  = float_of_int (20 * Z.of_nat (length indices) * size).
Proof.
  intros Hs Hk. simpl.
  pose proof limit_ok_table as Htab.
  rewrite forallb_forall in Htab.
  specialize (Htab size ltac:(apply upto_In; lia)).
  rewrite forallb_forall in Htab.
  specialize (Htab (Z.of_nat (length indices)) ltac:(apply upto_In; lia)).
  unfold limit_ok in Htab. now apply Leibniz.eqb_spec in Htab.
Qed.

Lemma time_limit_of_a_round_witness :
  Match.total_time_limit
    (Manager.new_match (Manager.default "./halite" demo_db) [0%nat; 1%nat] [0; 1] 20 20 10000)
  = float_of_int 800.
Proof.
  apply (time_limit_of_a_round (Manager.default "./halite" demo_db) [0%nat; 1%nat] [0; 1]
           20 10000); simpl; lia.
Defined.

(** *** One turn of [run_rounds] *)

(** With board sizes that are multiples of 5 (below 2^52 in magnitude,
    [size_min <= size_max]), [players_max >= 2] and two or more players
    loaded, as with the defaults 20, 50 and 6, every turn of [run_rounds]
    reaches the engine: no draw raises, and the turn asks for exactly one
    engine process and waits for it once, however the match ends, unless
    the process could not be started, when the turn raises at once.  The
    command is the binary, ["-d S S"] for a side [S] that is a multiple
    of 5 within [size_min .. size_max], ["-q"], ["-s seed"] with
    [10000 <= seed <= 2073741824], and then the paths of the chosen
    players, [k] different loaded players with
    [2 <= k <= min(players_max, loaded)], in the order chosen. *)
Theorem round_reaches_the_engine (env : Env) (clock : nat -> string) (w : Manager.world) :
  let m := Manager.mgr w in
  let n := Z.of_nat (length (Manager.players m)) in
  Manager.size_min m mod 5 = 0 -> Manager.size_max m mod 5 = 0 ->
  Manager.size_min m <= Manager.size_max m ->
  Z.abs (Manager.size_min m) < 2 ^ 52 -> Z.abs (Manager.size_max m) < 2 ^ 52 ->
  2 <= Z.min (Manager.players_max m) n ->
  exists chosen S seed,
    2 <= Z.of_nat (length chosen) <= Z.min (Manager.players_max m) n
    /\ List.NoDup chosen
    /\ (forall i, In i chosen -> 0 <= i < n)
    /\ Manager.size_min m <= S <= Manager.size_max m /\ S mod 5 = 0
    /\ 10000 <= seed <= 2073741824
    /\ exists evs,
         Manager.log (snd (Manager.run_rounds_body env clock w))
         = List.app (Manager.log w)
             (Spawn (engine_command (Manager.halite_binary m) S seed
                       (map (fun i => Match.path_of (Manager.players m) (Z.to_nat i))
                            chosen)) :: evs)
         /\ (evs = [Communicate (float_of_int (2 * Z.of_nat (length chosen))
                                   * max_match_rounds S S)%float]
             \/ (evs = []
                 /\ exists e, fst (Manager.run_rounds_body env clock w) = Raise e)).
Proof.
  intros m n H5min H5max Hle Hmin Hmax Htop.
  (* the number of participants *)
  destruct (manager_randint_total w 2 (Z.min (Manager.players_max m) n) Htop)
    as (k & wa & Ek & _).
  assert (Eka : Manager.pick_count w = (Ok k, wa)) by exact Ek.
  pose proof (pick_count_frame w) as Fa. rewrite Eka in Fa. simpl in Fa.
  apply but_rng_mgr in Fa as (Hma & Hla & _).
  apply manager_randint_range in Ek as [Hk _].
  (* the participants *)
  assert (Hpool : length (Manager.players (Manager.mgr wa)) = length (Manager.players m))
    by (now rewrite Hma).
  destruct (pick_loop_total (Z.to_nat k)
              (map Z.of_nat (seq 0 (length (Manager.players (Manager.mgr wa))))) [] wa)
    as (chosen & wb & Eb); [rewrite length_map, length_seq, Hpool; lia | apply open_set_NoDup |].
  assert (Ekb : Manager.pick_players k wa = (Ok chosen, wb)) by exact Eb.
  pose proof (pick_players_frame k wa) as Fb. rewrite Ekb in Fb. simpl in Fb.
  apply but_rng_mgr in Fb as (Hmb & Hlb & _).
  destruct (pick_loop_spec _ _ _ _ _ _ Eb (open_set_NoDup _))
    as (picked & Hpicked & Hlen & Hnd & Hin & _).
  simpl in Hpicked. subst picked.
  (* the board *)
  assert (Hmb' : Manager.mgr wb = m) by (unfold m; congruence).
  destruct (truediv5_spec (Manager.size_min m) Hmin) as (lo & Hlo & _).
  destruct (truediv5_spec (Manager.size_max m) Hmax) as (hi & Hhi & _).
  pose proof (pick_size_unfold wb lo hi) as Ec. rewrite Hmb' in Ec.
  specialize (Ec Hlo Hhi).
  destruct (randrange_sizes (Manager.rng wb) _ _ lo hi Hmin Hmax Hlo Hhi)
    as (Hdrawn & Htotal & _).
  destruct (Htotal H5min H5max Hle) as (q & g' & Hdraw).
  destruct (Hdrawn q g' Hdraw) as (_ & _ & Hq).
  cbv zeta in Hdraw. rewrite Hdraw in Ec.
  set (wc := Manager.mk_world m g' (Manager.log wb) (Manager.notices wb) (Manager.reads wb))
    in Ec.
  (* the seed *)
  destruct (manager_randint_total wc 10000 2073741824 ltac:(lia)) as (seed & wd & Ed & _).
  pose proof (randint_frame (Int 10000) (Int 2073741824) wc) as Fd.
  rewrite Ed in Fd. simpl in Fd. apply but_rng_mgr in Fd as (Hmd & Hld & _).
  pose proof Ed as Hseed. apply manager_randint_range in Hseed as [Hseed _].
  exists chosen, (q * 5), seed.
  pose proof (Z_div_exact_full_2 (Manager.size_min m) 5 ltac:(lia) H5min).
  pose proof (Z_div_exact_full_2 (Manager.size_max m) 5 ltac:(lia) H5max).
  assert (Hrange : forall i, In i chosen -> 0 <= i < n).
  { intros i Hi. apply Hin, open_set_In in Hi. rewrite Hpool in Hi. exact Hi. }
  split; [lia|]. split; [exact Hnd|]. split; [exact Hrange|].
  split; [lia|]. split; [apply Z.mod_mul; lia|]. split; [exact Hseed|].
  unfold Manager.run_rounds_body, Manager.bind.
  rewrite Eka, Ekb, Ec, Ed. cbn [fst snd].
  rewrite run_round_closed.
  assert (Hrefs : Manager.refs_of (length (Manager.players (Manager.mgr wd))) chosen
                  = Ok (map Z.to_nat chosen)).
  { rewrite refs_of_positions.
    - f_equal. apply map_ext_in. intros i Hi. unfold position_of.
      replace (i <? 0) with false; [reflexivity|].
      symmetry. apply Z.ltb_ge. apply Hrange in Hi. lia.
    - intros i Hi. apply Hrange in Hi. rewrite Hmd. simpl. fold m. fold n. lia. }
  rewrite Hrefs. cbv zeta.
  assert (Hlog : Manager.log wd = Manager.log w) by (rewrite Hld; simpl; congruence).
  rewrite Hmd. simpl Manager.mgr.
  assert (Hcmd : Match.get_command
                   (Manager.new_match m (map Z.to_nat chosen) chosen (q * 5) (q * 5) seed)
                   (Manager.halite_binary m)
                 = engine_command (Manager.halite_binary m) (q * 5) seed
                     (map (fun i => Match.path_of (Manager.players m) (Z.to_nat i)) chosen)).
  { unfold Match.get_command, engine_command.
    cbn [Manager.new_match Match.init Match.width Match.height Match.map_seed
         Match.paths app].
    now rewrite map_map. }
  destruct (run_match_events env
              (Manager.new_match m (map Z.to_nat chosen) chosen (q * 5) (q * 5) seed)
              (Manager.halite_binary m) (Manager.players m))
    as [Hev|(Hev & e & _ & Hout)]; cbv zeta in *.
  - eexists. split; [|left; reflexivity].
    destruct (Match.outcome _); cbn [snd Manager.log]; rewrite Hlog, Hev, Hcmd; reflexivity.
  - exists []. rewrite Hout. cbn [fst snd Manager.log]. rewrite Hlog, Hev, Hcmd.
    split; [reflexivity|]. right. split; [reflexivity|]. now exists e.
Qed.

Lemma round_reaches_the_engine_witness :
  let env := demo_env (Completed (example_output "a" "b" nl) 0) in
  let w := demo_world 20 50 2 6 (fun n => Z.of_nat n + 3) in
  exists chosen S seed,
    2 <= Z.of_nat (length chosen) <= 5
    /\ 20 <= S <= 50 /\ S mod 5 = 0
    /\ 10000 <= seed <= 2073741824
    /\ exists evs,
         Manager.log (snd (Manager.run_rounds_body env demo_clock w))
         = Spawn (engine_command "./halite" S seed
                    (map (fun i => Match.path_of (Manager.players (Manager.mgr w))
                                                 (Z.to_nat i)) chosen)) :: evs.
Proof.
  intros env w.
  destruct (round_reaches_the_engine env demo_clock w)
    as (chosen & S & seed & Hk & _ & _ & HS & H5 & Hseed & evs & Hlog & _);
    [ reflexivity | reflexivity | vm_compute; discriminate | vm_compute; reflexivity
    | vm_compute; reflexivity | vm_compute; discriminate | ].
  exists chosen, S, seed.
  split; [exact Hk|]. split; [exact HS|]. split; [exact H5|]. split; [exact Hseed|].
  exists evs. exact Hlog.
Defined.

(** *** Rounds without end *)

(** With a negative [rounds], as [--forever] sets it, [run_rounds] has no
    end of its own: however many turns are followed, it has returned
    only if every one of them completed a round, and otherwise an
    exception ended it; [rounds] stays negative. *)
Theorem run_rounds_forever (env : Env) (clock : nat -> string) (fuel : nat)
    (w : Manager.world) :
  Manager.rounds (Manager.mgr w) < 0 ->
  let r := Manager.run_rounds env clock fuel w in
  Manager.rounds (Manager.mgr (snd r)) = Manager.rounds (Manager.mgr w)
  /\ match fst r with
     | Ok _ =>
         Manager.round_count (Manager.mgr (snd r))
         = Manager.round_count (Manager.mgr w) + Z.of_nat fuel
     | Raise _ =>
         Manager.round_count (Manager.mgr w) <= Manager.round_count (Manager.mgr (snd r))
           < Manager.round_count (Manager.mgr w) + Z.of_nat fuel
     end.
Proof.
  revert w. induction fuel as [|fuel IH]; intros w Hneg; cbv zeta.
  - simpl. split; [reflexivity | lia].
  - simpl.
    replace (Manager.rounds (Manager.mgr w) <? 0) with true
      by (symmetry; apply Z.ltb_lt; lia).
    simpl. unfold Manager.bind.
    destruct (run_rounds_body_round env clock w)
      as [(e & w' & -> & Hw')|(chosen & size & seed & w1 & Hw1 & ->)].
    + apply but_rng_mgr in Hw' as (Hm & _). simpl. rewrite Hm.
      split; [reflexivity | lia].
    + apply but_rng_mgr in Hw1 as (Hm & _).
      pose proof (run_round_frame env clock chosen (fst size) (snd size) seed w1)
        as (Hc & Hrc & _).
      cbv zeta in *. rewrite Hm in *.
      assert (Hr : Manager.rounds (Manager.mgr (snd (Manager.run_round env clock chosen
                     (fst size) (snd size) seed w1))) = Manager.rounds (Manager.mgr w))
        by (unfold config in Hc; congruence).
      destruct (Manager.run_round env clock chosen (fst size) (snd size) seed w1)
        as [[u|e] w2]; simpl in *.
      * rewrite Hrc.
        specialize (IH (Manager.set_mgr w2
                          (Manager.set_round_count (Manager.mgr w2)
                             (Manager.round_count (Manager.mgr w) + 1)))).
        simpl in IH. rewrite Hr in IH. specialize (IH Hneg).
        destruct IH as [IHr IHc]. split; [exact IHr|].
        destruct (fst (Manager.run_rounds env clock fuel _)); lia.
      * split; [exact Hr | lia].
Qed.

Lemma run_rounds_forever_witness :
  let env := demo_env (Completed (example_output "a" "b" nl) 0) in
  let w := Manager.mk_world
             (Manager.set_players (Manager.init "./halite" 20 50 2 2 (-1) demo_db)
                (map parse_player_record (Database.active_players demo_db)))
             (Random.mk (fun _ => 0) 0) [] [] 0 in
  let r := Manager.run_rounds env demo_clock 4 w in
  fst r = Ok tt /\ Manager.round_count (Manager.mgr (snd r)) = 4.
Proof.
  intros env w r.
  assert (Hok : fst r = Ok tt) by (vm_compute; reflexivity).
  split; [exact Hok|].
  pose proof (run_rounds_forever env demo_clock 4 w) as H.
  cbv zeta in H. fold r in H. rewrite Hok in H.
  destruct H as (_ & Hc); [simpl; lia|]. exact Hc.
Defined.

(** ** The ranks are a function of the skills *)

Lemma insert_desc_map (f : Database.row -> Database.row) (r : Database.row)
    (l : list Database.row) :
  (forall x, Database.skill (f x) = Database.skill x) ->
  Database.insert_desc (f r) (map f l) = map f (Database.insert_desc r l).
Proof.
  intros Hf. induction l as [|x l IH]; simpl; [reflexivity|].
  rewrite !Hf. destruct (Database.sql_lt _ _); simpl; [reflexivity|].
  now rewrite IH.
Qed.

(** The query commutes with a rewriting of the rows that leaves the skill. *)
Lemma order_by_skill_desc_map (f : Database.row -> Database.row)
    (rs : list Database.row) :
  (forall x, Database.skill (f x) = Database.skill x) ->
  Database.order_by_skill_desc (map f rs) = map f (Database.order_by_skill_desc rs).
Proof.
  intros Hf. unfold Database.order_by_skill_desc.
  change (@nil Database.row) with (map f []) at 1.
  generalize (@nil Database.row) as acc.
  induction rs as [|r rs IH]; intros acc; simpl; [reflexivity|].
  rewrite insert_desc_map by exact Hf. apply IH.
Qed.

Lemma assign_ranks_last_id (names : list string) :
  forall (store : Database.t) (i : Z),
    Database.last_id (Database.assign_ranks store i names) = Database.last_id store.
Proof.
  induction names as [|n names IH]; intros store i; simpl; [reflexivity|].
  now rewrite IH.
Qed.

Lemma map_name_set_rank (l : list Database.row) :
  map Database.name (map (Database.set_rank 0) l) = map Database.name l.
Proof. rewrite map_map. now apply map_ext. Qed.

Lemma ranked_set_rank (names : list string) (r : Database.row) :
  Database.set_rank 0 (ranked 0 names r) = Database.set_rank 0 r.
Proof. unfold ranked. destruct (position _ _); reflexivity. Qed.

Lemma ranked_named (names : list string) (r : Database.row) :
  In (Database.name r) names ->
  ranked 0 names r = ranked 0 names (Database.set_rank 0 r).
Proof.
  intros Hin. unfold ranked. simpl.
  destruct (position_In _ _ Hin) as [k ->]. reflexivity.
Qed.

(** The rows that [update_player_ranks] leaves, in closed form. *)
Lemma update_player_ranks_rows (store : Database.t) :
  List.NoDup (names_of store) ->
  Database.rows (Database.update_player_ranks store)
  = map (ranked 0 (Database.names_by_skill_desc store)) (Database.rows store)
  /\ forall r, In r (Database.rows store) ->
               In (Database.name r) (Database.names_by_skill_desc store).
Proof.
  intros Hnd.
  pose proof (Permutation_map Database.name
                (order_by_skill_desc_perm (Database.rows store))) as Hperm.
  split.
  - apply assign_ranks_rows.
    apply (NoDup_Permutation_proper _ _ Hperm), NoDup_ListNoDup. exact Hnd.
  - intros r Hr. apply (Permutation_in _ (Permutation_sym Hperm)). now apply in_map.
Qed.

Lemma ranks_by_skill (s1 s2 : Database.t) :
  List.NoDup (names_of s1) ->
  map (Database.set_rank 0) (Database.rows s1) = map (Database.set_rank 0) (Database.rows s2) ->
  Database.rows (Database.update_player_ranks s1)
  = Database.rows (Database.update_player_ranks s2).
Proof.
  intros Hnd Hsame.
  assert (Hnames : map Database.name (Database.rows s2) = map Database.name (Database.rows s1)).
  { now rewrite <- (map_name_set_rank (Database.rows s2)), <- Hsame, map_name_set_rank. }
  assert (Hnd2 : List.NoDup (names_of s2)) by (unfold names_of; now rewrite Hnames).
  assert (Hq : Database.names_by_skill_desc s2 = Database.names_by_skill_desc s1).
  { unfold Database.names_by_skill_desc.
    rewrite <- (map_name_set_rank (Database.order_by_skill_desc (Database.rows s2))).
    rewrite <- (map_name_set_rank (Database.order_by_skill_desc (Database.rows s1))).
    rewrite <- !order_by_skill_desc_map by reflexivity. now rewrite Hsame. }
  destruct (update_player_ranks_rows s1 Hnd) as [-> Hin1].
  destruct (update_player_ranks_rows s2 Hnd2) as [-> Hin2].
  rewrite Hq in *.
  set (names := Database.names_by_skill_desc s1) in *.
  rewrite (map_ext_in _ (fun r => ranked 0 names (Database.set_rank 0 r)))
    by (intros r Hr; apply ranked_named, Hin1, Hr).
  rewrite (map_ext_in (ranked 0 names) (fun r => ranked 0 names (Database.set_rank 0 r))
             (Database.rows s2))
    by (intros r Hr; apply ranked_named, Hin2, Hr).
  rewrite <- (map_map (Database.set_rank 0) (ranked 0 names) (Database.rows s1)).
  rewrite <- (map_map (Database.set_rank 0) (ranked 0 names) (Database.rows s2)).
  now rewrite Hsame.
Qed.

(** The ranks that [update_player_ranks] writes depend on nothing but
    the skills and the order of the table: two tables of pairwise
    different names that differ in the stored ranks alone are ranked
    alike, whatever ranks they held; so ranking twice is ranking once. *)
Theorem ranks_depend_on_skill_only (s1 s2 : Database.t) :
  List.NoDup (names_of s1) ->
  map (Database.set_rank 0) (Database.rows s1) = map (Database.set_rank 0) (Database.rows s2) ->
  Database.rows (Database.update_player_ranks s1)
  = Database.rows (Database.update_player_ranks s2)
  /\ Database.update_player_ranks (Database.update_player_ranks s1)
     = Database.update_player_ranks s1.
Proof.
  intros Hnd Hsame. split; [now apply ranks_by_skill|].
  destruct (update_player_ranks_rows s1 Hnd) as [Hrows _].
  assert (Hkeep : map (Database.set_rank 0)
                      (Database.rows (Database.update_player_ranks s1))
                  = map (Database.set_rank 0) (Database.rows s1)).
  { rewrite Hrows, map_map. apply map_ext. intros r. apply ranked_set_rank. }
  assert (Hnd' : List.NoDup (names_of (Database.update_player_ranks s1))).
  { unfold names_of.
    rewrite <- map_name_set_rank, Hkeep, map_name_set_rank. exact Hnd. }
  pose proof (ranks_by_skill _ _ Hnd' Hkeep) as Hagain.
  rewrite <- (store_eta (Database.update_player_ranks (Database.update_player_ranks s1))).
  rewrite <- (store_eta (Database.update_player_ranks s1)) at 3.
  rewrite Hagain. f_equal.
  unfold Database.update_player_ranks. now rewrite !assign_ranks_last_id.
Qed.

Lemma ranks_depend_on_skill_only_witness :
  let s2 := Database.update_where "c" (Database.set_rank 1) demo_db in
  Database.rows (Database.update_player_ranks demo_db)
  = Database.rows (Database.update_player_ranks s2)
  /\ Database.update_player_ranks (Database.update_player_ranks demo_db)
     = Database.update_player_ranks demo_db.
Proof.
  intros s2. apply (ranks_depend_on_skill_only demo_db s2).
  - repeat constructor; simpl; intuition discriminate.
  - reflexivity.
Defined.

(** ** What the rating update writes *)

Lemma update_player_skill_identity (h : heap) (refs : list nat) (n : string)
    (data : GaussianRating) :
  map identity_of (update_player_skill h refs n data) = map identity_of h.
Proof.
  induction refs as [|r refs IH]; simpl; [reflexivity|].
  unfold heap in *. destruct (h !! r) as [player|] eqn:E; [|exact IH].
  destruct (String.eqb _ _); [|exact IH].
  now apply (map_insert_same identity_of h r player).
Qed.

Lemma update_player_skill_changed (h : heap) (refs : list nat) (n : string)
    (data : GaussianRating) (j : nat) (p' : Player.t) :
  update_player_skill h refs n data !! j = Some p' ->
  h !! j = Some p' \/ player_consistent p'.
Proof.
  induction refs as [|r refs IH]; simpl; [now left|].
  unfold heap in *. destruct (h !! r) as [player|] eqn:E; [|exact IH].
  destruct (String.eqb _ _); [|exact IH].
  destruct (Nat.eq_dec r j) as [->|Hne].
  - rewrite list_lookup_insert_eq by (eapply lookup_lt_Some; eauto).
    intros [= <-]. right. reflexivity.
  - rewrite list_lookup_insert_ne by exact Hne. now left.
Qed.

Lemma apply_updated_identity (refs : list nat) (updated : list Team) (h : heap) :
  map identity_of (apply_updated refs updated h) = map identity_of h.
Proof.
  unfold apply_updated. revert h.
  induction updated as [|team updated IH]; intros h; simpl; [reflexivity|].
  rewrite IH. clear IH. revert h.
  induction team as [|entry team IH]; intros h; simpl; [reflexivity|].
  rewrite IH. apply update_player_skill_identity.
Qed.

Lemma apply_updated_changed (refs : list nat) (updated : list Team) (h : heap)
    (j : nat) (p' : Player.t) :
  apply_updated refs updated h !! j = Some p' ->
  h !! j = Some p' \/ player_consistent p'.
Proof.
  unfold apply_updated. revert h.
  induction updated as [|team updated IH]; intros h; simpl; [now left|].
  intros H. apply IH in H as [H|H]; [|now right]. clear IH. revert h H.
  induction team as [|entry team IH]; intros h; simpl; [now left|].
  intros H. apply IH in H as [H|H]; [|now right].
  now apply update_player_skill_changed in H.
Qed.

(** [update_ranks] writes ratings and nothing else: when it returns,
    every player object has the name, path, time stamp, rank, number of
    games and [active] flag it had (the rank and the number of games of a
    player object are never brought up to date), a player object that
    is not a participant is as it was, and every player object is as it
    was or has [skill = mu - sigma * 3]. *)
Theorem update_ranks_writes_ratings_only (env : Env) (h h' : heap) (refs : list nat)
    (ranks : list Z) :
  update_ranks env h refs ranks = Ok h' ->
  map identity_of h' = map identity_of h
  /\ (forall j, ~ In j refs -> h' !! j = h !! j)
  /\ (forall j p', h' !! j = Some p' -> h !! j = Some p' \/ player_consistent p').
Proof.
  unfold update_ranks.
  destruct (new_ratings env _ _) as [updated|e]; [|discriminate].
  simpl. intros [= <-]. split; [apply apply_updated_identity|]. split.
  - intros j Hj. now apply apply_updated_other.
  - intros j p'. apply apply_updated_changed.
Qed.

Lemma update_ranks_writes_ratings_only_witness :
  let env := demo_env_rated Expired in
  let h := map parse_player_record (Database.rows demo_db) in
  exists h',
    update_ranks env h [0%nat; 1%nat] [1; 2] = Ok h'
    /\ map identity_of h' = map identity_of h
    /\ h' !! 2%nat = h !! 2%nat.
Proof.
  intros env h. eexists. split; [reflexivity|].
  destruct (update_ranks_writes_ratings_only env h _ [0%nat; 1%nat] [1; 2] eq_refl)
    as (Hid & Hother & _).
  split; [exact Hid|]. apply Hother. simpl. lia.
Defined.
